(** * Qchan233/syntax: the Lua plugin of the parser generator

    A shallow embedding of
    - the generated Lua tokenizer ([tokenizer.template.lua]),
    - the Lua emitter trait ([lua-parser-generator-trait.js]) and
    - the command line driver ([bin/syntax.js]: lexical grammar merging and
      grammar validation),
    together with the properties the specification states about them. *)

From Stdlib Require Import List String Ascii ZArith Lia Bool Arith DecimalString.
Import ListNotations.

Open Scope string_scope.
Open Scope list_scope.
Open Scope Z_scope.

Infix "+++" := String.append (right associativity, at level 60).

(** ** Strings as the two host languages see them *)

Module Str.

Definition nl : ascii := ascii_of_nat 10.
Definition tab : ascii := ascii_of_nat 9.
Definition dquote : ascii := ascii_of_nat 34.
Definition backslash : ascii := ascii_of_nat 92.

Definition chr (c : ascii) : string := String c EmptyString.

(** [#s] *)
Definition len (s : string) : Z := Z.of_nat (String.length s).

Fixpoint drop (n : nat) (s : string) : string :=
  match n, s with
  | O, _ => s
  | S n', String _ r => drop n' r
  | S _, EmptyString => EmptyString
  end.

Fixpoint take (n : nat) (s : string) : string :=
  match n, s with
  | O, _ => EmptyString
  | S n', String c r => String c (take n' r)
  | S _, EmptyString => EmptyString
  end.

(** Lua's [s:sub(i, j)]: 1-based and inclusive, a negative index counts from
    the end, and both ends are clamped to the string. *)
Definition sub (s : string) (i j : Z) : string :=
  let l := len s in
  let i := if i <? 0 then Z.max (l + i + 1) 1 else if i =? 0 then 1 else i in
  let j := if j <? 0 then l + j + 1 else if l <? j then l else j in
  if j <? i then EmptyString
  else take (Z.to_nat (j - i + 1)) (drop (Z.to_nat (i - 1)) s).

(** [s:sub(i)] *)
Definition sub_from (s : string) (i : Z) : string := sub s i (-1).

(** [string.rep(s, n)] *)
Definition rep (s : string) (n : Z) : string :=
  Nat.iter (Z.to_nat n) (String.append s) EmptyString.

(** Decimal rendering of an integer, as [..] and template literals do. *)
Definition of_Z (z : Z) : string := NilZero.string_of_int (Z.to_int z).

Definition of_nat (n : nat) : string := of_Z (Z.of_nat n).

(** [Array.prototype.join] *)
Fixpoint join (sep : string) (l : list string) : string :=
  match l with
  | [] => EmptyString
  | [x] => x
  | x :: r => x +++ sep +++ join sep r
  end.

(** The pieces of [s] between newline characters. *)
Fixpoint split_lines_aux (cur : string) (s : string) : list string :=
  match s with
  | EmptyString => [cur]
  | String c r =>
      if Ascii.eqb c nl then cur :: split_lines_aux EmptyString r
      else split_lines_aux (cur +++ chr c) r
  end.

Definition split_lines (s : string) : list string := split_lines_aux EmptyString s.

(** 1-based table lookup [t[i]], [nil] outside the array part. *)
Definition index {A} (t : list A) (i : Z) : option A :=
  if 1 <=? i then nth_error t (Z.to_nat (i - 1)) else None.

(** Contiguous occurrence. *)
Definition occurs_in (x s : string) : Prop := exists pre post, s = pre +++ x +++ post.

End Str.

(** ** Lua patterns

    [string.find] belongs to the Lua standard library.  The tokenizer is
    modelled over an arbitrary [find]; this module gives an executable one for
    the fragment of Lua patterns the lexical rules of the examples use:
    single character classes ([.], [%a], [%d], [%s], ..., escaped characters,
    sets with ranges and complement), the repetitions [*], [+], [-] and [?],
    and the anchors [^] and [$].  Captures, [%b] and [%f] are outside the
    fragment and make [find] answer [nil]. *)

Module LuaPattern.

Inductive SetItem :=
| SRange (lo hi : ascii)
| SChar (c : ascii)
| SClass (c : ascii).

Inductive CharClass :=
| CAny
| CLit (c : ascii)
| CClass (c : ascii)
| CSet (complement : bool) (items : list SetItem).

Inductive Quant := QOne | QStar | QPlus | QMinus | QOpt.

Definition Item : Type := CharClass * Quant.

Definition between (lo hi : nat) (c : ascii) : bool :=
  let n := nat_of_ascii c in (Nat.leb lo n && Nat.leb n hi)%bool.

Definition isdigit := between 48 57.
Definition isupper := between 65 90.
Definition islower := between 97 122.
Definition isalpha c := (isupper c || islower c)%bool.
Definition isalnum c := (isalpha c || isdigit c)%bool.
Definition isspace c := (between 9 13 c || between 32 32 c)%bool.
Definition iscntrl c := (between 0 31 c || between 127 127 c)%bool.
Definition isgraph := between 33 126.
Definition ispunct c := (isgraph c && negb (isalnum c))%bool.
Definition isxdigit c := (isdigit c || between 65 70 c || between 97 102 c)%bool.

Definition tolower (c : ascii) : ascii :=
  if isupper c then ascii_of_nat (nat_of_ascii c + 32) else c.

(** [match_class]: the class letter after [%]; an upper case letter is the
    complement, any other character stands for itself. *)
Definition match_class (c cl : ascii) : bool :=
  let res :=
    if Ascii.eqb (tolower cl) "a" then Some (isalpha c)
    else if Ascii.eqb (tolower cl) "c" then Some (iscntrl c)
    else if Ascii.eqb (tolower cl) "d" then Some (isdigit c)
    else if Ascii.eqb (tolower cl) "g" then Some (isgraph c)
    else if Ascii.eqb (tolower cl) "l" then Some (islower c)
    else if Ascii.eqb (tolower cl) "p" then Some (ispunct c)
    else if Ascii.eqb (tolower cl) "s" then Some (isspace c)
    else if Ascii.eqb (tolower cl) "u" then Some (isupper c)
    else if Ascii.eqb (tolower cl) "w" then Some (isalnum c)
    else if Ascii.eqb (tolower cl) "x" then Some (isxdigit c)
    else None in
  match res with
  | Some r => if isupper cl then negb r else r
  | None => Ascii.eqb cl c
  end.

Definition match_set_item (c : ascii) (it : SetItem) : bool :=
  match it with
  | SRange lo hi => between (nat_of_ascii lo) (nat_of_ascii hi) c
  | SChar x => Ascii.eqb x c
  | SClass cl => match_class c cl
  end.

Definition single_match (cc : CharClass) (c : ascii) : bool :=
  match cc with
  | CAny => true
  | CLit x => Ascii.eqb x c
  | CClass cl => match_class c cl
  | CSet compl items => xorb compl (existsb (match_set_item c) items)
  end.

(** Items of a set up to the closing bracket; [first] tells that a bracket
    here is still a member of the set. *)
Fixpoint parse_set (fuel : nat) (first : bool) (p : string) : option (list SetItem * string) :=
  match fuel with
  | O => None
  | S fuel' =>
      match p with
      | EmptyString => None
      | String c r =>
          if (Ascii.eqb c "]" && negb first)%bool then Some ([], r)
          else if Ascii.eqb c "%" then
            match r with
            | EmptyString => None
            | String cl r' =>
                match parse_set fuel' false r' with
                | Some (items, rest) => Some (SClass cl :: items, rest)
                | None => None
                end
            end
          else
            match r with
            | String d (String hi r') =>
                if (Ascii.eqb d "-" && negb (Ascii.eqb hi "]"))%bool then
                  match parse_set fuel' false r' with
                  | Some (items, rest) => Some (SRange c hi :: items, rest)
                  | None => None
                  end
                else
                  match parse_set fuel' false r with
                  | Some (items, rest) => Some (SChar c :: items, rest)
                  | None => None
                  end
            | _ =>
                match parse_set fuel' false r with
                | Some (items, rest) => Some (SChar c :: items, rest)
                | None => None
                end
            end
      end
  end.

(** One single-character class at the head of the pattern. *)
Definition parse_class (p : string) : option (CharClass * string) :=
  match p with
  | EmptyString => None
  | String c r =>
      if Ascii.eqb c "." then Some (CAny, r)
      else if Ascii.eqb c "%" then
        match r with
        | EmptyString => None
        | String cl r' =>
            if (Ascii.eqb cl "b" || Ascii.eqb cl "f" || isdigit cl)%bool then None
            else Some (CClass cl, r')
        end
      else if Ascii.eqb c "[" then
        match r with
        | String x r' =>
            if Ascii.eqb x "^" then
              match parse_set (S (String.length r')) true r' with
              | Some (items, rest) => Some (CSet true items, rest)
              | None => None
              end
            else
              match parse_set (S (String.length r)) true r with
              | Some (items, rest) => Some (CSet false items, rest)
              | None => None
              end
        | EmptyString => None
        end
      else if (Ascii.eqb c "(" || Ascii.eqb c ")")%bool then None
      else Some (CLit c, r)
  end.

Definition parse_quant (p : string) : Quant * string :=
  match p with
  | String c r =>
      if Ascii.eqb c "*" then (QStar, r)
      else if Ascii.eqb c "+" then (QPlus, r)
      else if Ascii.eqb c "-" then (QMinus, r)
      else if Ascii.eqb c "?" then (QOpt, r)
      else (QOne, p)
  | EmptyString => (QOne, p)
  end.

(** The items of a pattern and whether it ends with the [$] anchor. *)
Fixpoint parse_items (fuel : nat) (p : string) : option (list Item * bool) :=
  match fuel with
  | O => None
  | S fuel' =>
      match p with
      | EmptyString => Some ([], false)
      | String c EmptyString =>
          if Ascii.eqb c "$" then Some ([], true)
          else
            match parse_class p with
            | Some (cc, _) => Some ([(cc, QOne)], false)
            | None => None
            end
      | _ =>
          match parse_class p with
          | None => None
          | Some (cc, r) =>
              let (q, r') := parse_quant r in
              match parse_items fuel' r' with
              | Some (items, e) => Some ((cc, q) :: items, e)
              | None => None
              end
          end
      end
  end.

Record Pattern := {
  anchored : bool;
  items : list Item;
  to_end : bool
}.

Definition parse (p : string) : option Pattern :=
  match p with
  | String c r =>
      if Ascii.eqb c "^" then
        match parse_items (S (String.length r)) r with
        | Some (its, e) => Some {| anchored := true; items := its; to_end := e |}
        | None => None
        end
      else
        match parse_items (S (String.length p)) p with
        | Some (its, e) => Some {| anchored := false; items := its; to_end := e |}
        | None => None
        end
  | EmptyString => Some {| anchored := false; items := []; to_end := false |}
  end.

(** [max_expand]: how many leading characters of [s] are in the class. *)
Fixpoint max_expand (cc : CharClass) (s : string) : nat :=
  match s with
  | String c r => if single_match cc c then S (max_expand cc r) else O
  | EmptyString => O
  end.

(** Length of the match of the items at the head of [s]; repetitions are
    greedy ([*], [+], [?]) or lazy ([-]) and backtrack. *)
Fixpoint do_match (its : list Item) (to_end : bool) (s : string) : option nat :=
  match its with
  | [] =>
      if to_end then match s with EmptyString => Some O | _ => None end
      else Some O
  | (cc, q) :: rest =>
      let shorter (least : nat) :=
        fix shorter (k : nat) : option nat :=
          match do_match rest to_end (Str.drop k s) with
          | Some l => Some (k + l)%nat
          | None =>
              match k with
              | O => None
              | S k' => if Nat.leb least k' then shorter k' else None
              end
          end in
      let longer :=
        fix longer (n k : nat) : option nat :=
          match do_match rest to_end (Str.drop k s) with
          | Some l => Some (k + l)%nat
          | None =>
              match n with
              | O => None
              | S n' => longer n' (S k)
              end
          end in
      match q with
      | QOne =>
          match s with
          | String c r =>
              if single_match cc c then option_map S (do_match rest to_end r) else None
          | EmptyString => None
          end
      | QOpt => shorter O (Nat.min 1 (max_expand cc s))
      | QStar => shorter O (max_expand cc s)
      | QPlus =>
          match max_expand cc s with
          | O => None
          | S m => shorter 1%nat (S m)
          end
      | QMinus => longer (max_expand cc s) O
      end
  end.

(** First position from which the items match. *)
Fixpoint search (its : list Item) (to_end : bool) (pos : nat) (s : string) : option (nat * nat) :=
  match do_match its to_end s with
  | Some l => Some (pos, l)
  | None =>
      match s with
      | String _ r => search its to_end (S pos) r
      | EmptyString => None
      end
  end.

(** [s:find(pattern)]: the 1-based bounds of the first match. *)
Definition find (s pattern : string) : option (Z * Z) :=
  match parse pattern with
  | None => None
  | Some p =>
      if anchored p then
        match do_match (items p) (to_end p) s with
        | Some l => Some (1, Z.of_nat l)
        | None => None
        end
      else
        match search (items p) (to_end p) O s with
        | Some (pos, l) => Some (Z.of_nat pos + 1, Z.of_nat (pos + l))
        | None => None
        end
  end.

End LuaPattern.

(** ** The generated tokenizer ([tokenizer.template.lua]) *)

Module Tokenizer.

(** [Token(params)] *)
Record TokenParams := {
  type : option string;
  value : string;
  startOffset : Z;
  endOffset : Z;
  startLine : Z;
  endLine : Z;
  startColumn : Z;
  endColumn : Z
}.

(** A token is either the shared table [EOF_TOKEN = {type = tokensMap[EOF]}]
    or a table made by [Token]. *)
Inductive Token :=
| EOF_TOKEN
| Token_ (params : TokenParams).

(** The tokenizer object, with the globals [yytext] and [yyleng]. *)
Record Tokenizer := {
  _string : string;
  _states : list string;
  _cursor : Z;
  _tokensQueue : list string;
  _currentLine : Z;
  _currentColumn : Z;
  _currentLineBeginOffset : Z;
  _tokenStartOffset : Z;
  _tokenEndOffset : Z;
  _tokenStartLine : Z;
  _tokenEndLine : Z;
  _tokenStartColumn : Z;
  _tokenEndColumn : Z;
  yytext : string;
  yyleng : Z
}.

Definition set_states (v : list string) (self : Tokenizer) : Tokenizer :=
  {| _string := _string self; _states := v; _cursor := _cursor self;
     _tokensQueue := _tokensQueue self; _currentLine := _currentLine self;
     _currentColumn := _currentColumn self;
     _currentLineBeginOffset := _currentLineBeginOffset self;
     _tokenStartOffset := _tokenStartOffset self; _tokenEndOffset := _tokenEndOffset self;
     _tokenStartLine := _tokenStartLine self; _tokenEndLine := _tokenEndLine self;
     _tokenStartColumn := _tokenStartColumn self; _tokenEndColumn := _tokenEndColumn self;
     yytext := yytext self; yyleng := yyleng self |}.

Definition set_cursor (v : Z) (self : Tokenizer) : Tokenizer :=
  {| _string := _string self; _states := _states self; _cursor := v;
     _tokensQueue := _tokensQueue self; _currentLine := _currentLine self;
     _currentColumn := _currentColumn self;
     _currentLineBeginOffset := _currentLineBeginOffset self;
     _tokenStartOffset := _tokenStartOffset self; _tokenEndOffset := _tokenEndOffset self;
     _tokenStartLine := _tokenStartLine self; _tokenEndLine := _tokenEndLine self;
     _tokenStartColumn := _tokenStartColumn self; _tokenEndColumn := _tokenEndColumn self;
     yytext := yytext self; yyleng := yyleng self |}.

Definition set_tokensQueue (v : list string) (self : Tokenizer) : Tokenizer :=
  {| _string := _string self; _states := _states self; _cursor := _cursor self;
     _tokensQueue := v; _currentLine := _currentLine self;
     _currentColumn := _currentColumn self;
     _currentLineBeginOffset := _currentLineBeginOffset self;
     _tokenStartOffset := _tokenStartOffset self; _tokenEndOffset := _tokenEndOffset self;
     _tokenStartLine := _tokenStartLine self; _tokenEndLine := _tokenEndLine self;
     _tokenStartColumn := _tokenStartColumn self; _tokenEndColumn := _tokenEndColumn self;
     yytext := yytext self; yyleng := yyleng self |}.

Definition set_yytext (v : string) (self : Tokenizer) : Tokenizer :=
  {| _string := _string self; _states := _states self; _cursor := _cursor self;
     _tokensQueue := _tokensQueue self; _currentLine := _currentLine self;
     _currentColumn := _currentColumn self;
     _currentLineBeginOffset := _currentLineBeginOffset self;
     _tokenStartOffset := _tokenStartOffset self; _tokenEndOffset := _tokenEndOffset self;
     _tokenStartLine := _tokenStartLine self; _tokenEndLine := _tokenEndLine self;
     _tokenStartColumn := _tokenStartColumn self; _tokenEndColumn := _tokenEndColumn self;
     yytext := v; yyleng := yyleng self |}.

Definition set_yyleng (v : Z) (self : Tokenizer) : Tokenizer :=
  {| _string := _string self; _states := _states self; _cursor := _cursor self;
     _tokensQueue := _tokensQueue self; _currentLine := _currentLine self;
     _currentColumn := _currentColumn self;
     _currentLineBeginOffset := _currentLineBeginOffset self;
     _tokenStartOffset := _tokenStartOffset self; _tokenEndOffset := _tokenEndOffset self;
     _tokenStartLine := _tokenStartLine self; _tokenEndLine := _tokenEndLine self;
     _tokenStartColumn := _tokenStartColumn self; _tokenEndColumn := _tokenEndColumn self;
     yytext := yytext self; yyleng := v |}.

(** [Tokenizer:initString]; the globals start as [yytext = ""], [yyleng = 0]. *)
Definition initString (tokenizingString : string) : Tokenizer :=
  {| _string := tokenizingString;
     _states := ["INITIAL"];
     _cursor := 0;
     _tokensQueue := [];
     _currentLine := 1;
     _currentColumn := 0;
     _currentLineBeginOffset := 0;
     _tokenStartOffset := 0;
     _tokenEndOffset := 0;
     _tokenStartLine := 1;
     _tokenEndLine := 1;
     _tokenStartColumn := 0;
     _tokenEndColumn := 0;
     yytext := EmptyString;
     yyleng := 0 |}.

(** [self._states[#self._states]] *)
Definition getCurrentState (self : Tokenizer) : option string :=
  Str.index (_states self) (Z.of_nat (List.length (_states self))).

(** [table.insert(self._states, state)] *)
Definition pushState (state : string) (self : Tokenizer) : Tokenizer :=
  set_states (_states self ++ [state]) self.

Definition begin (state : string) (self : Tokenizer) : Tokenizer :=
  pushState state self.

(** [popState] answers the removed top, or the bottom state when it is the
    only one left. *)
Definition popState (self : Tokenizer) : option string * Tokenizer :=
  if 1 <? Z.of_nat (List.length (_states self)) then
    (last (map Some (_states self)) None, set_states (removelast (_states self)) self)
  else
    (Str.index (_states self) 1, self).

(** The calls a lexical rule handler can make on the start condition stack. *)
Inductive StateOp :=
| PushState (state : string)
| Begin (state : string)
| PopState.

Definition runOp (self : Tokenizer) (op : StateOp) : Tokenizer :=
  match op with
  | PushState s => pushState s self
  | Begin s => begin s self
  | PopState => snd (popState self)
  end.

Definition runOps (ops : list StateOp) (self : Tokenizer) : Tokenizer :=
  fold_left runOp ops self.

(** [Tokenizer:isEOF] and [Tokenizer:hasMoreTokens] *)
Definition isEOF (self : Tokenizer) : bool :=
  _cursor self =? Str.len (_string self).

Definition hasMoreTokens (self : Tokenizer) : bool :=
  _cursor self <=? Str.len (_string self).

(** One round of the loop [for nl in matched:gmatch("\n")] per newline. *)
Fixpoint newlines (cursor : Z) (matched : string) (line lineBegin : Z) : Z * Z :=
  match matched with
  | EmptyString => (line, lineBegin)
  | String c r =>
      if Ascii.eqb c Str.nl then newlines cursor r (line + 1) (cursor + 1)
      else newlines cursor r line lineBegin
  end.

(** [Tokenizer:_captureLocation] *)
Definition _captureLocation (matched : string) (self : Tokenizer) : Tokenizer :=
  let tokenStartOffset := _cursor self in
  let tokenStartLine := _currentLine self in
  let tokenStartColumn := tokenStartOffset - _currentLineBeginOffset self in
  let (currentLine, currentLineBeginOffset) :=
    newlines (_cursor self) matched (_currentLine self) (_currentLineBeginOffset self) in
  let tokenEndOffset := _cursor self + Str.len matched in
  let tokenEndLine := currentLine in
  let currentColumn := tokenEndOffset - currentLineBeginOffset in
  {| _string := _string self; _states := _states self; _cursor := _cursor self;
     _tokensQueue := _tokensQueue self;
     _currentLine := currentLine;
     _currentColumn := currentColumn;
     _currentLineBeginOffset := currentLineBeginOffset;
     _tokenStartOffset := tokenStartOffset;
     _tokenEndOffset := tokenEndOffset;
     _tokenStartLine := tokenStartLine;
     _tokenEndLine := tokenEndLine;
     _tokenStartColumn := tokenStartColumn;
     _tokenEndColumn := currentColumn;
     yytext := yytext self; yyleng := yyleng self |}.

(** How a call can end: a value, the [error] of [throwUnexpectedToken], a Lua
    run time error (indexing or calling [nil]), or no answer within the fuel. *)
Inductive Outcome (A : Type) :=
| Ok (a : A)
| UnexpectedToken (message : string)
| RuntimeError
| OutOfFuel.

Arguments Ok {A} a.
Arguments UnexpectedToken {A} message.
Arguments RuntimeError {A}.
Arguments OutOfFuel {A}.

(** [Tokenizer:throwUnexpectedToken]: the text handed to [error]. *)
Definition throwUnexpectedToken (self : Tokenizer) (symbol : string) (line column : Z) : string :=
  let lines := Str.split_lines (_string self) in
  let lineSource := match Str.index lines line with Some l => l | None => EmptyString end in
  let pad := Str.rep " " column in
  let lineData :=
    Str.chr Str.nl +++ Str.chr Str.nl +++ lineSource +++ Str.chr Str.nl +++ pad +++ "^"
    +++ Str.chr Str.nl in
  lineData +++ "Unexpected token: " +++ Str.chr Str.dquote +++ symbol +++ Str.chr Str.dquote
  +++ " at " +++ Str.of_Z line +++ ":" +++ Str.of_Z column.

(** What the handler of a lexical rule answers. *)
Inductive HandlerResult :=
| RNil
| RType (tokenType : string)
| RTable (tokenTypes : list string).

(** A handler is code of the grammar author.  It reads [yytext] and the start
    conditions, may rewrite [yytext], may push and pop start conditions, and
    answers nothing, a token type or a table of token types. *)
Record HandlerOutcome := {
  h_result : HandlerResult;
  h_yytext : string;
  h_ops : list StateOp
}.

Definition Handler : Type := string -> list string -> HandlerOutcome.

Section Generated.

(** [string.find] *)
Variable find : string -> string -> option (Z * Z).
(** [{{{TOKENS}}}], [{{{LEX_RULES}}}], [{{{LEX_RULES_BY_START_CONDITIONS}}}]
    and [{{{LEX_RULE_HANDLERS}}}], as the emitter fills them in. *)
Variable tokensMap : string -> option string.
Variable lexRules : list (string * string).
Variable lexRulesByConditions : string -> option (list Z).
Variable handlers : string -> option Handler.

(** [Tokenizer:_toToken] *)
Definition _toToken (self : Tokenizer) (tokenType : option string) (text : option string) : Token :=
  let text := match text with Some t => t | None => EmptyString end in
  Token_ {| type := match tokenType with Some t => tokensMap t | None => None end;
            value := text;
            startOffset := _tokenStartOffset self;
            endOffset := _tokenEndOffset self;
            startLine := _tokenStartLine self;
            endLine := _tokenEndLine self;
            startColumn := _tokenStartColumn self;
            endColumn := _tokenEndColumn self |}.

(** [Tokenizer:_match] *)
Definition _match (self : Tokenizer) (stringRest pattern : string) : option string * Tokenizer :=
  match find stringRest pattern with
  | Some (s, e) =>
      let matched := Str.sub stringRest s e in
      let self := _captureLocation matched self in
      (Some matched, set_cursor (_cursor self + Str.len matched) self)
  | None => (None, self)
  end.

(** [table.insert(self._tokensQueue, 1, tokensToQueue[j])] for [j] from the
    last index down to 1. *)
Definition queueInFront (tokensToQueue : list string) (queue : list string) : list string :=
  fold_left (fun q t => t :: q) (rev tokensToQueue) queue.

(** The body of [if matched then ... end]: run the handler of the rule and
    answer its token; [recur] stands for [self:getNextToken()]. *)
Definition runHandler (recur : Tokenizer -> Outcome (Token * Tokenizer))
    (handlerName : string) (matched : string) (self : Tokenizer) : Outcome (Token * Tokenizer) :=
  let self := set_yyleng (Str.len matched) (set_yytext matched self) in
  match handlers handlerName with
  | None => RuntimeError
  | Some h =>
      let o := h (yytext self) (_states self) in
      let self := runOps (h_ops o) (set_yytext (h_yytext o) self) in
      match h_result o with
      | RNil => recur self
      | RTable tokenTypes =>
          let tokensToQueue := tl tokenTypes in
          let tokenType := hd_error tokenTypes in
          let self := set_tokensQueue (queueInFront tokensToQueue (_tokensQueue self)) self in
          Ok (_toToken self tokenType (Some (yytext self)), self)
      | RType tokenType =>
          Ok (_toToken self (Some tokenType) (Some (yytext self)), self)
      end
  end.

(** The loop [for i = 1, #lexRulesForState]: [inl] is a [return] from inside
    the loop, [inr] the state after the last round. *)
Fixpoint scanRules (recur : Tokenizer -> Outcome (Token * Tokenizer)) (stringRest : string)
    (lexRulesForState : list Z) (self : Tokenizer)
    : Outcome (Token * Tokenizer) + Tokenizer :=
  match lexRulesForState with
  | [] => inr self
  | lexRuleIndex :: more =>
      match Str.index lexRules (lexRuleIndex + 1) with
      | None => inl RuntimeError
      | Some (pattern, handlerName) =>
          let (matched, self) := _match self stringRest pattern in
          let self :=
            match matched with
            | Some EmptyString =>
                match stringRest with
                | EmptyString => set_cursor (_cursor self + 1) self
                | _ => self
                end
            | _ => self
            end in
          match matched with
          | Some m => inl (runHandler recur handlerName m self)
          | None => scanRules recur stringRest more self
          end
      end
  end.

(** [Tokenizer:getNextToken]; the fuel bounds the calls to itself. *)
Fixpoint getNextToken (fuel : nat) (self : Tokenizer) : Outcome (Token * Tokenizer) :=
  match fuel with
  | O => OutOfFuel
  | S fuel' =>
      match _tokensQueue self with
      | queued :: rest =>
          let self := set_tokensQueue rest self in
          Ok (_toToken self (Some queued) None, self)
      | [] =>
          if negb (hasMoreTokens self) then Ok (EOF_TOKEN, self)
          else
            let stringRest := Str.sub_from (_string self) (_cursor self + 1) in
            match getCurrentState self with
            | None => RuntimeError
            | Some state =>
                match lexRulesByConditions state with
                | None => RuntimeError
                | Some lexRulesForState =>
                    match scanRules (getNextToken fuel') stringRest lexRulesForState self with
                    | inl result => result
                    | inr self =>
                        if isEOF self then Ok (EOF_TOKEN, set_cursor (_cursor self + 1) self)
                        else
                          UnexpectedToken
                            (throwUnexpectedToken self (Str.sub stringRest 1 1)
                               (_currentLine self) (_currentColumn self))
                    end
                end
            end
      end
  end.

End Generated.

(** *** Vocabulary of the properties *)

(** Number of newline characters of a text. *)
Fixpoint countNewlines (s : string) : Z :=
  match s with
  | EmptyString => 0
  | String c r => (if Ascii.eqb c Str.nl then 1 else 0) + countNewlines r
  end.

(** Column reached after the text [p] when it starts in column [col]. *)
Fixpoint columnAfter (col : Z) (p : string) : Z :=
  match p with
  | EmptyString => col
  | String c r => columnAfter (if Ascii.eqb c Str.nl then 0 else col + 1) r
  end.

(** Line (from 1) and column (from 0) of the position at [offset] in [s], and
    the offset at which the line of that position begins. *)
Definition lineOf (s : string) (offset : Z) : Z :=
  1 + countNewlines (Str.take (Z.to_nat offset) s).

Definition columnOf (s : string) (offset : Z) : Z :=
  columnAfter 0 (Str.take (Z.to_nat offset) s).

Definition lineBeginOffset (s : string) (offset : Z) : Z :=
  offset - columnOf s offset.

(** No newline after the first character. *)
Definition newlineOnlyFirst (lexeme : string) : bool :=
  match lexeme with
  | EmptyString => true
  | String _ r => countNewlines r =? 0
  end.

(** The counters of the tokenizer agree with the text: the line and the line
    begin offset are those of the cursor (of the end of the input once the
    cursor is past it), and the recorded token bounds carry their own lines
    and columns. *)
Definition accurate (self : Tokenizer) : Prop :=
  let s := _string self in
  let c := Z.min (_cursor self) (Str.len s) in
  0 <= _cursor self /\
  _currentLine self = lineOf s c /\
  _currentLineBeginOffset self = lineBeginOffset s c /\
  _currentColumn self = columnOf s c /\
  0 <= _tokenStartOffset self <= _tokenEndOffset self /\
  _tokenEndOffset self <= Str.len s /\
  _tokenStartLine self = lineOf s (_tokenStartOffset self) /\
  _tokenEndLine self = lineOf s (_tokenEndOffset self) /\
  _tokenStartColumn self = _tokenStartOffset self - lineBeginOffset s (_tokenStartOffset self) /\
  _tokenEndColumn self = _tokenEndOffset self - lineBeginOffset s (_tokenEndOffset self).

(** Line and column of a token agree with its offsets in the text [s]. *)
Definition located (s : string) (t : TokenParams) : Prop :=
  startLine t = lineOf s (startOffset t) /\
  endLine t = lineOf s (endOffset t) /\
  startColumn t = startOffset t - lineBeginOffset s (startOffset t) /\
  endColumn t = endOffset t - lineBeginOffset s (endOffset t).


(** The shape of a completed token list: the end of input token once, last. *)
Definition endsWithEOF (toks : list Token) : Prop :=
  exists body, toks = body ++ [EOF_TOKEN] /\ ~ In EOF_TOKEN body.

(** What a state knows of the text: everything but the start conditions, the
    queue and the globals. *)
Definition textState (self : Tokenizer) :=
  (_string self, _cursor self,
   (_currentLine self, _currentColumn self, _currentLineBeginOffset self),
   (_tokenStartOffset self, _tokenEndOffset self),
   (_tokenStartLine self, _tokenEndLine self),
   (_tokenStartColumn self, _tokenEndColumn self)).

Section Properties.

Variable find : string -> string -> option (Z * Z).
Variable tokensMap : string -> option string.
Variable lexRules : list (string * string).
Variable lexRulesByConditions : string -> option (list Z).
Variable handlers : string -> option Handler.

(** The input left at the cursor, [self._string:sub(self._cursor + 1)]. *)
Definition stringRestOf (self : Tokenizer) : string :=
  Str.sub_from (_string self) (_cursor self + 1).

(** The state [_match] leaves when the pattern matched [matched], with the
    step over the end of the input that [getNextToken] adds for an empty match
    of the empty rest. *)
Definition matchedState (matched : string) (self : Tokenizer) : Tokenizer :=
  let rest := stringRestOf self in
  let self := _captureLocation matched self in
  let self := set_cursor (_cursor self + Str.len matched) self in
  match matched, rest with
  | EmptyString, EmptyString => set_cursor (_cursor self + 1) self
  | _, _ => self
  end.

(** A call of [getNextToken] at [self] scans new input, and rule [i] of the
    current start condition is the first one in the listed order whose
    pattern [find]s a match, with bounds [s] and [e]. *)
Definition selects (self : Tokenizer) (i : Z) (pattern handlerName : string) (s e : Z) : Prop :=
  _tokensQueue self = [] /\
  hasMoreTokens self = true /\
  exists state before after,
    getCurrentState self = Some state /\
    lexRulesByConditions state = Some (before ++ i :: after) /\
    (forall j, In j before ->
       exists p h, Str.index lexRules (j + 1) = Some (p, h) /\ find (stringRestOf self) p = None) /\
    Str.index lexRules (i + 1) = Some (pattern, handlerName) /\
    find (stringRestOf self) pattern = Some (s, e).

(** A call of [getNextToken] at [self] scans new input and no rule of the
    current start condition matches. *)
Definition unmatched (self : Tokenizer) : Prop :=
  _tokensQueue self = [] /\
  hasMoreTokens self = true /\
  exists state lexRulesForState,
    getCurrentState self = Some state /\
    lexRulesByConditions state = Some lexRulesForState /\
    forall j, In j lexRulesForState ->
      exists p h, Str.index lexRules (j + 1) = Some (p, h) /\ find (stringRestOf self) p = None.

(** [n] calls of [getNextToken] in a row. *)
Fixpoint nextTokens (fuel : nat) (n : nat) (self : Tokenizer) : Outcome (list Token * Tokenizer) :=
  match n with
  | O => Ok ([], self)
  | S n' =>
      match getNextToken find tokensMap lexRules lexRulesByConditions handlers fuel self with
      | Ok (t, self) =>
          match nextTokens fuel n' self with
          | Ok (ts, self) => Ok (t :: ts, self)
          | UnexpectedToken m => UnexpectedToken m
          | RuntimeError => RuntimeError
          | OutOfFuel => OutOfFuel
          end
      | UnexpectedToken m => UnexpectedToken m
      | RuntimeError => RuntimeError
      | OutOfFuel => OutOfFuel
      end
  end.

(** Tokenizing to completion: the consumer loop
    [while tokenizer:hasMoreTokens() do ... tokenizer:getNextToken() ... end];
    [rounds] bounds the rounds of the loop and [fuel] each call. *)
Fixpoint getTokens (fuel : nat) (rounds : nat) (self : Tokenizer) : Outcome (list Token) :=
  match rounds with
  | O => OutOfFuel
  | S rounds' =>
      if hasMoreTokens self then
        match getNextToken find tokensMap lexRules lexRulesByConditions handlers fuel self with
        | Ok (t, self) =>
            match getTokens fuel rounds' self with
            | Ok ts => Ok (t :: ts)
            | UnexpectedToken m => UnexpectedToken m
            | RuntimeError => RuntimeError
            | OutOfFuel => OutOfFuel
            end
        | UnexpectedToken m => UnexpectedToken m
        | RuntimeError => RuntimeError
        | OutOfFuel => OutOfFuel
        end
      else Ok []
  end.

(** All the matches the rules can find in [s], at any cursor position. *)
Definition forallMatches (s : string) (ok : Z -> Z -> string -> bool) : bool :=
  forallb
    (fun c =>
       let rest := Str.sub_from s (Z.of_nat c + 1) in
       forallb
         (fun rule : string * string =>
            match find rest (fst rule) with
            | Some (st, e) => ok st e (Str.sub rest st e)
            | None => true
            end)
         lexRules)
    (seq 0 (S (String.length s))).

(** Every match in [s] starts at the cursor and has no newline after its first
    character. *)
Definition tidy (s : string) : bool :=
  forallMatches s (fun st _ lexeme => ((st =? 1) && newlineOnlyFirst lexeme)%bool).

(** Every match in [s] is a lexeme of at least one character. *)
Definition progressive (s : string) : bool :=
  forallMatches s (fun _ _ lexeme => negb (String.eqb lexeme EmptyString)).

End Properties.

End Tokenizer.

(** ** The Lua emitter ([lua-parser-generator-trait.js]) *)

Module Emitter.

(** The JavaScript values [_toLuaMap] is given. *)
#[warnings="-register-all"]
Inductive JSValue :=
| JNull
| JUndefined
| JNumber (n : Z)
| JBoolean (b : bool)
| JString (s : string)
| JArray (items : list JSValue)
| JObject (entries : list (string * JSValue)).

(** [value.replace(/"/g, '\\"')] *)
Fixpoint escapeQuotes (s : string) : string :=
  match s with
  | EmptyString => EmptyString
  | String c r =>
      if Ascii.eqb c Str.dquote then String Str.backslash (String Str.dquote (escapeQuotes r))
      else String c (escapeQuotes r)
  end.

Definition isIdentStart (c : ascii) : bool :=
  (LuaPattern.isalpha c || Ascii.eqb c "_")%bool.

Definition isIdentPart (c : ascii) : bool :=
  (LuaPattern.isalnum c || Ascii.eqb c "_")%bool.

Fixpoint allChars (p : ascii -> bool) (s : string) : bool :=
  match s with
  | EmptyString => true
  | String c r => (p c && allChars p r)%bool
  end.

(** [/^[a-zA-Z_][a-zA-Z0-9_]*$/.test(k)] *)
Definition isIdentifier (k : string) : bool :=
  match k with
  | EmptyString => false
  | String c r => (isIdentStart c && allChars isIdentPart r)%bool
  end.

Definition luaKey (k : string) : string :=
  if isIdentifier k then k
  else "[" +++ Str.chr Str.dquote +++ k +++ Str.chr Str.dquote +++ "]".

(** [_toLuaMap], that is its inner function [_toLuaMapInner]. *)
Fixpoint _toLuaMap (value : JSValue) : string :=
  match value with
  | JNull => "nil"
  | JNumber n => Str.of_Z n
  | JBoolean b => if b then "true" else "false"
  | JString s => Str.chr Str.dquote +++ escapeQuotes s +++ Str.chr Str.dquote
  | JArray items => "{" +++ Str.join ", " (map _toLuaMap items) +++ "}"
  | JObject entries =>
      "{" +++
      Str.join ", "
        (map (fun kv : string * JSValue => luaKey (fst kv) +++ " = " +++ _toLuaMap (snd kv))
           entries)
      +++ "}"
  | JUndefined => "nil"
  end.

(** A lexical rule as the emitter reads it: [getRawMatcher()],
    [getRawHandler()], [isCaseInsensitive()]. *)
Record LexRule := {
  getRawMatcher : string;
  getRawHandler : string;
  isCaseInsensitive : bool
}.

(** An entry of [_lexHandlers] and [_productionHandlers]. *)
Record HandlerDecl := {
  args : string;
  action : string
}.

(** The generator object: the two handler lists, the class name, and the
    data handed to [writeData] so far, in the order of the calls. *)
Record Generator := {
  _lexHandlers : list HandlerDecl;
  _productionHandlers : list HandlerDecl;
  _parserClassName : string;
  written : list (string * string)
}.

(** [writeData] is a method of the base generator; here it records the
    placeholder and its data. *)
Definition writeData (name data : string) (g : Generator) : Generator :=
  {| _lexHandlers := _lexHandlers g;
     _productionHandlers := _productionHandlers g;
     _parserClassName := _parserClassName g;
     written := written g ++ [(name, data)] |}.

Definition set_lexHandlers (v : list HandlerDecl) (g : Generator) : Generator :=
  {| _lexHandlers := v;
     _productionHandlers := _productionHandlers g;
     _parserClassName := _parserClassName g;
     written := written g |}.

Definition set_productionHandlers (v : list HandlerDecl) (g : Generator) : Generator :=
  {| _lexHandlers := _lexHandlers g;
     _productionHandlers := v;
     _parserClassName := _parserClassName g;
     written := written g |}.

(** The constructor of [LRParserGeneratorLua]: empty handler lists; the class
    name is the base name of the output file. *)
Definition construct (parserClassName : string) : Generator :=
  {| _lexHandlers := [];
     _productionHandlers := [];
     _parserClassName := parserClassName;
     written := [] |}.

(** [Array.prototype.map] with the index. *)
Fixpoint mapi_from {A B} (i : nat) (f : A -> nat -> B) (l : list A) : list B :=
  match l with
  | [] => []
  | x :: r => f x i :: mapi_from (S i) f r
  end.

Definition mapi {A B} (f : A -> nat -> B) (l : list A) : list B := mapi_from O f l.

(** [_generateHandlers] *)
Definition handlerDeclaration (class_prefix name : string) (h : HandlerDecl) (index : nat)
    : string :=
  Str.chr Str.nl +++ "function " +++ class_prefix +++ name +++ Str.of_nat (index + 1)
  +++ "(" +++ args h +++ ")" +++ Str.chr Str.nl +++ Str.chr Str.tab +++ Str.chr Str.tab
  +++ action h +++ Str.chr Str.nl +++ "end".

Definition _generateHandlers (handlers : list HandlerDecl) (class_prefix name : string)
    : list string :=
  mapi (handlerDeclaration class_prefix name) handlers.

(** The declaration of handler number [n] with the action [body;]: the body
    stands between the head of the function and the closing [;], as it is. *)
Definition declarationText (class_prefix name : string) (n : nat) (args body : string)
    : string :=
  Str.chr Str.nl +++ "function " +++ class_prefix +++ name +++ Str.of_nat n
  +++ "(" +++ args +++ ")" +++ Str.chr Str.nl +++ Str.chr Str.tab +++ Str.chr Str.tab
  +++ body +++ ";" +++ Str.chr Str.nl +++ "end".

(** [generateLexHandlers] and [generateProductionHandlers] *)
Definition generateLexHandlers (g : Generator) : Generator :=
  let handlers := _generateHandlers (_lexHandlers g) "Tokenizer:" "_lexRule" in
  writeData "LEX_RULE_HANDLERS" (Str.join (Str.chr Str.nl +++ Str.chr Str.nl) handlers) g.

Definition generateProductionHandlers (g : Generator) : Generator :=
  let handlers := _generateHandlers (_productionHandlers g) "parser:" "_handler" in
  writeData "PRODUCTION_HANDLERS" (Str.join (Str.chr Str.nl) handlers) g.

Definition generateParserClassName (className : string) (g : Generator) : Generator :=
  writeData "PARSER_CLASS_NAME" className g.

(** The entry of [LEX_RULES] for a rule whose handler is number [n]. *)
Definition lexRuleText (lexRule : LexRule) (n : nat) : string :=
  "{[[" +++ getRawMatcher lexRule
  +++ Str.join EmptyString (if isCaseInsensitive lexRule then ["i"] else []) +++ "]], "
  +++ Str.chr Str.dquote +++ "_lexRule" +++ Str.of_nat n +++ Str.chr Str.dquote +++ "}".

(** One round of the [map] in [generateLexRules]: the handler is pushed and
    the entry names it by its position in [_lexHandlers]. *)
Definition lexRuleEntry (g : Generator) (lexRule : LexRule) : string * Generator :=
  let action := getRawHandler lexRule +++ ";" in
  let g := set_lexHandlers (_lexHandlers g ++ [{| args := EmptyString; action := action |}]) g in
  let flags := if isCaseInsensitive lexRule then ["i"] else [] in
  ("{[[" +++ getRawMatcher lexRule +++ Str.join EmptyString flags +++ "]], "
   +++ Str.chr Str.dquote +++ "_lexRule" +++ Str.of_nat (List.length (_lexHandlers g))
   +++ Str.chr Str.dquote +++ "}",
   g).

Fixpoint lexRuleEntries (g : Generator) (rules : list LexRule) : list string * Generator :=
  match rules with
  | [] => ([], g)
  | lexRule :: more =>
      let (entry, g) := lexRuleEntry g lexRule in
      let (entries, g) := lexRuleEntries g more in
      (entry :: entries, g)
  end.

(** [generateLexRules] *)
Definition generateLexRules (rules : list LexRule) (g : Generator) : Generator :=
  let (lexRules, g) := lexRuleEntries g rules in
  writeData "LEX_RULES"
    ("{ " +++ Str.join ("," +++ Str.chr Str.nl) lexRules +++ " }") g.

Section Trait.

(** Productions, and the two methods of the base generator that
    [buildSemanticAction] calls: the code of the semantic action and the names
    of its parameters. *)
Variable Production : Type.
Variable getSemanticActionCode : Production -> option string.
Variable getSemanticActionParams : Production -> list string.

(** [lexGrammar.getRuleIndex] *)
Variable getRuleIndex : LexRule -> Z.

(** [buildSemanticAction]: [null] for a production without action code. *)
Definition buildSemanticAction (production : Production) (g : Generator)
    : option string * Generator :=
  match getSemanticActionCode production with
  | None => (None, g)
  | Some EmptyString => (None, g)
  | Some action =>
      let action := action +++ ";" in
      let args := Str.join "," (getSemanticActionParams production) in
      let g :=
        set_productionHandlers
          (_productionHandlers g ++ [{| args := args; action := action |}]) g in
      (Some ("_handler" +++ Str.of_nat (List.length (_productionHandlers g))), g)
  end.

(** An item of a raw production row; [join] renders [null] as the empty
    string and a template literal renders it as [null]. *)
Inductive RawItem :=
| RawNumber (n : Z)
| RawString (s : string)
| RawNull.

Definition joinItem (item : RawItem) : string :=
  match item with
  | RawNumber n => Str.of_Z n
  | RawString s => s
  | RawNull => EmptyString
  end.

Definition templateItem (item : RawItem) : string :=
  match item with
  | RawNumber n => Str.of_Z n
  | RawString s => s
  | RawNull => "null"
  end.

(** What the emitter reads from the grammar and from the tables built for it. *)
Record Grammar := {
  getRules : list LexRule;
  getRulesByStartConditions : list (string * list LexRule);
  generateParseTableData : JSValue;
  _tokens : JSValue;
  getProductions : list Production;
  getModuleInclude : option string
}.

(** [generateRawProductionsData] is a method of the base generator: it reads
    the grammar and calls [buildSemanticAction], so that it can add to
    [_productionHandlers]. *)
Variable generateRawProductionsData :
  Grammar -> list HandlerDecl -> list (list RawItem) * list HandlerDecl.

(** The text of [templates/tokenizer.template.lua]. *)
Variable LUA_TOKENIZER_TEMPLATE : string.

Definition generateParseTable (grammar : Grammar) (g : Generator) : Generator :=
  writeData "TABLE" (_toLuaMap (generateParseTableData grammar)) g.

Definition generateTokensTable (grammar : Grammar) (g : Generator) : Generator :=
  writeData "TOKENS" (_toLuaMap (_tokens grammar)) g.

Definition generateBuiltInTokenizer (g : Generator) : Generator :=
  writeData "TOKENIZER" LUA_TOKENIZER_TEMPLATE g.

(** [generateProductionsData]: the items from the third on are quoted. *)
Definition productionRow (data : list RawItem) : string :=
  "{ " +++
  Str.join ","
    (mapi (fun item index =>
             if Nat.leb 2 index
             then Str.chr Str.dquote +++ templateItem item +++ Str.chr Str.dquote
             else joinItem item)
       data)
  +++ " }".

Definition generateProductions (grammar : Grammar) (g : Generator) : Generator :=
  let (rows, handlers) := generateRawProductionsData grammar (_productionHandlers g) in
  let g := set_productionHandlers handlers g in
  writeData "PRODUCTIONS"
    ("{ " +++ Str.join ("," +++ Str.chr Str.nl) (map productionRow rows) +++ " }") g.

(** [generateLexRulesByStartConditions]: the object [result] gets the
    conditions in the order [for ... in] visits them. *)
Definition rulesByStartConditionsObject (grammar : Grammar) : JSValue :=
  JObject
    (map (fun cr : string * list LexRule =>
            (fst cr, JArray (map (fun lexRule => JNumber (getRuleIndex lexRule)) (snd cr))))
       (getRulesByStartConditions grammar)).

Definition generateLexRulesByStartConditions (grammar : Grammar) (g : Generator) : Generator :=
  writeData "LEX_RULES_BY_START_CONDITIONS"
    (_toLuaMap (rulesByStartConditionsObject grammar)) g.

Definition defaultModuleInclude : string :=
  Str.chr Str.nl +++ "        let foo = 'Example module include';" +++ Str.chr Str.nl
  +++ "      ".

Definition generateModuleInclude (grammar : Grammar) (g : Generator) : Generator :=
  let moduleInclude :=
    match getModuleInclude grammar with
    | None => defaultModuleInclude
    | Some EmptyString => defaultModuleInclude
    | Some text => text
    end in
  writeData "MODULE_INCLUDE" moduleInclude g.

(** The methods of the trait that the base generator calls. *)
Inductive Step :=
| GenerateParseTable
| GenerateTokensTable
| GenerateBuiltInTokenizer
| GenerateLexRules
| GenerateLexRulesByStartConditions
| GenerateProductions
| GenerateModuleInclude.

Definition runStep (grammar : Grammar) (g : Generator) (step : Step) : Generator :=
  match step with
  | GenerateParseTable => generateParseTable grammar g
  | GenerateTokensTable => generateTokensTable grammar g
  | GenerateBuiltInTokenizer => generateBuiltInTokenizer g
  | GenerateLexRules => generateLexRules (getRules grammar) g
  | GenerateLexRulesByStartConditions => generateLexRulesByStartConditions grammar g
  | GenerateProductions => generateProductions grammar g
  | GenerateModuleInclude => generateModuleInclude grammar g
  end.

(** [super.generateParserData()] is not under src: it calls methods of the
    trait in an order of its own, [superSteps]. *)
Variable superSteps : list Step.

(** [LRParserGeneratorLua.generateParserData] *)
Definition generateParserData (grammar : Grammar) (g : Generator) : Generator :=
  let g := fold_left (runStep grammar) superSteps g in
  let g := generateLexHandlers g in
  let g := generateProductionHandlers g in
  generateParserClassName (_parserClassName g) g.

(** The generator without the data written so far, and with data written
    before its own. *)
Definition unwritten (g : Generator) : Generator :=
  {| _lexHandlers := _lexHandlers g;
     _productionHandlers := _productionHandlers g;
     _parserClassName := _parserClassName g;
     written := [] |}.

Definition after (w : list (string * string)) (g : Generator) : Generator :=
  {| _lexHandlers := _lexHandlers g;
     _productionHandlers := _productionHandlers g;
     _parserClassName := _parserClassName g;
     written := w ++ written g |}.

(** The text written for the start conditions: the conditions in their order,
    each with the indices of its rules in their order. *)
Definition startConditionsText (grammar : Grammar) : string :=
  "{" +++
  Str.join ", "
    (map (fun cr : string * list LexRule =>
            luaKey (fst cr) +++ " = " +++ "{" +++
            Str.join ", " (map (fun lexRule => Str.of_Z (getRuleIndex lexRule)) (snd cr))
            +++ "}")
       (getRulesByStartConditions grammar))
  +++ "}".

(** What a run of the emitter adds to the written data. *)
Definition emitted (grammar : Grammar) (g : Generator) : list (string * string) :=
  skipn (List.length (written g)) (written (generateParserData grammar g)).

End Trait.

End Emitter.

(** ** The command line driver ([bin/syntax.js]) *)

Module Cli.

(** How a JavaScript function ends: it returns, or an exception leaves it
    ([throw new Error(message)], or a [TypeError] of the engine). *)
Inductive Completion (A : Type) :=
| Returned (a : A)
| Thrown (message : string)
| TypeError.

Arguments Returned {A} a.
Arguments Thrown {A} message.
Arguments TypeError {A}.

(** *** Lexical grammar data *)

(** A rule of lexical grammar data: [[matcher, handler]], or
    [[startConditions, matcher, handler]]. *)
Record RuleData := {
  startConditions : option (list string);
  matcher : string;
  handler : string
}.

(** Lexical grammar data is an object; [rules] and [options] may be absent,
    the other properties are kept as they are. *)
Record LexGrammarData := {
  rules : option (list RuleData);
  options : option (list (string * bool));
  others : list (string * string)
}.

(** The options of the command line that matter here: [--lex],
    [--ignore-whitespaces], [--case-insensitive]. *)
Record Options := {
  lex : option string;
  ignore_whitespaces : bool;
  case_insensitive : bool
}.

(** [object[key] = value] on the properties of an object. *)
Fixpoint setProperty {V} (key : string) (v : V) (o : list (string * V)) : list (string * V) :=
  match o with
  | [] => [(key, v)]
  | (k, x) :: r => if String.eqb k key then (k, v) :: r else (k, x) :: setProperty key v r
  end.

(** [['\\s+', '']]: white space, with an empty handler. *)
Definition skipWhitespaceRule : RuleData :=
  {| startConditions := None; matcher := "\s+"; handler := EmptyString |}.

Section LexGrammar.

(** [Grammar.dataFromGrammarFile(path, {grammarType: 'lex'})] reads a file. *)
Variable dataFromGrammarFile : string -> LexGrammarData.

(** [getLexGrammarData] *)
Definition getLexGrammarData (opts : Options) : option LexGrammarData :=
  let data : option LexGrammarData :=
    match lex opts with
    | Some (String c r) => Some (dataFromGrammarFile (String c r))
    | _ => None
    end in
  let data :=
    match data with
    | None =>
        if ignore_whitespaces opts
        then Some {| rules := Some [skipWhitespaceRule]; options := None; others := [] |}
        else None
    | Some d => Some d
    end in
  if case_insensitive opts then
    let d :=
      match data with
      | None => {| rules := None; options := None; others := [] |}
      | Some d => d
      end in
    let o := match options d with None => [] | Some o => o end in
    Some {| rules := rules d;
            options := Some (setProperty "case-insensitive" true o);
            others := others d |}
  else data.

(** The part of [getGrammar] between reading the grammar file and
    [Grammar.fromData]: the [lex] property of the grammar data after the
    external lexical grammar is merged into it. *)
Definition mergeLex (grammarLex : option LexGrammarData) (opts : Options)
    : Completion (option LexGrammarData) :=
  let lexGrammarData := getLexGrammarData opts in
  match grammarLex with
  | None => Returned lexGrammarData
  | Some own =>
      match lexGrammarData with
      | None => Returned (Some own)
      | Some external =>
          match rules own, rules external with
          | Some ownRules, Some externalRules =>
              Returned (Some {| rules := Some (ownRules ++ externalRules);
                                options := options own;
                                others := others own |})
          | _, _ => TypeError
          end
      end
  end.

End LexGrammar.

(** *** Validation of an LR grammar *)

(** [LRParsingTable.EntryType], as far as [validateLRGrammar] tells the
    entries apart. *)
Inductive EntryType :=
| SR_CONFLICT
| RR_CONFLICT
| OTHER_ENTRY.

(** An entry of [table.getConflictsData()[state][symbol]]; [resolved] may be
    absent. *)
Record SymbolConflict := {
  resolved : option bool;
  conflict : string
}.

(** [string.slice(1)] *)
Definition slice1 (s : string) : string :=
  match s with
  | EmptyString => EmptyString
  | String _ r => r
  end.

(** [string.split('/')] *)
Fixpoint splitSlash_aux (cur : string) (s : string) : list string :=
  match s with
  | EmptyString => [cur]
  | String c r =>
      if Ascii.eqb c "/" then cur :: splitSlash_aux EmptyString r
      else splitSlash_aux (cur +++ Str.chr c) r
  end.

Definition splitSlash (s : string) : list string := splitSlash_aux EmptyString s.

Section Validate.

(** Productions are objects of the grammar; a [Map] tells its keys apart by
    identity. *)
Variable Production : Type.
Variable Production_eq_dec : forall a b : Production, {a = b} + {a <> b}.
(** [production.toFullString()] and [grammar.getProduction(number)] *)
Variable toFullString : Production -> string.
Variable getProduction : string -> Production.
(** [LRParsingTable.getEntryType] and [table.splitSRParts] *)
Variable getEntryType : string -> EntryType.
Variable splitSRParts : string -> list string.
(** [colors.bold], [colors.red], [colors.green] *)
Variable bold : string -> string.
Variable red : string -> string.
Variable green : string -> string.
(** [options.mode] and [GRAMMAR_MODE.LALR1] *)
Variable mode : string.
Variable LALR1 : string.

(** [Map.prototype.get] and [Map.prototype.set] on a map kept in insertion
    order. *)
Fixpoint mapGet {K V} (eq_dec : forall a b : K, {a = b} + {a <> b}) (k : K)
    (m : list (K * V)) : option V :=
  match m with
  | [] => None
  | (k', v) :: r => if eq_dec k' k then Some v else mapGet eq_dec k r
  end.

Fixpoint mapSet {K V} (eq_dec : forall a b : K, {a = b} + {a <> b}) (k : K) (v : V)
    (m : list (K * V)) : list (K * V) :=
  match m with
  | [] => [(k, v)]
  | (k', v') :: r =>
      if eq_dec k' k then (k', v) :: r else (k', v') :: mapSet eq_dec k v r
  end.

(** The two maps filled by the first loop. *)
Record Conflicts := {
  hasConflicts : bool;
  srConflicts : list (Production * list string);
  rrConflicts : list (string * (Production * Production))
}.

(** The body of the inner loop, for the conflict of one symbol. *)
Definition recordConflict (acc : Conflicts) (entry : string * SymbolConflict)
    : Completion Conflicts :=
  let (symbol, symbolConflict) := entry in
  match resolved symbolConflict with
  | Some false =>
      let conflict := conflict symbolConflict in
      match getEntryType conflict with
      | SR_CONFLICT =>
          match splitSRParts conflict with
          | [] => TypeError
          | reducePart :: _ =>
              let production := getProduction (slice1 reducePart) in
              let data :=
                match mapGet Production_eq_dec production (srConflicts acc) with
                | Some d => d
                | None => []
                end in
              let data := data ++ [symbol] in
              Returned {| hasConflicts := true;
                          srConflicts := mapSet Production_eq_dec production data (srConflicts acc);
                          rrConflicts := rrConflicts acc |}
          end
      | RR_CONFLICT =>
          match splitSlash conflict with
          | reduce1 :: reduce2 :: _ =>
              Returned {| hasConflicts := true;
                          srConflicts := srConflicts acc;
                          rrConflicts :=
                            mapSet string_dec conflict
                              (getProduction (slice1 reduce1), getProduction (slice1 reduce2))
                              (rrConflicts acc) |}
          | _ => TypeError
          end
      | OTHER_ENTRY => Thrown ("Unknown conflict type: " +++ conflict)
      end
  | _ => Returned acc
  end.

(** A loop whose body may throw. *)
Fixpoint forEach {A S} (body : S -> A -> Completion S) (acc : S) (l : list A) : Completion S :=
  match l with
  | [] => Returned acc
  | x :: r =>
      match body acc x with
      | Returned acc => forEach body acc r
      | Thrown m => Thrown m
      | TypeError => TypeError
      end
  end.

(** The loops over the states and, within a state, over the symbols. *)
Definition collectConflicts (conflictsData : list (string * list (string * SymbolConflict)))
    : Completion Conflicts :=
  forEach
    (fun acc (stateEntry : string * list (string * SymbolConflict)) =>
       forEach recordConflict acc (snd stateEntry))
    {| hasConflicts := false; srConflicts := []; rrConflicts := [] |}
    conflictsData.

Definition pad (i : nat) : string := if Nat.leb 10 i then EmptyString else " ".

(** The line printed for a production and the symbols it conflicts with. *)
Definition srLine (i : nat) (production : Production) (data : list string) : string :=
  "  " +++ pad i +++ Str.of_nat i +++ ". " +++ "Production: "
  +++ bold (toFullString production) +++ ", " +++ "conflicts with symbols "
  +++ Str.join ", " (map bold data) +++ ".".

(** The line printed for a pair of productions. *)
Definition rrLine (i : nat) (production1 production2 : Production) : string :=
  "  " +++ pad i +++ Str.of_nat i +++ ". " +++ "Production: "
  +++ bold (toFullString production1) +++ ", " +++ "conflicts with production "
  +++ bold (toFullString production2) +++ ".".

(** The lines of a [for ... of] loop that numbers its rounds from [i]. *)
Fixpoint numbered {A} (line : nat -> A -> string) (i : nat) (l : list A) : list string :=
  match l with
  | [] => []
  | x :: r => line i x :: numbered line (S i) r
  end.

Definition hint : string :=
  bold "Possible solutions:" +++ Str.chr Str.nl +++ Str.chr Str.nl
  +++ "  1. Conflicts possibly can be resolved by using "
  +++ bold (Str.chr Str.dquote +++ "operators" +++ Str.chr Str.dquote)
  +++ " section," +++ Str.chr Str.nl +++ "     where you can specify "
  +++ bold "precedence" +++ " and " +++ bold "associativity" +++ "."
  +++ Str.chr Str.nl +++ Str.chr Str.nl
  +++ "  2. By using different parsing mode"
  +++ (if String.eqb mode LALR1 then EmptyString
       else ", e.g. " +++ bold "LALR1" +++ " instead of " +++ bold mode)
  +++ "." +++ Str.chr Str.nl +++ Str.chr Str.nl
  +++ "  3. Restructuring grammar." +++ Str.chr Str.nl +++ Str.chr Str.nl
  +++ "See docs and details in: " +++ bold "http://bit.ly/2l0zslL" +++ "."
  +++ Str.chr Str.nl.

(** What is printed once the conflicts are collected, one entry for each
    [console.info]. *)
Definition report (c : Conflicts) : list string :=
  if negb (hasConflicts c) then
    [green (Str.chr Str.nl +++ "✓ Grammar doesn't have any conflicts!" +++ Str.chr Str.nl)]
  else
    [red (Str.chr Str.nl +++ "Grammar has the following unresolved conflicts:"
          +++ Str.chr Str.nl)]
    ++ (match srConflicts c with
        | [] => []
        | _ =>
            [bold (Str.chr Str.dquote +++ "Shift-reduce" +++ Str.chr Str.dquote
                   +++ " conflicts:" +++ Str.chr Str.nl)]
            ++ numbered (fun i (e : Production * list string) => srLine i (fst e) (snd e))
                 1%nat (srConflicts c)
            ++ [EmptyString]
        end)
    ++ (match rrConflicts c with
        | [] => []
        | _ =>
            [bold (Str.chr Str.dquote +++ "Reduce-reduce" +++ Str.chr Str.dquote
                   +++ " conflicts:" +++ Str.chr Str.nl)]
            ++ numbered
                 (fun i (e : string * (Production * Production)) =>
                    rrLine i (fst (snd e)) (snd (snd e)))
                 1%nat (rrConflicts c)
            ++ [EmptyString]
        end)
    ++ [hint].

(** [validateLRGrammar], from [table.getConflictsData()] on: what it prints,
    or the exception that leaves it. *)
Definition validateLRGrammar (conflictsData : list (string * list (string * SymbolConflict)))
    : Completion (list string) :=
  match collectConflicts conflictsData with
  | Returned c => Returned (report c)
  | Thrown m => Thrown m
  | TypeError => TypeError
  end.

(** *** Vocabulary of the properties *)

(** The symbol is among those recorded for the production. *)
Definition srListed (c : Conflicts) (p : Production) (symbol : string) : Prop :=
  exists data, mapGet Production_eq_dec p (srConflicts c) = Some data /\ In symbol data.

(** The pair of productions of the conflict is recorded. *)
Definition rrListed (c : Conflicts) (conflict : string) : Prop :=
  exists reduce1 reduce2 rest,
    splitSlash conflict = reduce1 :: reduce2 :: rest /\
    mapGet string_dec conflict (rrConflicts c) =
    Some (getProduction (slice1 reduce1), getProduction (slice1 reduce2)).

Definition extends (c c' : Conflicts) : Prop :=
  (forall p s, srListed c p s -> srListed c' p s) /\
  (forall k, rrListed c k -> rrListed c' k) /\
  (hasConflicts c = true -> hasConflicts c' = true).

(** An unresolved conflict is a shift-reduce conflict with a reduce part, or a
    reduce-reduce conflict with two parts. *)
Definition wellFormed (entry : string * SymbolConflict) : Prop :=
  resolved (snd entry) = Some false ->
  (getEntryType (conflict (snd entry)) = SR_CONFLICT /\
   splitSRParts (conflict (snd entry)) <> []) \/
  (getEntryType (conflict (snd entry)) = RR_CONFLICT /\
   exists reduce1 reduce2 rest, splitSlash (conflict (snd entry)) = reduce1 :: reduce2 :: rest).

Definition listed (c : Conflicts) (entry : string * SymbolConflict) : Prop :=
  resolved (snd entry) = Some false ->
  hasConflicts c = true /\
  match getEntryType (conflict (snd entry)) with
  | SR_CONFLICT =>
      forall reducePart rest,
        splitSRParts (conflict (snd entry)) = reducePart :: rest ->
        srListed c (getProduction (slice1 reducePart)) (fst entry)
  | RR_CONFLICT => rrListed c (conflict (snd entry))
  | OTHER_ENTRY => True
  end.

End Validate.

End Cli.

(** ** Generated tokenizers used as examples *)

(** The tokenizer of scenario S6: identifiers [[a-z]+], white space skipped,
    with the tables the emitter writes for it. *)
Module S6.

Import Tokenizer.

Definition tokensMap (tokenType : string) : option string :=
  if String.eqb tokenType "ID" then Some "0"
  else if String.eqb tokenType "$" then Some "1"
  else None.

Definition lexRules : list (string * string) :=
  [("^%s+", "_lexRule1"); ("^[a-z]+", "_lexRule2")].

Definition lexRulesByConditions (state : string) : option (list Z) :=
  if String.eqb state "INITIAL" then Some [0; 1] else None.

(** [-- skip whitespace;] *)
Definition _lexRule1 : Handler :=
  fun yytext _ => {| h_result := RNil; h_yytext := yytext; h_ops := [] |}.

(** [return 'ID';] *)
Definition _lexRule2 : Handler :=
  fun yytext _ => {| h_result := RType "ID"; h_yytext := yytext; h_ops := [] |}.

Definition handlers (name : string) : option Handler :=
  if String.eqb name "_lexRule1" then Some _lexRule1
  else if String.eqb name "_lexRule2" then Some _lexRule2
  else None.

Definition getNextToken :=
  Tokenizer.getNextToken LuaPattern.find tokensMap lexRules lexRulesByConditions handlers.

Definition getTokens :=
  Tokenizer.getTokens LuaPattern.find tokensMap lexRules lexRulesByConditions handlers.

(** The input of the scenario, two lines. *)
Definition input : string := "ab" +++ Str.chr Str.nl +++ "cd".

(** The same words with an empty line between them. *)
Definition inputBlankLine : string := "ab" +++ Str.chr Str.nl +++ Str.chr Str.nl +++ "cd".

(** A word, an empty line, and a digit, which no rule matches. *)
Definition inputBlankLineDigit : string :=
  "ab" +++ Str.chr Str.nl +++ Str.chr Str.nl +++ "1".

End S6.

(** A tokenizer with a rule that answers a table of token types: a closing
    brace also ends the statement and the line. *)
Module Braces.

Import Tokenizer.

Definition tokensMap (tokenType : string) : option string :=
  if String.eqb tokenType "RBRACE" then Some "0"
  else if String.eqb tokenType "SEMI" then Some "1"
  else if String.eqb tokenType "EOL" then Some "2"
  else if String.eqb tokenType "$" then Some "3"
  else None.

Definition lexRules : list (string * string) :=
  [("^%s+", "_lexRule1"); ("^}", "_lexRule2")].

Definition lexRulesByConditions (state : string) : option (list Z) :=
  if String.eqb state "INITIAL" then Some [0; 1] else None.

Definition _lexRule1 : Handler :=
  fun yytext _ => {| h_result := RNil; h_yytext := yytext; h_ops := [] |}.

(** [return {'RBRACE', 'SEMI', 'EOL'};] *)
Definition _lexRule2 : Handler :=
  fun yytext _ =>
    {| h_result := RTable ["RBRACE"; "SEMI"; "EOL"]; h_yytext := yytext; h_ops := [] |}.

Definition handlers (name : string) : option Handler :=
  if String.eqb name "_lexRule1" then Some _lexRule1
  else if String.eqb name "_lexRule2" then Some _lexRule2
  else None.

End Braces.

(** A tokenizer whose grammar handles the end of the input itself, with a
    rule that matches the empty rest and answers a token of its own. *)
Module ManualEOF.

Import Tokenizer.

Definition tokensMap (tokenType : string) : option string :=
  if String.eqb tokenType "ID" then Some "0"
  else if String.eqb tokenType "EOF" then Some "1"
  else if String.eqb tokenType "$" then Some "2"
  else None.

Definition lexRules : list (string * string) :=
  [("^[a-z]+", "_lexRule1"); ("^$", "_lexRule2")].

Definition lexRulesByConditions (state : string) : option (list Z) :=
  if String.eqb state "INITIAL" then Some [0; 1] else None.

Definition _lexRule1 : Handler :=
  fun yytext _ => {| h_result := RType "ID"; h_yytext := yytext; h_ops := [] |}.

(** [return 'EOF';] *)
Definition _lexRule2 : Handler :=
  fun yytext _ => {| h_result := RType "EOF"; h_yytext := yytext; h_ops := [] |}.

Definition handlers (name : string) : option Handler :=
  if String.eqb name "_lexRule1" then Some _lexRule1
  else if String.eqb name "_lexRule2" then Some _lexRule2
  else None.

Definition getTokens :=
  Tokenizer.getTokens LuaPattern.find tokensMap lexRules lexRulesByConditions handlers.

End ManualEOF.

(** A tokenizer with two start conditions: [/*] opens a comment, which is
    skipped one character at a time in the start condition [comment] until
    [*/] closes it. *)
Module Comments.

Import Tokenizer.

Definition tokensMap (tokenType : string) : option string :=
  if String.eqb tokenType "ID" then Some "0"
  else if String.eqb tokenType "$" then Some "1"
  else None.

Definition lexRules : list (string * string) :=
  [("^%s+", "_lexRule1"); ("^[a-z]+", "_lexRule2"); ("^/%*", "_lexRule3");
   ("^%*/", "_lexRule4"); ("^.", "_lexRule5")].

Definition lexRulesByConditions (state : string) : option (list Z) :=
  if String.eqb state "INITIAL" then Some [0; 1; 2]
  else if String.eqb state "comment" then Some [3; 4]
  else None.

(** [-- skip whitespace;] *)
Definition _lexRule1 : Handler :=
  fun yytext _ => {| h_result := RNil; h_yytext := yytext; h_ops := [] |}.

(** [return 'ID';] *)
Definition _lexRule2 : Handler :=
  fun yytext _ => {| h_result := RType "ID"; h_yytext := yytext; h_ops := [] |}.

(** [self:pushState('comment');] *)
Definition _lexRule3 : Handler :=
  fun yytext _ => {| h_result := RNil; h_yytext := yytext; h_ops := [PushState "comment"] |}.

(** [self:popState();] *)
Definition _lexRule4 : Handler :=
  fun yytext _ => {| h_result := RNil; h_yytext := yytext; h_ops := [PopState] |}.

(** [-- skip the comment;] *)
Definition _lexRule5 : Handler :=
  fun yytext _ => {| h_result := RNil; h_yytext := yytext; h_ops := [] |}.

Definition handlers (name : string) : option Handler :=
  if String.eqb name "_lexRule1" then Some _lexRule1
  else if String.eqb name "_lexRule2" then Some _lexRule2
  else if String.eqb name "_lexRule3" then Some _lexRule3
  else if String.eqb name "_lexRule4" then Some _lexRule4
  else if String.eqb name "_lexRule5" then Some _lexRule5
  else None.

Definition getNextToken :=
  Tokenizer.getNextToken LuaPattern.find tokensMap lexRules lexRulesByConditions handlers.

Definition getTokens :=
  Tokenizer.getTokens LuaPattern.find tokensMap lexRules lexRulesByConditions handlers.

End Comments.

(** The grammar of [examples/calc.lua.g], as the emitter reads it.  The code
    of an action and the names of its parameters are answers of the base
    generator, which is not under [src]: the grammar writes its bodies with
    [$$] and [$n], and the handlers are declared with the parameters [_1],
    [_2], ...  [actionCode] is the code handed to the trait for a production,
    taken here in terms of these parameters and of the result [__]. *)
Module Calc.

Import Emitter.

Record Production := {
  rhs : string;
  actionCode : option string
}.

Definition add : Production := {| rhs := "E + E"; actionCode := Some "__ = _1 + _3" |}.
Definition mul : Production := {| rhs := "E * E"; actionCode := Some "__ = _1 * _3" |}.
Definition pow : Production := {| rhs := "E ^ E"; actionCode := Some "__ = _1 ^ _3" |}.
Definition num : Production :=
  {| rhs := "NUMBER"; actionCode := Some "__ = tonumber(_1)" |}.
Definition group : Production := {| rhs := "( E )"; actionCode := Some "__ = _2" |}.
(** The augmented production has no action. *)
Definition start : Production := {| rhs := "E"; actionCode := None |}.

Definition getSemanticActionCode (p : Production) : option string := actionCode p.

Definition getSemanticActionParams (p : Production) : list string :=
  if String.eqb (rhs p) "NUMBER" then ["_1"]
  else if String.eqb (rhs p) "E" then ["_1"]
  else ["_1"; "_2"; "_3"].

Definition skip : LexRule :=
  {| getRawMatcher := "^%s+"; getRawHandler := "-- skip whitespace";
     isCaseInsensitive := false |}.
Definition number : LexRule :=
  {| getRawMatcher := "^%d+"; getRawHandler := "return 'NUMBER'";
     isCaseInsensitive := false |}.
Definition star : LexRule :=
  {| getRawMatcher := "^%*"; getRawHandler := "return '*'"; isCaseInsensitive := false |}.
Definition plus : LexRule :=
  {| getRawMatcher := "^%+"; getRawHandler := "return '+'"; isCaseInsensitive := false |}.

Definition lexRules : list LexRule := [skip; number; star; plus].

Fixpoint indexOf (m : string) (rules : list LexRule) (i : Z) : Z :=
  match rules with
  | [] => -1
  | r :: more => if String.eqb (getRawMatcher r) m then i else indexOf m more (i + 1)
  end.

Definition getRuleIndex (lexRule : LexRule) : Z := indexOf (getRawMatcher lexRule) lexRules 0.

Definition grammar : Grammar Production :=
  {| getRules := lexRules;
     getRulesByStartConditions := [("INITIAL", lexRules)];
     generateParseTableData :=
       JArray [JObject [("0", JString "s1"); ("3", JNumber 2)]; JObject [("1", JString "acc")]];
     _tokens := JObject [("NUMBER", JString "0"); ("*", JString "1"); ("+", JString "2");
                         ("$", JString "3")];
     getProductions := [start; add; mul; pow; num; group];
     getModuleInclude := None |}.

(** A stand-in for the raw production rows of the base generator: the length
    of the right hand side aside, the name of the handler of each action. *)
Definition generateRawProductionsData (grammar : Grammar Production)
    (handlers : list HandlerDecl) : list (list RawItem) * list HandlerDecl :=
  fold_left
    (fun (acc : list (list RawItem) * list HandlerDecl) (p : Production) =>
       let g :=
         {| _lexHandlers := []; _productionHandlers := snd acc;
            _parserClassName := EmptyString; written := [] |} in
       let (name, g) :=
         buildSemanticAction Production getSemanticActionCode getSemanticActionParams p g in
       (fst acc ++
        [[RawNumber (-1); RawNumber 3;
          match name with Some n => RawString n | None => RawNull end]],
        _productionHandlers g))
    (getProductions Production grammar) ([], handlers).

Definition superSteps : list Step :=
  [GenerateModuleInclude; GenerateBuiltInTokenizer; GenerateTokensTable; GenerateParseTable;
   GenerateProductions; GenerateLexRules; GenerateLexRulesByStartConditions].

Definition emitted :=
  Emitter.emitted Production getRuleIndex generateRawProductionsData "-- tokenizer" superSteps.

End Calc.

(** The conflicts of a table with one shift-reduce and one reduce-reduce
    conflict left unresolved, and one conflict resolved. *)
Module Conflicted.

Import Cli.

Definition startsWith (c : ascii) (s : string) : bool :=
  match s with
  | String x _ => Ascii.eqb x c
  | EmptyString => false
  end.

(** Entries as the table encodes them: [s5/r3] and [r2/r4]. *)
Definition getEntryType (entry : string) : EntryType :=
  match splitSlash entry with
  | [a; b] =>
      if (startsWith "r" a && startsWith "r" b)%bool then RR_CONFLICT
      else if ((startsWith "s" a && startsWith "r" b) || (startsWith "r" a && startsWith "s" b))%bool
      then SR_CONFLICT
      else OTHER_ENTRY
  | _ => OTHER_ENTRY
  end.

(** The reduce part first. *)
Definition splitSRParts (entry : string) : list string :=
  match splitSlash entry with
  | [a; b] => if startsWith "r" a then [a; b] else [b; a]
  | parts => parts
  end.

(** Productions are told apart by their numbers. *)
Definition getProduction (number : string) : string := number.

Definition toFullString (production : string) : string := "production " +++ production.

Definition plain (s : string) : string := s.

Definition conflictsData : list (string * list (string * SymbolConflict)) :=
  [("4", [("+", {| resolved := Some false; conflict := "s3/r1" |});
          ("*", {| resolved := Some false; conflict := "s5/r1" |});
          ("-", {| resolved := Some true; conflict := "s6/r1" |})]);
   ("7", [("$", {| resolved := Some false; conflict := "r2/r4" |})])].

Definition validateLRGrammar :=
  Cli.validateLRGrammar string string_dec toFullString getProduction getEntryType splitSRParts
    plain plain plain "SLR1" "LALR1".

End Conflicted.

(** ** Vocabulary of the invariants of a tokenizer run *)

Module Runs.

Import Tokenizer.

(** The bounds recorded for the last lexeme lie in the text [s] in their
    order, the cursor stands at the end of that lexeme or one past the end of
    the text, the line and column of the end of the lexeme are the current
    ones, and a start condition is left. *)
Definition settled (s : string) (self : Tokenizer) : Prop :=
  _string self = s /\
  0 <= _tokenStartOffset self <= _tokenEndOffset self /\
  _tokenEndOffset self <= Str.len s /\
  (_cursor self = _tokenEndOffset self \/
   (_cursor self = Str.len s + 1 /\ _tokenEndOffset self = Str.len s)) /\
  1 <= _tokenStartLine self <= _tokenEndLine self /\
  _tokenEndLine self = _currentLine self /\
  _tokenEndColumn self = _currentColumn self /\
  _states self <> [].

(** The state in which the handler [h] of a rule leaves the tokenizer: the
    globals are set to the lexeme, the handler may rewrite [yytext], and its
    calls on the start conditions are run. *)
Definition handled (h : Handler) (lexeme : string) (scanned : Tokenizer) : Tokenizer :=
  let o := h lexeme (_states scanned) in
  runOps (h_ops o)
    (set_yytext (h_yytext o) (set_yyleng (Str.len lexeme) (set_yytext lexeme scanned))).

(** The offsets and the lines of a token lie in the text [s], in their order. *)
Definition withinText (s : string) (t : TokenParams) : Prop :=
  0 <= startOffset t <= endOffset t /\
  endOffset t <= Str.len s /\
  1 <= startLine t <= endLine t.

(** The line counters agree with the text: the current line is the line of the
    cursor, and the lines recorded for the last lexeme are those of its
    offsets.  Nothing is said of the columns. *)
Definition linesAccurate (s : string) (self : Tokenizer) : Prop :=
  _string self = s /\
  0 <= _cursor self /\
  _currentLine self = lineOf s (Z.min (_cursor self) (Str.len s)) /\
  0 <= _tokenStartOffset self <= _tokenEndOffset self /\
  _tokenEndOffset self <= Str.len s /\
  _tokenStartLine self = lineOf s (_tokenStartOffset self) /\
  _tokenEndLine self = lineOf s (_tokenEndOffset self).

(** The lines of a token are those of its offsets in the text [s]. *)
Definition onItsLines (s : string) (t : TokenParams) : Prop :=
  startLine t = lineOf s (startOffset t) /\
  endLine t = lineOf s (endOffset t).



Section Rules.

Variable find : string -> string -> option (Z * Z).
Variable lexRules : list (string * string).

(** Every match in [s] starts at the cursor. *)
Definition anchored (s : string) : bool :=
  forallMatches find lexRules s (fun st _ _ => st =? 1).

End Rules.

Section Coverage.

Variable find : string -> string -> option (Z * Z).
Variable lexRules : list (string * string).
Variable lexRulesByConditions : string -> option (list Z).
Variable handlers : string -> option Handler.

(** Rule [j] is in [lexRules] and its pattern matches [rest]. *)
Definition ruleMatches (rest : string) (j : Z) : bool :=
  match Str.index lexRules (j + 1) with
  | Some (p, _) => match find rest p with Some _ => true | None => false end
  | None => false
  end.

(** Rule [j] is in [lexRules] and its handler is declared. *)
Definition ruleHandled (j : Z) : bool :=
  match Str.index lexRules (j + 1) with
  | Some (_, h) => match handlers h with Some _ => true | None => false end
  | None => false
  end.

(** The start condition [state] covers the text [s]: its rules are listed,
    each of them is in [lexRules] with a declared handler, and at every
    position of [s] before its end one of them matches. *)
Definition covers (s : string) (state : string) : bool :=
  match lexRulesByConditions state with
  | None => false
  | Some l =>
      (forallb ruleHandled l &&
       forallb (fun c => existsb (ruleMatches (Str.sub_from s (Z.of_nat c + 1))) l)
         (seq 0 (String.length s)))%bool
  end.

(** A call of [getNextToken] at [self] scans new input, the start condition
    [state] is the top of the stack [_states], and rule [i] is the first rule
    in the list of [state] whose pattern [find]s a match in the input left,
    with bounds [s] and [e].  Nothing is asked of the rules that are not
    listed for [state] before [i]. *)
Definition chooses (self : Tokenizer) (state : string) (i : Z) (pattern handlerName : string)
    (s e : Z) : Prop :=
  _tokensQueue self = [] /\
  hasMoreTokens self = true /\
  (exists below, _states self = below ++ [state]) /\
  exists before after,
    lexRulesByConditions state = Some (before ++ i :: after) /\
    (forall j, In j before ->
       exists p h, Str.index lexRules (j + 1) = Some (p, h) /\ find (stringRestOf self) p = None) /\
    Str.index lexRules (i + 1) = Some (pattern, handlerName) /\
    find (stringRestOf self) pattern = Some (s, e).

(** No rule answers a token of its own for the end of the input: when the
    pattern of a rule matches the empty string, its handler answers nothing
    for it. *)
Definition silentAtEnd : Prop :=
  forall p name h st e states,
    In (p, name) lexRules ->
    find EmptyString p = Some (st, e) ->
    handlers name = Some h ->
    h_result (h EmptyString states) = RNil.

(** The handlers enter no start condition but those of [conds]. *)
Definition entersOnly (conds : list string) : Prop :=
  forall name h text states op,
    handlers name = Some h ->
    In op (h_ops (h text states)) ->
    match op with
    | PushState state => In state conds
    | Begin state => In state conds
    | PopState => True
    end.

(** A tokenizer on the text [s] whose start conditions are all of [conds]. *)
Definition ready (s : string) (conds : list string) (self : Tokenizer) : Prop :=
  _string self = s /\
  0 <= _cursor self /\
  _states self <> [] /\
  Forall (fun state => In state conds) (_states self).

End Coverage.

End Runs.

(** A tokenizer whose only rule skips optional white space: its pattern also
    matches the empty string. *)
Module SkipOptional.

Import Tokenizer.

Definition tokensMap (tokenType : string) : option string :=
  if String.eqb tokenType "$" then Some "0" else None.

Definition lexRules : list (string * string) := [("^%s*", "_lexRule1")].

Definition lexRulesByConditions (state : string) : option (list Z) :=
  if String.eqb state "INITIAL" then Some [0] else None.

(** [-- skip whitespace;] *)
Definition _lexRule1 : Handler :=
  fun yytext _ => {| h_result := RNil; h_yytext := yytext; h_ops := [] |}.

Definition handlers (name : string) : option Handler :=
  if String.eqb name "_lexRule1" then Some _lexRule1 else None.

End SkipOptional.

(** ** Vocabulary of the properties of the command line driver *)

Module Reports.

Import Cli.

(** [object[key]] on the properties of an object; [None] is [undefined]. *)
Fixpoint getProperty {V} (key : string) (o : list (string * V)) : option V :=
  match o with
  | [] => None
  | (k, x) :: r => if String.eqb k key then Some x else getProperty key r
  end.

(** An option with a value that is not the empty string. *)
Definition given (o : option string) : bool :=
  match o with
  | Some (String _ _) => true
  | _ => false
  end.

(** The entries of all states, in the order in which the two loops of
    [validateLRGrammar] visit them. *)
Definition allEntries (conflictsData : list (string * list (string * SymbolConflict)))
    : list (string * SymbolConflict) :=
  List.concat (map snd conflictsData).

Section Origins.

Variable Production : Type.
Variable getProduction : string -> Production.
Variable getEntryType : string -> EntryType.
Variable splitSRParts : string -> list string.

(** Among [entries] there is an unresolved shift-reduce conflict of [symbol]
    whose reduce part names [production]. *)
Definition fromSR (entries : list (string * SymbolConflict)) (production : Production)
    (symbol : string) : Prop :=
  exists symbolConflict reducePart rest,
    In (symbol, symbolConflict) entries /\
    resolved symbolConflict = Some false /\
    getEntryType (conflict symbolConflict) = SR_CONFLICT /\
    splitSRParts (conflict symbolConflict) = reducePart :: rest /\
    getProduction (slice1 reducePart) = production.

(** Among [entries] there is an unresolved reduce-reduce conflict with the
    text [conflict] whose two parts name the two productions. *)
Definition fromRR (entries : list (string * SymbolConflict)) (conflictText : string)
    (productions : Production * Production) : Prop :=
  exists symbol symbolConflict reduce1 reduce2 rest,
    In (symbol, symbolConflict) entries /\
    resolved symbolConflict = Some false /\
    conflict symbolConflict = conflictText /\
    getEntryType conflictText = RR_CONFLICT /\
    splitSlash conflictText = reduce1 :: reduce2 :: rest /\
    productions = (getProduction (slice1 reduce1), getProduction (slice1 reduce2)).

(** What the first loop of [validateLRGrammar] has recorded stems from the
    entries [seen] so far: the symbols kept for a production, the pairs of
    productions kept for a conflict, each key once, and the flag. *)
Definition recorded (c : Conflicts Production) (seen : list (string * SymbolConflict)) : Prop :=
  (forall p d, In (p, d) (srConflicts Production c) ->
     d <> [] /\ forall symbol, In symbol d -> fromSR seen p symbol) /\
  (forall k pp, In (k, pp) (rrConflicts Production c) -> fromRR seen k pp) /\
  NoDup (map fst (srConflicts Production c)) /\
  NoDup (map fst (rrConflicts Production c)) /\
  (hasConflicts Production c = true <->
   exists symbol symbolConflict,
     In (symbol, symbolConflict) seen /\ resolved symbolConflict = Some false).

End Origins.

End Reports.

(** ** Vocabulary of the properties of an emitter run *)

Module EmitterRuns.

Import Emitter.

(** The placeholder of the template that a step of the emitter fills. *)
Definition placeholder (step : Step) : string :=
  match step with
  | GenerateParseTable => "TABLE"
  | GenerateTokensTable => "TOKENS"
  | GenerateBuiltInTokenizer => "TOKENIZER"
  | GenerateLexRules => "LEX_RULES"
  | GenerateLexRulesByStartConditions => "LEX_RULES_BY_START_CONDITIONS"
  | GenerateProductions => "PRODUCTIONS"
  | GenerateModuleInclude => "MODULE_INCLUDE"
  end.

(** The text of [LEX_RULES] and of [LEX_RULE_HANDLERS] for rules whose
    handlers are numbered from 1, in the order of the rules. *)
Definition lexRulesText (rules : list LexRule) : string :=
  "{ " +++
  Str.join ("," +++ Str.chr Str.nl)
    (mapi (fun lexRule index => lexRuleText lexRule (index + 1)) rules)
  +++ " }".

Definition lexHandlersText (rules : list LexRule) : string :=
  Str.join (Str.chr Str.nl +++ Str.chr Str.nl)
    (mapi
       (fun lexRule index =>
          declarationText "Tokenizer:" "_lexRule" (index + 1) EmptyString
            (getRawHandler lexRule))
       rules).

(** The handler kept for a lexical rule. *)
Definition lexHandlerOf (lexRule : LexRule) : HandlerDecl :=
  {| args := EmptyString; action := getRawHandler lexRule +++ ";" |}.

(** The text between the quotes of a Lua string, as Lua reads it: a
    backslash takes the next character with it, and a quote that no
    backslash takes ends the string.  [staysQuoted] says that no quote ends
    the string and no backslash is left without its character. *)
Fixpoint staysQuoted (s : string) : bool :=
  match s with
  | EmptyString => true
  | String c r =>
      if Ascii.eqb c Str.backslash then
        match r with
        | EmptyString => false
        | String _ r' => staysQuoted r'
        end
      else if Ascii.eqb c Str.dquote then false
      else staysQuoted r
  end.

Definition noBackslash (s : string) : bool :=
  allChars (fun c => negb (Ascii.eqb c Str.backslash)) s.

Section Productions.

Variable Production : Type.
Variable getSemanticActionCode : Production -> option string.
Variable getSemanticActionParams : Production -> list string.

(** [buildSemanticAction] called for the productions one after the other, as
    the base generator does when it builds the rows of the productions. *)
Fixpoint buildSemanticActions (productions : list Production) (g : Generator)
    : list (option string) * Generator :=
  match productions with
  | [] => ([], g)
  | production :: more =>
      let (name, g) :=
        buildSemanticAction Production getSemanticActionCode getSemanticActionParams
          production g in
      let (names, g) := buildSemanticActions more g in
      (name :: names, g)
  end.

(** The handler kept for a production whose action code is not empty. *)
Definition handlerOf (production : Production) : option HandlerDecl :=
  match getSemanticActionCode production with
  | Some (String c r) =>
      Some {| args := Str.join "," (getSemanticActionParams production);
              action := String c r +++ ";" |}
  | _ => None
  end.

Definition hasAction (production : Production) : bool :=
  match handlerOf production with
  | Some _ => true
  | None => false
  end.

(** The handlers of the productions that have one, in the order of the
    productions. *)
Definition handlersOf (productions : list Production) : list HandlerDecl :=
  flat_map
    (fun production =>
       match handlerOf production with
       | Some h => [h]
       | None => []
       end)
    productions.

(** The number of the handler of production [i] of [productions], when [n]
    handlers are there already: one more for each production with an action
    up to it. *)
Definition handlerNumber (n : nat) (productions : list Production) (i : nat) : nat :=
  (n + List.length (filter hasAction (firstn (S i) productions)))%nat.

End Productions.

End EmitterRuns.

(** ** The routes of the command line driver ([main] of [bin/syntax.js])

    The driver reads the options and calls into the grammar, the tables, the
    parsers and the generators, none of which is under src.  What is modelled
    is the route: the calls the driver makes, in their order, as events, and
    the way the run ends.  A call that is made is taken to return. *)

Module Driver.

Import Cli.
Import Reports.

(** The options [main] and its helpers read.  An option with a value is
    [Some] when it was passed, so that [provided(option)] is [Some _] and
    [options.option] is truthy when the value is not the empty string; a flag
    that is only tested for truth is a [bool]; [tokenize] is a flag that is
    tested both ways. *)
Record Argv := {
  version : bool;
  mode : option string;
  grammar : option string;
  lexOptions : Options;
  sets : option string;
  tokenizerOnly : bool;
  tokenize : option bool;
  output : option string;
  parse : option string;
  file : option string;
  collection : bool;
  validate : bool;
  table : bool
}.

(** Where the text to parse or to tokenize comes from. *)
Inductive Source :=
| FromString (text : string)
| FromFile (path : string).

(** The calls of the driver. *)
Inductive Event :=
| PrintVersion
| BuildLexGrammar (fromData : bool)
| PrintSet (name : string)
| ParsingMode (modeKey : string)
| PrintCollection
| ValidateGrammar
| PrintTable
| Parse (source : Source)
| Tokens (source : Source)
| Generate (generator outputFile : string).

(** How a run ends: it returns, [error] ends the process with a message, or
    a [TypeError] leaves it. *)
Inductive Ending :=
| Finished
| Exited (message : string)
| Raised.

Definition Run : Type := list Event * Ending.

(** [a; b]: [b] runs when [a] has returned. *)
Definition andThen (a b : Run) : Run :=
  match snd a with
  | Finished => (fst a ++ fst b, snd b)
  | _ => a
  end.

Definition call (e : Event) : Run := ([e], Finished).

(** The own keys of [parsers], in their order. *)
Definition parsersKeys : list string :=
  ["LR0"; "SLR1"; "CLR1"; "LALR1"; "LALR1_BY_SLR1"; "LALR1_BY_CLR1"; "_genericLR"; "LL1"].

(** The object [GENERATORS] of [_genericLR] and the one of [LL1]: the
    language and the module of its generator. *)
Definition lrGenerators : list (string * string) :=
  [("js", "lr/lr-parser-generator-default.js");
   ("example", "plugins/example/lr/lr-parser-generator-example.js");
   ("py", "plugins/python/lr/lr-parser-generator-py.js");
   ("php", "plugins/php/lr/lr-parser-generator-php.js");
   ("rb", "plugins/ruby/lr/lr-parser-generator-ruby.js");
   ("cs", "plugins/csharp/lr/lr-parser-generator-csharp.js");
   ("rs", "plugins/rust/lr/lr-parser-generator-rust.js");
   ("java", "plugins/java/lr/lr-parser-generator-java.js");
   ("h", "plugins/cpp/lr/lr-parser-generator-cpp.js");
   ("cpp", "plugins/cpp/lr/lr-parser-generator-cpp.js");
   ("jl", "plugins/julia/lr/lr-parser-generator-julia.js");
   ("lua", "plugins/lua/lr/lr-parser-generator-lua.js")].

Definition llGenerators : list (string * string) :=
  [("js", "ll/ll-parser-generator-default.js");
   ("example", "plugins/example/ll/ll-parser-generator-example.js");
   ("py", "plugins/python/ll/ll-parser-generator-py.js");
   ("php", "plugins/php/ll/ll-parser-generator-php.js");
   ("rb", "plugins/ruby/ll/ll-parser-generator-ruby.js")].

(** [mode.startsWith('_')] *)
Definition startsWithUnderscore (s : string) : bool :=
  match s with
  | String c _ => Ascii.eqb c "_"
  | EmptyString => false
  end.

Definition isSome {A} (o : option A) : bool :=
  match o with
  | Some _ => true
  | None => false
  end.

Section Host.

(** [String.prototype.toUpperCase] and [path.extname] *)
Variable toUpperCase : string -> string.
Variable extname : string -> string.
(** The own keys of [GRAMMAR_MODE], in their order. *)
Variable GRAMMAR_MODE : list string.
(** The names that every object answers from [Object.prototype]; what it
    answers is neither [undefined] nor a generator. *)
Variable inheritedName : string -> bool.
Variable dataFromGrammarFile : string -> LexGrammarData.

(** [normalizeMode] and [getModesList] *)
Definition normalizeMode (mode : string) : string := toUpperCase mode.

Definition getModesList : string := Str.join ", " GRAMMAR_MODE.

(** [extractMode]: the mode, or the message of the [error] that ends the
    process. *)
Definition extractMode (argv : Argv) : string + string :=
  let mode :=
    match mode argv with
    | Some (String c r) => String c r
    | _ =>
        match grammar argv with
        | Some (String c r) => slice1 (extname (String c r))
        | _ => EmptyString
        end
    end in
  match mode with
  | EmptyString =>
      inr (Str.chr Str.nl +++ "Error: " +++ Str.chr Str.dquote +++ "mode" +++ Str.chr Str.dquote
           +++ " option is required for parsing" +++ Str.chr Str.nl)
  | _ =>
      let mode := normalizeMode mode in
      if negb (existsb (String.eqb mode) GRAMMAR_MODE) then
        inr (Str.chr Str.nl +++ "Error: " +++ Str.chr Str.dquote +++ mode +++ Str.chr Str.dquote
             +++ " is not a valid parsing mode. " +++ "Valid modes are: " +++ getModesList
             +++ "." +++ Str.chr Str.nl)
      else if negb (existsb (String.eqb mode) parsersKeys) then
        let availableModes :=
          Str.join ", " (filter (fun mode => negb (startsWithUnderscore mode)) parsersKeys) in
        inr (Str.chr Str.nl +++ "Error: " +++ Str.chr Str.dquote +++ mode +++ Str.chr Str.dquote
             +++ " is not implemented yet. " +++ "Available parsers are: " +++ availableModes
             +++ "." +++ Str.chr Str.nl)
      else inl mode
  end.

(** [isTokenizerOnly] *)
Definition isTokenizerOnly (argv : Argv) : bool :=
  (tokenizerOnly argv || (given (lex (lexOptions argv)) && negb (given (grammar argv))))%bool.

(** [tokenizeFromOptions] *)
Definition tokenizeFromOptions (argv : Argv) : Run :=
  if (negb (isSome (parse argv)) && negb (isSome (file argv)))%bool then
    ([], Exited (Str.chr Str.nl +++ "Error: tokenization requires -p or -f parameter"
                 +++ Str.chr Str.nl))
  else
    ((match parse argv with Some text => [Tokens (FromString text)] | None => [] end)
     ++ (match file argv with Some path => [Tokens (FromFile path)] | None => [] end),
     Finished).

(** [handleStandaloneTokenizer]; [getGrammar] answers [null] without a
    grammar file. *)
Definition handleStandaloneTokenizer (argv : Argv) : Run :=
  let lexGrammar : Run :=
    match getLexGrammarData dataFromGrammarFile (lexOptions argv) with
    | Some _ => call (BuildLexGrammar true)
    | None =>
        if given (grammar argv) then call (BuildLexGrammar false) else ([], Raised)
    end in
  andThen lexGrammar
    (andThen
       (if (negb (isSome (tokenize argv)) && negb (isSome (output argv)))%bool then
          ([], Exited (Str.chr Str.nl
                       +++ "Error: for tokenization pass either --tokenize or --output."
                       +++ Str.chr Str.nl))
        else ([], Finished))
       (match tokenize argv with
        | Some true => tokenizeFromOptions argv
        | _ => ([], Finished)
        end)).

(** [handleSets] *)
Definition handleSets (argv : Argv) : Run :=
  let sets := match sets argv with Some s => s | None => EmptyString end in
  let wanted (name : string) : bool :=
    (isSome (String.index 0 name sets) || String.eqb sets "all")%bool in
  ((if wanted "first" then [PrintSet "first"] else [])
   ++ (if wanted "follow" then [PrintSet "follow"] else [])
   ++ (if wanted "predict" then [PrintSet "predict"] else []),
   Finished).

(** [GENERATORS[language] || GENERATORS.js] and [GENERATORS[language]],
    followed by [new ...(...).generate()]. *)
Definition lrGenerator (language : string) : Completion string :=
  match getProperty language lrGenerators with
  | Some generator => Returned generator
  | None =>
      if inheritedName language then TypeError
      else Returned "lr/lr-parser-generator-default.js"
  end.

Definition llGenerator (language : string) : Completion string :=
  match getProperty language llGenerators with
  | Some generator => Returned generator
  | None => TypeError
  end.

(** The part of [_genericLR] and of [LL1] from [provided('parse')] on. *)
Definition parseAndGenerate (generatorOf : string -> Completion string) (argv : Argv) : Run :=
  andThen
    ((match parse argv with Some text => [Parse (FromString text)] | None => [] end)
     ++ (match file argv with Some path => [Parse (FromFile path)] | None => [] end),
     Finished)
    (andThen
       (match tokenize argv with
        | Some true => tokenizeFromOptions argv
        | _ => ([], Finished)
        end)
       (match output argv with
        | Some (String c r) =>
            match generatorOf (slice1 (extname (String c r))) with
            | Returned generator => call (Generate generator (String c r))
            | _ => ([], Raised)
            end
        | _ => ([], Finished)
        end)).

(** [parsers._genericLR(mode, options)] *)
Definition _genericLR (modeKey : string) (argv : Argv) : Run :=
  if negb (given (grammar argv)) then ([], Raised)
  else
    andThen
      ([ParsingMode modeKey]
       ++ (if collection argv then [PrintCollection] else [])
       ++ (if validate argv then [ValidateGrammar] else [])
       ++ (if table argv then [PrintTable] else []),
       Finished)
      (parseAndGenerate lrGenerator argv).

(** [parsers.LL1(options)] *)
Definition LL1 (argv : Argv) : Run :=
  if negb (given (grammar argv)) then ([], Raised)
  else
    andThen
      ([ParsingMode "LL1"] ++ (if table argv then [PrintTable] else []), Finished)
      (parseAndGenerate llGenerator argv).

(** [parsers[mode](options)] *)
Definition runParser (mode : string) (argv : Argv) : Run :=
  if String.eqb mode "LR0" then _genericLR "LR0" argv
  else if String.eqb mode "SLR1" then _genericLR "SLR1" argv
  else if String.eqb mode "CLR1" then _genericLR "CLR1" argv
  else if String.eqb mode "LALR1" then _genericLR "LALR1_BY_SLR1" argv
  else if String.eqb mode "LALR1_BY_SLR1" then _genericLR "LALR1_BY_SLR1" argv
  else if String.eqb mode "LALR1_BY_CLR1" then _genericLR "LALR1_BY_CLR1" argv
  else if String.eqb mode "LL1" then LL1 argv
  else ([], Raised).

(** [main] *)
Definition main (argv : Argv) : Run :=
  let nothingToRead := (negb (given (grammar argv)) && negb (given (lex (lexOptions argv))))%bool in
  andThen
    (if version argv then call PrintVersion else ([], Finished))
    (if nothingToRead then
       if version argv then ([], Finished)
       else
         ([], Exited (Str.chr Str.nl
                      +++ "Error: expected at least --grammar or --lex parameters."
                      +++ Str.chr Str.nl))
     else if isTokenizerOnly argv then handleStandaloneTokenizer argv
     else
       andThen
         (if given (sets argv) then handleSets argv else ([], Finished))
         (match extractMode argv with
          | inl mode => runParser mode argv
          | inr message => ([], Exited message)
          end)).

End Host.

End Driver.

(** A host for the examples: upper case of ASCII letters, the extension as
    the text from the last dot of a file name on, the parsing modes of the
    tool, and no inherited names among the languages. *)
Module DriverExample.

Import Cli.
Import Driver.

Fixpoint toUpperCase (s : string) : string :=
  match s with
  | EmptyString => EmptyString
  | String c r =>
      String (if LuaPattern.islower c then ascii_of_nat (nat_of_ascii c - 32) else c)
        (toUpperCase r)
  end.

Fixpoint extname_aux (s : string) (extension : option string) : string :=
  match s with
  | EmptyString => match extension with Some e => e | None => EmptyString end
  | String c r =>
      if Ascii.eqb c "." then extname_aux r (Some (Str.chr c))
      else extname_aux r (match extension with
                          | Some e => Some (e +++ Str.chr c)
                          | None => None
                          end)
  end.

Definition extname (path : string) : string := extname_aux path None.

Definition GRAMMAR_MODE : list string :=
  ["LL1"; "LR0"; "SLR1"; "LALR1"; "LALR1_BY_SLR1"; "LALR1_BY_CLR1"; "CLR1"].

Definition inheritedName (name : string) : bool :=
  existsb (String.eqb name)
    ["constructor"; "toString"; "valueOf"; "hasOwnProperty"; "isPrototypeOf";
     "propertyIsEnumerable"; "toLocaleString"; "__proto__"].

Definition noLexData (path : string) : LexGrammarData :=
  {| rules := None; options := None; others := [] |}.

Definition main : Argv -> Run :=
  Driver.main toUpperCase extname GRAMMAR_MODE inheritedName noLexData.

(** [syntax -g calc.g -m lalr1 -o calc.lua] *)
Definition calcToLua : Argv :=
  {| version := false; mode := Some "lalr1"; grammar := Some "calc.g";
     lexOptions := {| lex := None; ignore_whitespaces := false; case_insensitive := false |};
     sets := None; tokenizerOnly := false; tokenize := None; output := Some "calc.lua";
     parse := None; file := None; collection := false; validate := false; table := false |}.

(** [syntax -g calc.g --tokenizer-only -o calc.lua] *)
Definition tokenizerToLua : Argv :=
  {| version := false; mode := None; grammar := Some "calc.g";
     lexOptions := {| lex := None; ignore_whitespaces := false; case_insensitive := false |};
     sets := None; tokenizerOnly := true; tokenize := None; output := Some "calc.lua";
     parse := None; file := None; collection := false; validate := false; table := false |}.

End DriverExample.

(** * Properties *)

(** ** Strings *)

Lemma append_empty_r : forall s : string, s +++ EmptyString = s.
Proof.
  induction s as [|c s IH]; simpl; [reflexivity | now rewrite IH].
Qed.

Lemma append_assoc : forall a b c : string, (a +++ b) +++ c = a +++ b +++ c.
Proof.
  induction a as [|x a IH]; intros b c; simpl; [reflexivity | now rewrite IH].
Qed.

Lemma length_append : forall a b : string,
  String.length (a +++ b) = (String.length a + String.length b)%nat.
Proof.
  induction a as [|x a IH]; intros b; simpl; [reflexivity | now rewrite IH].
Qed.

Lemma len_append : forall a b : string, Str.len (a +++ b) = Str.len a + Str.len b.
Proof.
  intros a b. unfold Str.len. rewrite length_append. lia.
Qed.

Lemma len_nonneg : forall s : string, 0 <= Str.len s.
Proof.
  intros s. unfold Str.len. lia.
Qed.

Lemma take_drop : forall (n : nat) (s : string), Str.take n s +++ Str.drop n s = s.
Proof.
  induction n as [|n IH]; intros [|c s]; simpl; try reflexivity.
  now rewrite IH.
Qed.

Lemma length_take : forall (n : nat) (s : string),
  String.length (Str.take n s) = Nat.min n (String.length s).
Proof.
  induction n as [|n IH]; intros [|c s]; simpl; try reflexivity.
  now rewrite IH.
Qed.

Lemma length_drop : forall (n : nat) (s : string),
  String.length (Str.drop n s) = (String.length s - n)%nat.
Proof.
  induction n as [|n IH]; intros [|c s]; simpl; try reflexivity.
  now rewrite IH.
Qed.

Lemma take_all : forall (n : nat) (s : string),
  (String.length s <= n)%nat -> Str.take n s = s.
Proof.
  induction n as [|n IH]; intros [|c s] H; simpl in *; try reflexivity; try lia.
  rewrite IH; [reflexivity | lia].
Qed.

Lemma drop_all : forall (n : nat) (s : string),
  (String.length s <= n)%nat -> Str.drop n s = EmptyString.
Proof.
  induction n as [|n IH]; intros [|c s] H; simpl in *; try reflexivity; try lia.
  apply IH. lia.
Qed.

Lemma take_append_length : forall (a b : string) (n : nat),
  n = String.length a -> Str.take n (a +++ b) = a.
Proof.
  induction a as [|x a IH]; intros b n ->; simpl.
  - reflexivity.
  - now rewrite IH.
Qed.

Lemma take_append_more : forall (a b : string) (k : nat),
  Str.take (String.length a + k) (a +++ b) = a +++ Str.take k b.
Proof.
  induction a as [|x a IH]; intros b k; simpl.
  - reflexivity.
  - now rewrite IH.
Qed.

Lemma drop_append_length : forall (a b : string) (n : nat),
  n = String.length a -> Str.drop n (a +++ b) = b.
Proof.
  induction a as [|x a IH]; intros b n ->; simpl.
  - reflexivity.
  - now rewrite IH.
Qed.

(** The text before [n + k] is the text before [n] followed by the next [k]
    characters. *)
Lemma take_plus : forall (n k : nat) (s : string),
  Str.take (n + k) s = Str.take n s +++ Str.take k (Str.drop n s).
Proof.
  induction n as [|n IH]; intros k [|c s]; simpl; try reflexivity.
  - now destruct k.
  - now rewrite IH.
Qed.

Lemma length_empty : forall s : string, String.length s = O -> s = EmptyString.
Proof.
  intros [|c s]; simpl; [reflexivity | discriminate].
Qed.

(** [s:sub(c + 1)] is the text from offset [c] on. *)
Lemma sub_from_drop : forall (s : string) (c : Z),
  0 <= c -> Str.sub_from s (c + 1) = Str.drop (Z.to_nat c) s.
Proof.
  intros s c Hc. unfold Str.sub_from, Str.sub.
  assert (Hl := len_nonneg s).
  replace (c + 1 <? 0) with false by (symmetry; apply Z.ltb_ge; lia).
  replace (c + 1 =? 0) with false by (symmetry; apply Z.eqb_neq; lia).
  replace (-1 <? 0) with true by reflexivity.
  replace (Str.len s + -1 + 1) with (Str.len s) by lia.
  replace (c + 1 - 1) with c by lia.
  destruct (Str.len s <? c + 1) eqn:E.
  - apply Z.ltb_lt in E. symmetry. apply drop_all. unfold Str.len in E. lia.
  - apply Z.ltb_ge in E. apply take_all. rewrite length_drop. unfold Str.len in *. lia.
Qed.

(** [s:sub(i, j)] is a piece of [s]: some characters are dropped in front and
    some are taken from what is left. *)
Lemma sub_take_drop : forall (s : string) (i j : Z),
  exists m k : nat, Str.sub s i j = Str.take k (Str.drop m s).
Proof.
  intros s i j. unfold Str.sub.
  match goal with |- context [if ?c then EmptyString else Str.take ?k (Str.drop ?m s)] =>
    destruct c; [exists O, O; now destruct s | exists m, k; reflexivity] end.
Qed.

(** [s:sub(1, e)] is a prefix of [s]. *)
Lemma sub_1_take : forall (s : string) (e : Z),
  exists k : nat, Str.sub s 1 e = Str.take k s.
Proof.
  intros s e. unfold Str.sub. simpl (1 <? 0). simpl (1 =? 0). cbv iota.
  match goal with |- context [if ?c then EmptyString else _] => destruct c end.
  - exists O. now destruct s.
  - eexists. replace (Z.to_nat (1 - 1)) with O by reflexivity. simpl Str.drop. reflexivity.
Qed.

Lemma sub_1_prefix : forall (s : string) (e : Z),
  exists post : string, s = Str.sub s 1 e +++ post.
Proof.
  intros s e. destruct (sub_1_take s e) as [k ->].
  exists (Str.drop k s). symmetry. apply take_drop.
Qed.

Lemma length_sub_le : forall (s : string) (i j : Z),
  (String.length (Str.sub s i j) <= String.length s)%nat.
Proof.
  intros s i j. destruct (sub_take_drop s i j) as (m & k & ->).
  rewrite length_take, length_drop. lia.
Qed.

(** The first character of the rest, as [stringRest:sub(1, 1)] gives it. *)
Lemma sub_1_1 : forall (c : ascii) (r : string), Str.sub (String c r) 1 1 = Str.chr c.
Proof.
  intros c r. unfold Str.sub.
  simpl (1 <? 0). simpl (1 =? 0). cbv iota.
  assert (H : (Str.len (String c r) <? 1) = false).
  { apply Z.ltb_ge. unfold Str.len. simpl String.length. lia. }
  rewrite H. reflexivity.
Qed.

(** ** The start condition stack *)

Import Tokenizer.

Lemma index_last : forall (A : Type) (l : list A) (x : A),
  Str.index (l ++ [x]) (Z.of_nat (List.length (l ++ [x]))) = Some x.
Proof.
  intros A l x. unfold Str.index. rewrite length_app. simpl List.length.
  replace (1 <=? Z.of_nat (List.length l + 1)) with true by (symmetry; apply Z.leb_le; lia).
  replace (Z.to_nat (Z.of_nat (List.length l + 1) - 1)) with (List.length l) by lia.
  rewrite nth_error_app2 by lia. now rewrite Nat.sub_diag.
Qed.

Lemma getCurrentState_defined : forall self : Tokenizer,
  _states self <> [] -> exists state, getCurrentState self = Some state.
Proof.
  intros self H. unfold getCurrentState.
  destruct (exists_last H) as (l & x & ->).
  exists x. apply index_last.
Qed.

Lemma runOp_states_nonempty : forall (op : StateOp) (self : Tokenizer),
  _states self <> [] -> _states (runOp self op) <> [].
Proof.
  intros [state|state|] self H; simpl.
  - intros E. now apply app_eq_nil in E as [_ E].
  - intros E. now apply app_eq_nil in E as [_ E].
  - unfold popState.
    destruct (1 <? Z.of_nat (List.length (_states self))) eqn:E; simpl; [|exact H].
    apply Z.ltb_lt in E.
    destruct (exists_last H) as (l & x & Hl). rewrite Hl in *.
    rewrite removelast_last. rewrite length_app in E. simpl in E.
    destruct l; [simpl in E; lia | discriminate].
Qed.

Lemma runOps_states_nonempty : forall (ops : list StateOp) (self : Tokenizer),
  _states self <> [] -> _states (runOps ops self) <> [].
Proof.
  unfold runOps. induction ops as [|op ops IH]; intros self H; simpl.
  - exact H.
  - apply IH. now apply runOp_states_nonempty.
Qed.

(** C10. The stack of start conditions is never empty: [initString] makes it
    the single state INITIAL, [pushState] and [begin] add one state on top,
    [popState] removes the top state when more than one state is there and
    otherwise answers the bottom state and leaves the stack alone; so after
    every sequence of [pushState], [begin] and [popState] calls the stack is
    not empty and [getCurrentState] answers a state. *)
Theorem start_condition_stack_never_empty :
  forall (tokenizingString : string) (ops : list StateOp),
    _states (initString tokenizingString) = ["INITIAL"] /\
    (forall state self,
       _states (pushState state self) = _states self ++ [state] /\
       _states (begin state self) = _states self ++ [state]) /\
    (forall self below top,
       _states self = below ++ [top] ->
       (below <> [] ->
        popState self = (Some top, set_states below self)) /\
       (below = [] ->
        popState self = (Some top, self))) /\
    _states (runOps ops (initString tokenizingString)) <> [] /\
    exists state, getCurrentState (runOps ops (initString tokenizingString)) = Some state.
Proof.
  intros s ops. split; [reflexivity|]. split; [intros; split; reflexivity|].
  split.
  - intros self below top Hs. split.
    + intros Hne. unfold popState. rewrite Hs, length_app. simpl List.length.
      replace (1 <? Z.of_nat (List.length below + 1)) with true.
      * rewrite map_app. simpl (map Some [top]). rewrite last_last, removelast_last. reflexivity.
      * symmetry. apply Z.ltb_lt. destruct below; [congruence | simpl; lia].
    + intros ->. unfold popState. rewrite Hs. reflexivity.
  - assert (H : _states (runOps ops (initString s)) <> []).
    { apply runOps_states_nonempty. discriminate. }
    split; [exact H | now apply getCurrentState_defined].
Qed.

(** ** Scanning: the rule that is chosen *)

Lemma runOp_only_states : forall (op : StateOp) (self : Tokenizer),
  runOp self op = set_states (_states (runOp self op)) self.
Proof.
  intros [state|state|] self; try reflexivity.
  simpl. unfold popState.
  destruct (1 <? Z.of_nat (List.length (_states self))); simpl; [reflexivity|].
  now destruct self.
Qed.

(** The handler's calls change the stack of start conditions and nothing else. *)
Lemma runOps_only_states : forall (ops : list StateOp) (self : Tokenizer),
  runOps ops self = set_states (_states (runOps ops self)) self.
Proof.
  unfold runOps. induction ops as [|op ops IH]; intros self; simpl.
  - now destruct self.
  - rewrite IH. rewrite (runOp_only_states op self) at 2. reflexivity.
Qed.

Lemma queueInFront_app : forall tokensToQueue queue : list string,
  queueInFront tokensToQueue queue = tokensToQueue ++ queue.
Proof.
  intros l q. unfold queueInFront. rewrite <- fold_left_rev_right, rev_involutive.
  induction l as [|x l IH]; simpl; [reflexivity | now rewrite IH].
Qed.

Section Scanning.

Variable find : string -> string -> option (Z * Z).
Variable tokensMap : string -> option string.
Variable lexRules : list (string * string).
Variable lexRulesByConditions : string -> option (list Z).
Variable handlers : string -> option Handler.

Local Abbreviation getNextToken :=
  (Tokenizer.getNextToken find tokensMap lexRules lexRulesByConditions handlers).
Local Abbreviation nextTokens :=
  (Tokenizer.nextTokens find tokensMap lexRules lexRulesByConditions handlers).
Local Abbreviation scanRules := (Tokenizer.scanRules find tokensMap lexRules handlers).
Local Abbreviation runHandler := (Tokenizer.runHandler tokensMap handlers).
Local Abbreviation _toToken := (Tokenizer._toToken tokensMap).
Local Abbreviation selects := (Tokenizer.selects find lexRules lexRulesByConditions).
Local Abbreviation unmatched := (Tokenizer.unmatched find lexRules lexRulesByConditions).
Local Abbreviation chooses := (Runs.chooses find lexRules lexRulesByConditions).

Lemma scanRules_first :
  forall recur (before after : list Z) (i : Z) (self : Tokenizer)
         (pattern handlerName : string) (s e : Z),
    (forall j, In j before ->
       exists p h, Str.index lexRules (j + 1) = Some (p, h) /\ find (stringRestOf self) p = None) ->
    Str.index lexRules (i + 1) = Some (pattern, handlerName) ->
    find (stringRestOf self) pattern = Some (s, e) ->
    scanRules recur (stringRestOf self) (before ++ i :: after) self =
    inl (runHandler recur handlerName (Str.sub (stringRestOf self) s e)
           (matchedState (Str.sub (stringRestOf self) s e) self)).
Proof.
  intros recur before after i self pattern handlerName s e Hbefore Hi Hfind.
  induction before as [|j before IH]; simpl.
  - rewrite Hi. unfold _match. rewrite Hfind. unfold matchedState.
    destruct (Str.sub (stringRestOf self) s e); [|reflexivity].
    destruct (stringRestOf self); reflexivity.
  - destruct (Hbefore j (or_introl eq_refl)) as (p & h & Hj & Hnone).
    rewrite Hj. unfold _match. rewrite Hnone. apply IH.
    intros j' Hj'. apply Hbefore. now right.
Qed.

Lemma scanRules_none :
  forall recur (lexRulesForState : list Z) (self : Tokenizer),
    (forall j, In j lexRulesForState ->
       exists p h, Str.index lexRules (j + 1) = Some (p, h) /\ find (stringRestOf self) p = None) ->
    scanRules recur (stringRestOf self) lexRulesForState self = inr self.
Proof.
  intros recur l self H. induction l as [|j l IH]; simpl; [reflexivity|].
  destruct (H j (or_introl eq_refl)) as (p & h & Hj & Hnone).
  rewrite Hj. unfold _match. rewrite Hnone. apply IH.
  intros j' Hj'. apply H. now right.
Qed.

(** A scanning call runs the handler of the selected rule on its lexeme. *)
Lemma getNextToken_selects :
  forall (fuel : nat) (self : Tokenizer) (i : Z) (pattern handlerName : string) (s e : Z),
    selects self i pattern handlerName s e ->
    getNextToken (S fuel) self =
    runHandler (getNextToken fuel) handlerName (Str.sub (stringRestOf self) s e)
      (matchedState (Str.sub (stringRestOf self) s e) self).
Proof.
  intros fuel self i pattern handlerName s e
    (Hq & Hmore & state & before & after & Hstate & Hrules & Hbefore & Hi & Hfind).
  simpl. rewrite Hq, Hmore. simpl negb. cbv iota.
  rewrite Hstate, Hrules.
  change (Str.sub_from (_string self) (_cursor self + 1)) with (stringRestOf self).
  now rewrite (scanRules_first _ before after i self pattern handlerName s e Hbefore Hi Hfind).
Qed.

Lemma index_In : forall (A : Type) (l : list A) (i : Z) (x : A),
  Str.index l i = Some x -> In x l.
Proof.
  intros A l i x. unfold Str.index. destruct (1 <=? i); [|discriminate].
  apply nth_error_In.
Qed.

Lemma matchedState_offsets : forall (lexeme : string) (self : Tokenizer),
  _tokenStartOffset (matchedState lexeme self) = _cursor self /\
  _tokenEndOffset (matchedState lexeme self) = _cursor self + Str.len lexeme /\
  _string (matchedState lexeme self) = _string self /\
  _states (matchedState lexeme self) = _states self /\
  _tokensQueue (matchedState lexeme self) = _tokensQueue self /\
  _currentLine (matchedState lexeme self) = _currentLine self + countNewlines lexeme /\
  _cursor (matchedState lexeme self) =
    _cursor self + Str.len lexeme +
    (if (String.eqb lexeme EmptyString && String.eqb (stringRestOf self) EmptyString)%bool
     then 1 else 0).
Proof.
  intros lexeme self.
  assert (Hnl : forall m cursor line lbo,
             fst (newlines cursor m line lbo) = line + countNewlines m).
  { induction m as [|c m IH]; intros cursor line lbo; simpl; [lia|].
    destruct (Ascii.eqb c Str.nl); rewrite IH; lia. }
  unfold matchedState, _captureLocation.
  specialize (Hnl lexeme (_cursor self) (_currentLine self) (_currentLineBeginOffset self)).
  destruct (newlines (_cursor self) lexeme (_currentLine self) (_currentLineBeginOffset self))
    as [line lbo].
  simpl in Hnl. subst line.
  destruct lexeme as [|c lexeme]; [destruct (stringRestOf self)|]; simpl;
    repeat split; try reflexivity; unfold Str.len; simpl; lia.
Qed.

(** The bounds and the start line and column that [_match] records for a
    lexeme are those of the cursor before it. *)
Lemma matchedState_bounds : forall (lexeme : string) (self : Tokenizer),
  _tokenStartLine (matchedState lexeme self) = _currentLine self /\
  _tokenStartColumn (matchedState lexeme self) = _cursor self - _currentLineBeginOffset self /\
  _tokenEndLine (matchedState lexeme self) = _currentLine self + countNewlines lexeme /\
  _tokenEndColumn (matchedState lexeme self) = _currentColumn (matchedState lexeme self).
Proof.
  intros lexeme self.
  destruct (matchedState_offsets lexeme self) as (_ & _ & _ & _ & _ & Hline & _).
  revert Hline. unfold matchedState, _captureLocation.
  destruct (newlines (_cursor self) lexeme (_currentLine self) (_currentLineBeginOffset self))
    as [line lbo].
  destruct lexeme as [|c lexeme]; [destruct (stringRestOf self)|]; cbn; intros ->;
    repeat split; reflexivity.
Qed.

(** The start condition of a call is the top of the stack. *)
Lemma chooses_selects :
  forall (self : Tokenizer) (state : string) (i : Z) (pattern handlerName : string) (s e : Z),
    chooses self state i pattern handlerName s e ->
    getCurrentState self = Some state /\ selects self i pattern handlerName s e.
Proof.
  intros self state i pattern handlerName s e
    (Hq & Hmore & (below & Hstates) & before & after & Hrules & Hbefore & Hi & Hfind).
  assert (Hstate : getCurrentState self = Some state).
  { unfold getCurrentState. rewrite Hstates. apply index_last. }
  split; [exact Hstate|]. split; [exact Hq|]. split; [exact Hmore|].
  exists state, before, after. auto.
Qed.

(** C2. A call of [getNextToken] that scans new input tries the rules listed
    for the start condition on top of the stack [_states], and no others, in
    their listed order: when [state] is the top of the stack and rule [i] is
    the first rule in the list of [state] whose pattern matches the input
    left, the call runs the handler of rule [i] on its lexeme, whatever the
    rules of the other start conditions would match.  With the rules anchored
    the way the emitter writes them, the lexeme is the text of the input that
    starts exactly at the cursor. *)
Theorem first_matching_rule_anchored_at_cursor :
  forall (fuel : nat) (self : Tokenizer) (state : string) (i : Z)
         (pattern handlerName : string) (s e : Z),
    (forall str p st en, find str (String "^" p) = Some (st, en) -> st = 1) ->
    (forall p h, In (p, h) lexRules -> exists p', p = String "^" p') ->
    0 <= _cursor self ->
    chooses self state i pattern handlerName s e ->
    exists (below : list string) (lexeme post : string),
      _states self = below ++ [state] /\
      lexeme = Str.sub (stringRestOf self) s e /\
      s = 1 /\
      _string self = Str.take (Z.to_nat (_cursor self)) (_string self) +++ lexeme +++ post /\
      Str.len (Str.take (Z.to_nat (_cursor self)) (_string self)) = _cursor self /\
      _tokenStartOffset (matchedState lexeme self) = _cursor self /\
      _tokenEndOffset (matchedState lexeme self) = _cursor self + Str.len lexeme /\
      getNextToken (S fuel) self =
      runHandler (getNextToken fuel) handlerName lexeme (matchedState lexeme self).
Proof.
  intros fuel self state i pattern handlerName s e Hcaret Hanchored Hcursor Hch.
  destruct (chooses_selects self state i pattern handlerName s e Hch) as (_ & Hsel).
  pose proof (getNextToken_selects fuel self i pattern handlerName s e Hsel) as Hcall.
  destruct Hch as (Hq & Hmore & (below & Hstates) & before & after & Hrules & Hbefore & Hi & Hfind).
  destruct (Hanchored pattern handlerName (index_In _ _ _ _ Hi)) as [p' ->].
  apply Hcaret in Hfind as ->.
  destruct (sub_1_prefix (stringRestOf self) e) as [post Hpost].
  exists below, (Str.sub (stringRestOf self) 1 e), post.
  destruct (matchedState_offsets (Str.sub (stringRestOf self) 1 e) self) as (Hs & He & _).
  repeat split; try assumption.
  - rewrite <- Hpost. unfold stringRestOf. rewrite sub_from_drop by assumption.
    symmetry. apply take_drop.
  - unfold hasMoreTokens in Hmore. apply Z.leb_le in Hmore.
    unfold Str.len in *. rewrite length_take. lia.
Qed.

Lemma drain_queue : forall (fuel : nat) (queue : list string) (self : Tokenizer),
  _tokensQueue self = queue ->
  nextTokens (S fuel) (List.length queue) self =
  Ok (map (fun t => _toToken self (Some t) None) queue, set_tokensQueue [] self).
Proof.
  intros fuel queue. induction queue as [|t queue IH]; intros self Hq.
  - simpl. destruct self; simpl in *; now subst.
  - cbn [List.length Tokenizer.nextTokens Tokenizer.getNextToken]. rewrite Hq.
    rewrite (IH (set_tokensQueue queue self) eq_refl). reflexivity.
Qed.

(** C4. The handler of the matched rule leaves the cursor after the lexeme
    and the queue empty.  When it answers nothing, the lexeme is skipped: the
    call goes on with the next lexeme and answers what [getNextToken] answers
    from that state.  When the handler answers a table of token types, the
    call answers a token whose type is [tokensMap] of the first type and whose
    text is [yytext], and leaves the other types in the queue, in their
    order; the next calls, one for each queued type, answer tokens whose
    types are [tokensMap] of these types, in that order, with an empty text
    and the bounds of the same lexeme, and change nothing but the queue, so
    that the cursor stays where the lexeme ended and no input is scanned
    meanwhile. *)
Theorem handler_answers_skip_or_queue :
  forall (fuel : nat) (self : Tokenizer) (state : string) (i : Z)
         (pattern handlerName : string) (s e : Z) (h : Handler),
    chooses self state i pattern handlerName s e ->
    handlers handlerName = Some h ->
    let lexeme := Str.sub (stringRestOf self) s e in
    let scanned := matchedState lexeme self in
    let o := h lexeme (_states scanned) in
    let self' :=
      runOps (h_ops o)
        (set_yytext (h_yytext o) (set_yyleng (Str.len lexeme) (set_yytext lexeme scanned))) in
    let token := fun (tokenType text : string) =>
      Token_ {| type := tokensMap tokenType;
                value := text;
                startOffset := _cursor self;
                endOffset := _cursor self + Str.len lexeme;
                startLine := _currentLine self;
                endLine := _currentLine self + countNewlines lexeme;
                startColumn := _cursor self - _currentLineBeginOffset self;
                endColumn := _currentColumn scanned |} in
    _cursor self' =
      _cursor self + Str.len lexeme +
      (if (String.eqb lexeme EmptyString && String.eqb (stringRestOf self) EmptyString)%bool
       then 1 else 0) /\
    _tokensQueue self' = [] /\
    (h_result o = RNil ->
     getNextToken (S fuel) self = getNextToken fuel self') /\
    (forall first others,
       h_result o = RTable (first :: others) ->
       let queued := set_tokensQueue others self' in
       getNextToken (S fuel) self = Ok (token first (h_yytext o), queued) /\
       _tokensQueue queued = others /\
       _cursor queued = _cursor scanned /\
       nextTokens (S fuel) (List.length others) queued =
       Ok (map (fun t => token t EmptyString) others, set_tokensQueue [] queued) /\
       _cursor (set_tokensQueue [] queued) = _cursor scanned).
Proof.
  intros fuel self state i pattern handlerName s e h Hch Hh lexeme scanned o self' token.
  destruct (chooses_selects self state i pattern handlerName s e Hch) as (_ & Hsel).
  pose proof (getNextToken_selects fuel self i pattern handlerName s e Hsel) as Hcall.
  fold lexeme in Hcall. fold scanned in Hcall.
  unfold Tokenizer.runHandler in Hcall. rewrite Hh in Hcall.
  cbn [yytext set_yyleng set_yytext _states] in Hcall.
  fold o in Hcall. fold self' in Hcall.
  assert (Hqueue : _tokensQueue self' = []).
  { subst self'. rewrite runOps_only_states. cbn.
    subst scanned. destruct (matchedState_offsets lexeme self) as (_ & _ & _ & _ & -> & _).
    apply Hsel. }
  assert (Hyy : yytext self' = h_yytext o).
  { subst self'. rewrite runOps_only_states. reflexivity. }
  assert (Hcur : _cursor self' = _cursor scanned).
  { subst self'. rewrite runOps_only_states. reflexivity. }
  assert (Htoken : forall (others : list string) (t : string) (text : option string),
             _toToken (set_tokensQueue others self') (Some t) text =
             token t (match text with Some x => x | None => EmptyString end)).
  { intros others t text. unfold Tokenizer._toToken, token. subst self'.
    rewrite runOps_only_states.
    cbn [set_tokensQueue set_states set_yytext set_yyleng _tokenStartOffset _tokenEndOffset
         _tokenStartLine _tokenEndLine _tokenStartColumn _tokenEndColumn].
    subst scanned.
    destruct (matchedState_offsets lexeme self) as (-> & -> & _).
    destruct (matchedState_bounds lexeme self) as (-> & -> & -> & ->).
    reflexivity. }
  split; [|split; [exact Hqueue|split]].
  - rewrite Hcur. subst scanned. apply matchedState_offsets.
  - intros Hres. rewrite Hres in Hcall. exact Hcall.
  - intros first others Hres queued. rewrite Hres in Hcall.
    cbn [tl hd_error] in Hcall.
    rewrite queueInFront_app, Hqueue, app_nil_r in Hcall.
    fold queued in Hcall.
    replace (yytext queued) with (h_yytext o) in Hcall by (now rewrite <- Hyy).
    unfold queued in Hcall at 1. rewrite Htoken in Hcall.
    split; [exact Hcall|]. split; [reflexivity|]. split; [exact Hcur|].
    split; [|exact Hcur].
    rewrite (drain_queue fuel others queued eq_refl). do 2 f_equal.
    apply map_ext. intros t. unfold queued. now rewrite Htoken.
Qed.

(** Unmatched input is an error.  When the cursor is not at the end of the
    input and no rule of the current start condition matches there,
    [getNextToken] answers no token and skips nothing: it raises the error of
    [throwUnexpectedToken], whose message ends with the character at the
    cursor and with the current values of the line and column counters. *)
Theorem unmatched_input_is_an_error :
  forall (fuel : nat) (self : Tokenizer),
    unmatched self ->
    0 <= _cursor self ->
    isEOF self = false ->
    exists (c : ascii) (rest lineData : string),
      Str.drop (Z.to_nat (_cursor self)) (_string self) = String c rest /\
      getNextToken (S fuel) self =
      UnexpectedToken
        (throwUnexpectedToken self (Str.chr c) (_currentLine self) (_currentColumn self)) /\
      throwUnexpectedToken self (Str.chr c) (_currentLine self) (_currentColumn self) =
      lineData +++ "Unexpected token: " +++ Str.chr Str.dquote +++ Str.chr c
      +++ Str.chr Str.dquote +++ " at " +++ Str.of_Z (_currentLine self) +++ ":"
      +++ Str.of_Z (_currentColumn self).
Proof.
  intros fuel self (Hq & Hmore & state & rules & Hstate & Hrules & Hnone) Hcursor Heof.
  unfold hasMoreTokens in Hmore. apply Z.leb_le in Hmore.
  unfold isEOF in Heof. apply Z.eqb_neq in Heof.
  assert (Hrest : stringRestOf self = Str.drop (Z.to_nat (_cursor self)) (_string self)).
  { unfold stringRestOf. now apply sub_from_drop. }
  destruct (Str.drop (Z.to_nat (_cursor self)) (_string self)) as [|c rest] eqn:Hdrop.
  - exfalso. pose proof (length_drop (Z.to_nat (_cursor self)) (_string self)) as Hlen.
    rewrite Hdrop in Hlen. simpl in Hlen. unfold Str.len in *. lia.
  - exists c, rest. eexists. split; [reflexivity|]. split.
    + simpl. rewrite Hq. unfold hasMoreTokens.
      replace (_cursor self <=? Str.len (_string self)) with true
        by (symmetry; now apply Z.leb_le).
      simpl negb. cbv iota. rewrite Hstate, Hrules.
      change (Str.sub_from (_string self) (_cursor self + 1)) with (stringRestOf self).
      rewrite (scanRules_none _ rules self Hnone).
      unfold isEOF. replace (_cursor self =? Str.len (_string self)) with false
        by (symmetry; now apply Z.eqb_neq).
      rewrite Hrest, sub_1_1. reflexivity.
    + unfold throwUnexpectedToken. cbv zeta. reflexivity.
Qed.

End Scanning.

(** ** Locations *)

Lemma countNewlines_nonneg : forall s : string, 0 <= countNewlines s.
Proof.
  induction s as [|c s IH]; simpl; [lia|]. destruct (Ascii.eqb c Str.nl); lia.
Qed.

Lemma countNewlines_app : forall a b : string,
  countNewlines (a +++ b) = countNewlines a + countNewlines b.
Proof.
  induction a as [|c a IH]; intros b; simpl; [reflexivity|]. rewrite IH. lia.
Qed.

Lemma columnAfter_app : forall (a b : string) (col : Z),
  columnAfter col (a +++ b) = columnAfter (columnAfter col a) b.
Proof.
  induction a as [|c a IH]; intros b col; simpl; [reflexivity | apply IH].
Qed.

Lemma len_String : forall (c : ascii) (s : string), Str.len (String c s) = 1 + Str.len s.
Proof.
  intros c s. unfold Str.len. cbn [String.length]. lia.
Qed.

Lemma len_empty : Str.len EmptyString = 0.
Proof.
  reflexivity.
Qed.

Lemma columnAfter_no_newline : forall (s : string) (col : Z),
  countNewlines s = 0 -> columnAfter col s = col + Str.len s.
Proof.
  induction s as [|c s IH]; intros col H.
  - cbn [columnAfter]. rewrite len_empty. lia.
  - cbn [columnAfter countNewlines] in *. rewrite len_String.
    pose proof (countNewlines_nonneg s).
    destruct (Ascii.eqb c Str.nl); [lia|].
    rewrite IH by lia. lia.
Qed.

(** The loop over the newlines of a lexeme: the line moves on by their
    number, and the line begin offset becomes the cursor plus one as soon as
    there is one. *)
Lemma newlines_spec : forall (m : string) (cursor line lbo : Z),
  newlines cursor m line lbo =
  (line + countNewlines m, if countNewlines m =? 0 then lbo else cursor + 1).
Proof.
  induction m as [|c m IH]; intros cursor line lbo; simpl.
  - f_equal; lia.
  - pose proof (countNewlines_nonneg m).
    destruct (Ascii.eqb c Str.nl); rewrite IH.
    + replace (1 + countNewlines m =? 0) with false by (symmetry; apply Z.eqb_neq; lia).
      f_equal; [lia|]. now destruct (countNewlines m =? 0).
    + f_equal; lia.
Qed.

Lemma columnAfter_newlineOnlyFirst : forall (m : string) (col : Z),
  newlineOnlyFirst m = true ->
  columnAfter col m = if countNewlines m =? 0 then col + Str.len m else Str.len m - 1.
Proof.
  intros [|c m] col H.
  - cbn. lia.
  - cbn [newlineOnlyFirst] in H. apply Z.eqb_eq in H.
    cbn [columnAfter countNewlines]. rewrite H, len_String.
    rewrite columnAfter_no_newline by assumption.
    destruct (Ascii.eqb c Str.nl);
      [change (1 + 0 =? 0) with false | change (0 + 0 =? 0) with true]; cbv iota; lia.
Qed.

Lemma take_length_take : forall (k : nat) (d : string),
  Str.take (String.length (Str.take k d)) d = Str.take k d.
Proof.
  induction k as [|k IH]; intros [|c d]; simpl; try reflexivity.
  now rewrite IH.
Qed.

(** The text before the end of a lexeme that starts at the cursor. *)
Lemma take_cursor_lexeme : forall (s : string) (c k : nat),
  Str.take (c + String.length (Str.take k (Str.drop c s))) s =
  Str.take c s +++ Str.take k (Str.drop c s).
Proof.
  intros s c k. rewrite take_plus. now rewrite take_length_take.
Qed.

Lemma lineOf_0 : forall s : string, lineOf s 0 = 1.
Proof.
  intros s. unfold lineOf. simpl. now destruct s.
Qed.

Lemma columnOf_0 : forall s : string, columnOf s 0 = 0.
Proof.
  intros s. unfold columnOf. simpl. now destruct s.
Qed.

Lemma accurate_initString : forall s : string, accurate (initString s).
Proof.
  intros s. unfold accurate. cbn [initString _string _cursor _currentLine
    _currentLineBeginOffset _currentColumn _tokenStartOffset _tokenEndOffset
    _tokenStartLine _tokenEndLine _tokenStartColumn _tokenEndColumn].
  pose proof (len_nonneg s). rewrite Z.min_l by lia.
  unfold lineBeginOffset. rewrite lineOf_0, columnOf_0. lia.
Qed.

(** The state after a match, field by field. *)
Lemma matchedState_fields : forall (lexeme : string) (self : Tokenizer),
  let c := _cursor self in
  let lbo :=
    if countNewlines lexeme =? 0 then _currentLineBeginOffset self else c + 1 in
  let step :=
    if (String.eqb lexeme EmptyString && String.eqb (stringRestOf self) EmptyString)%bool
    then 1 else 0 in
  matchedState lexeme self =
  {| _string := _string self; _states := _states self;
     _cursor := c + Str.len lexeme + step;
     _tokensQueue := _tokensQueue self;
     _currentLine := _currentLine self + countNewlines lexeme;
     _currentColumn := c + Str.len lexeme - lbo;
     _currentLineBeginOffset := lbo;
     _tokenStartOffset := c;
     _tokenEndOffset := c + Str.len lexeme;
     _tokenStartLine := _currentLine self;
     _tokenEndLine := _currentLine self + countNewlines lexeme;
     _tokenStartColumn := c - _currentLineBeginOffset self;
     _tokenEndColumn := c + Str.len lexeme - lbo;
     yytext := yytext self; yyleng := yyleng self |}.
Proof.
  intros lexeme self c lbo step. subst c lbo step.
  unfold matchedState, _captureLocation. rewrite newlines_spec.
  destruct lexeme as [|x lexeme]; [destruct (stringRestOf self)|];
    cbn [String.eqb andb set_cursor _cursor _string _states _tokensQueue _currentLine
      _currentColumn _currentLineBeginOffset _tokenStartOffset _tokenEndOffset
      _tokenStartLine _tokenEndLine _tokenStartColumn _tokenEndColumn yytext yyleng];
    rewrite ?Z.add_0_r; reflexivity.
Qed.

(** After a lexeme that starts at the cursor and has no newline after its
    first character, the counters are accurate again and the recorded token
    bounds are those of the lexeme. *)
Lemma accurate_matchedState : forall (self : Tokenizer) (k : nat),
  let lexeme := Str.take k (Str.drop (Z.to_nat (_cursor self)) (_string self)) in
  accurate self ->
  _cursor self <= Str.len (_string self) ->
  stringRestOf self = Str.drop (Z.to_nat (_cursor self)) (_string self) ->
  newlineOnlyFirst lexeme = true ->
  accurate (matchedState lexeme self).
Proof.
  intros self k lexeme Hacc Hle Hrest Hnl.
  destruct Hacc as (Hc0 & Hline & Hlbo & Hcol & Hoff & Hend & Hsl & Hel & Hsc & Hec).
  rewrite Z.min_l in Hline, Hlbo, Hcol by assumption.
  rewrite matchedState_fields.
  set (s := _string self) in *. set (c := _cursor self) in *.
  assert (Hlen : c + Str.len lexeme <= Str.len s).
  { subst lexeme. unfold Str.len in *. rewrite length_take, length_drop. lia. }
  assert (Htake : Str.take (Z.to_nat (c + Str.len lexeme)) s =
                  Str.take (Z.to_nat c) s +++ lexeme).
  { subst lexeme. unfold Str.len.
    replace (Z.to_nat (c + Z.of_nat (String.length (Str.take k (Str.drop (Z.to_nat c) s)))))
      with (Z.to_nat c + String.length (Str.take k (Str.drop (Z.to_nat c) s)))%nat by lia.
    apply take_cursor_lexeme. }
  assert (HlineE : lineOf s (c + Str.len lexeme) = lineOf s c + countNewlines lexeme).
  { unfold lineOf. rewrite Htake, countNewlines_app. lia. }
  assert (HcolE : columnOf s (c + Str.len lexeme) = columnAfter (columnOf s c) lexeme).
  { unfold columnOf. rewrite Htake. apply columnAfter_app. }
  rewrite (columnAfter_newlineOnlyFirst lexeme _ Hnl) in HcolE.
  pose proof (len_nonneg lexeme) as Hl0.
  assert (Hstep :
    Z.min (c + Str.len lexeme +
           (if (String.eqb lexeme EmptyString && String.eqb (stringRestOf self) EmptyString)%bool
            then 1 else 0)) (Str.len s) = c + Str.len lexeme /\
    0 <= (if (String.eqb lexeme EmptyString && String.eqb (stringRestOf self) EmptyString)%bool
          then 1 else 0)).
  { destruct (String.eqb lexeme EmptyString) eqn:El; cbn [andb]; [|lia].
    destruct (String.eqb (stringRestOf self) EmptyString) eqn:Er; [|lia].
    apply String.eqb_eq in El, Er. rewrite El, len_empty.
    rewrite Hrest in Er.
    pose proof (length_drop (Z.to_nat c) s) as Hd. rewrite Er in Hd.
    cbn [String.length] in Hd. unfold Str.len in *. lia. }
  destruct Hstep as (Hmin & Hstep0).
  unfold accurate.
  cbn [_string _cursor _currentLine _currentColumn _currentLineBeginOffset _tokenStartOffset
    _tokenEndOffset _tokenStartLine _tokenEndLine _tokenStartColumn _tokenEndColumn].
  fold s. rewrite Hmin.
  unfold lineBeginOffset in *.
  rewrite HlineE, HcolE.
  pose proof (countNewlines_nonneg lexeme).
  destruct (countNewlines lexeme =? 0) eqn:E.
  - apply Z.eqb_eq in E. repeat split; lia.
  - apply Z.eqb_neq in E. repeat split; lia.
Qed.

(** ** Runs of the tokenizer *)

Lemma accurate_textState : forall a b : Tokenizer,
  textState a = textState b -> accurate a -> accurate b.
Proof.
  intros a b H. unfold textState in H.
  injection H as Hs Hc Hl Hcol Hlbo Hso Heo Hsl Hel Hsc Hec.
  unfold accurate.
  rewrite Hs, Hc, Hl, Hcol, Hlbo, Hso, Heo, Hsl, Hel, Hsc, Hec. exact (fun x => x).
Qed.

Section Runs.

Variable find : string -> string -> option (Z * Z).
Variable tokensMap : string -> option string.
Variable lexRules : list (string * string).
Variable lexRulesByConditions : string -> option (list Z).
Variable handlers : string -> option Handler.

Local Abbreviation getNextToken :=
  (Tokenizer.getNextToken find tokensMap lexRules lexRulesByConditions handlers).
Local Abbreviation nextTokens :=
  (Tokenizer.nextTokens find tokensMap lexRules lexRulesByConditions handlers).
Local Abbreviation getTokens :=
  (Tokenizer.getTokens find tokensMap lexRules lexRulesByConditions handlers).
Local Abbreviation scanRules := (Tokenizer.scanRules find tokensMap lexRules handlers).
Local Abbreviation runHandler := (Tokenizer.runHandler tokensMap handlers).
Local Abbreviation _toToken := (Tokenizer._toToken tokensMap).
Local Abbreviation forallMatches := (Tokenizer.forallMatches find lexRules).
Local Abbreviation tidy := (Tokenizer.tidy find lexRules).
Local Abbreviation progressive := (Tokenizer.progressive find lexRules).

Lemma forallMatches_spec :
  forall (s : string) (ok : Z -> Z -> string -> bool),
    forallMatches s ok = true ->
    forall (c : Z) (p h : string) (st e : Z),
      0 <= c <= Str.len s ->
      In (p, h) lexRules ->
      find (Str.sub_from s (c + 1)) p = Some (st, e) ->
      ok st e (Str.sub (Str.sub_from s (c + 1)) st e) = true.
Proof.
  intros s ok H c p h st e Hc Hin Hfind.
  unfold Tokenizer.forallMatches in H. rewrite forallb_forall in H.
  specialize (H (Z.to_nat c)).
  assert (Hseq : In (Z.to_nat c) (seq 0 (S (String.length s)))).
  { apply in_seq. unfold Str.len in Hc. lia. }
  specialize (H Hseq). rewrite forallb_forall in H.
  specialize (H (p, h) Hin). cbn [fst] in H.
  replace (Z.of_nat (Z.to_nat c)) with c in H by lia.
  now rewrite Hfind in H.
Qed.

(** The three ways the loop over the rules can end. *)
Lemma scanRules_cases :
  forall recur (lexRulesForState : list Z) (self : Tokenizer),
    scanRules recur (stringRestOf self) lexRulesForState self = inr self \/
    scanRules recur (stringRestOf self) lexRulesForState self = inl RuntimeError \/
    exists p h st e,
      In (p, h) lexRules /\
      find (stringRestOf self) p = Some (st, e) /\
      scanRules recur (stringRestOf self) lexRulesForState self =
      inl (runHandler recur h (Str.sub (stringRestOf self) st e)
             (matchedState (Str.sub (stringRestOf self) st e) self)).
Proof.
  intros recur l self. induction l as [|j l IH]; simpl.
  - now left.
  - destruct (Str.index lexRules (j + 1)) as [[p h]|] eqn:Hj; [|right; now left].
    unfold _match. destruct (find (stringRestOf self) p) as [[st e]|] eqn:Hfind.
    + right; right. exists p, h, st, e. split; [eapply index_In; eassumption|].
      split; [exact Hfind|]. unfold matchedState.
      destruct (Str.sub (stringRestOf self) st e); [|reflexivity].
      destruct (stringRestOf self); reflexivity.
    + exact IH.
Qed.

(** The ways the handler of a rule can end the call. *)
Lemma runHandler_cases :
  forall recur (h matched : string) (self : Tokenizer),
    runHandler recur h matched self = RuntimeError \/
    (exists self', textState self' = textState self /\
                   _tokensQueue self' = _tokensQueue self /\
                   runHandler recur h matched self = recur self') \/
    (exists self' ty y q,
       textState self' = textState self /\
       _tokensQueue self' = q ++ _tokensQueue self /\
       runHandler recur h matched self = Ok (_toToken self' ty y, self')).
Proof.
  intros recur h matched self. unfold Tokenizer.runHandler.
  destruct (handlers h) as [hd|]; [|now left].
  cbn [yytext set_yyleng set_yytext _states].
  set (o := hd matched (_states self)).
  set (self1 := set_yytext (h_yytext o) (set_yyleng (Str.len matched) (set_yytext matched self))).
  assert (H1 : textState (runOps (h_ops o) self1) = textState self)
    by (rewrite runOps_only_states; reflexivity).
  assert (Hq : _tokensQueue (runOps (h_ops o) self1) = _tokensQueue self)
    by (rewrite runOps_only_states; reflexivity).
  destruct (h_result o) as [|ty|tys].
  - right; left. eexists. split; [exact H1|]. split; [exact Hq | reflexivity].
  - right; right. eexists. exists (Some ty), (Some (yytext (runOps (h_ops o) self1))), [].
    split; [exact H1|]. split; [exact Hq | reflexivity].
  - right; right.
    eexists. exists (hd_error tys). eexists. exists (tl tys).
    split; [|split; [|reflexivity]].
    + rewrite <- H1. reflexivity.
    + cbn. rewrite queueInFront_app, Hq. reflexivity.
Qed.

Lemma textState_located : forall (self : Tokenizer) ty y t,
  accurate self -> _toToken self ty y = Token_ t -> located (_string self) t.
Proof.
  intros self ty y t Hacc Ht. unfold Tokenizer._toToken in Ht.
  injection Ht as <-. unfold located. cbn.
  destruct Hacc as (_ & _ & _ & _ & _ & _ & Hsl & Hel & Hsc & Hec). auto.
Qed.

(** Where every lexeme starts at the cursor and has no newline after its first
    character, accuracy is an invariant of [getNextToken] and every token
    carries the lines and columns of its offsets. *)
Lemma getNextToken_accurate :
  forall s : string,
    tidy s = true ->
    forall (fuel : nat) (self : Tokenizer) (tok : Token) (self' : Tokenizer),
      _string self = s ->
      accurate self ->
      getNextToken fuel self = Ok (tok, self') ->
      _string self' = s /\ accurate self' /\
      forall t, tok = Token_ t -> located s t.
Proof.
  intros s Htidy. induction fuel as [|fuel IH]; intros self tok self' Hs Hacc Hcall;
    [discriminate|].
  simpl in Hcall. destruct (_tokensQueue self) as [|queued rest] eqn:Hq.
  2:{ injection Hcall as <- <-. split; [exact Hs|].
      assert (Hacc' : accurate (set_tokensQueue rest self))
        by (eapply accurate_textState; [|exact Hacc]; reflexivity).
      split; [exact Hacc'|]. intros t Ht. rewrite <- Hs.
      eapply (textState_located (set_tokensQueue rest self)); eassumption. }
  destruct (hasMoreTokens self) eqn:Hmore; simpl negb in Hcall; cbv iota in Hcall.
  2:{ injection Hcall as <- <-. split; [exact Hs|]. split; [exact Hacc|].
      intros t Ht. discriminate. }
  destruct (getCurrentState self) as [state|]; [|discriminate].
  destruct (lexRulesByConditions state) as [rules|]; [|discriminate].
  change (Str.sub_from (_string self) (_cursor self + 1)) with (stringRestOf self) in Hcall.
  unfold hasMoreTokens in Hmore. apply Z.leb_le in Hmore.
  assert (Hc0 : 0 <= _cursor self) by apply Hacc.
  assert (Hrest : stringRestOf self = Str.drop (Z.to_nat (_cursor self)) (_string self))
    by (unfold stringRestOf; now apply sub_from_drop).
  destruct (scanRules_cases (getNextToken fuel) rules self)
    as [Hscan | [Hscan | (p & h & st & e & Hin & Hfind & Hscan)]];
    rewrite Hscan in Hcall.
  - destruct (isEOF self) eqn:Heof; [|discriminate].
    injection Hcall as <- <-. split; [exact Hs|]. split; [|intros t Ht; discriminate].
    unfold isEOF in Heof. apply Z.eqb_eq in Heof.
    destruct Hacc as (H0 & Hacc). rewrite Z.min_l in Hacc by lia.
    unfold accurate.
    cbn [set_cursor _string _cursor _currentLine _currentColumn _currentLineBeginOffset
      _tokenStartOffset _tokenEndOffset _tokenStartLine _tokenEndLine _tokenStartColumn
      _tokenEndColumn].
    replace (Z.min (_cursor self + 1) (Str.len (_string self))) with (_cursor self) by lia.
    split; [lia | exact Hacc].
  - discriminate.
  - pose proof (forallMatches_spec s _ Htidy (_cursor self) p h st e) as Hok.
    rewrite <- Hs in Hok at 2 3. fold (stringRestOf self) in Hok.
    rewrite <- Hs in Hok at 1. cbv beta in Hok.
    specialize (Hok (conj Hc0 Hmore) Hin Hfind).
    apply andb_prop in Hok as [Hst Hnl]. apply Z.eqb_eq in Hst. subst st.
    destruct (sub_1_take (stringRestOf self) e) as [k Hk].
    assert (Hlex : Str.sub (stringRestOf self) 1 e =
                   Str.take k (Str.drop (Z.to_nat (_cursor self)) (_string self)))
      by (rewrite Hk, Hrest; reflexivity).
    rewrite Hlex in Hnl, Hcall.
    pose proof (accurate_matchedState self k Hacc Hmore Hrest Hnl) as Hacc1.
    cbv zeta in Hacc1.
    set (lexeme := Str.take k (Str.drop (Z.to_nat (_cursor self)) (_string self))) in *.
    assert (Hs1 : _string (matchedState lexeme self) = s)
      by (rewrite <- Hs; apply matchedState_offsets).
    destruct (runHandler_cases (getNextToken fuel) h lexeme (matchedState lexeme self))
      as [Hr | [(self2 & Htxt & _ & Hr) | (self2 & ty & y & q & Htxt & _ & Hr)]];
      rewrite Hr in Hcall.
    + discriminate.
    + apply (IH self2 tok self'); try assumption.
      * unfold textState in Htxt. injection Htxt as Hstr _. congruence.
      * eapply accurate_textState; [symmetry; exact Htxt | exact Hacc1].
    + injection Hcall as <- <-.
      assert (Hs2 : _string self2 = s)
        by (unfold textState in Htxt; injection Htxt as Hstr _; congruence).
      assert (Hacc2 : accurate self2)
        by (eapply accurate_textState; [symmetry; exact Htxt | exact Hacc1]).
      split; [exact Hs2|]. split; [exact Hacc2|].
      intros t Ht. rewrite <- Hs2. eapply textState_located; eassumption.
Qed.

Lemma nextTokens_accurate :
  forall s : string,
    tidy s = true ->
    forall (fuel n : nat) (self : Tokenizer) (toks : list Token) (self' : Tokenizer),
      _string self = s ->
      accurate self ->
      nextTokens fuel n self = Ok (toks, self') ->
      forall t, In (Token_ t) toks -> located s t.
Proof.
  intros s Htidy fuel. induction n as [|n IH]; intros self toks self' Hs Hacc Hrun t Hin.
  - injection Hrun as <- <-. destruct Hin.
  - simpl in Hrun.
    destruct (getNextToken fuel self) as [[tok self1]| | |] eqn:Hcall; try discriminate.
    destruct (getNextToken_accurate s Htidy fuel self tok self1 Hs Hacc Hcall)
      as (Hs1 & Hacc1 & Hloc).
    destruct (nextTokens fuel n self1) as [[ts self2]| | |] eqn:Hrest; try discriminate.
    injection Hrun as <- <-. destruct Hin as [Hin | Hin].
    + now apply Hloc.
    + eapply IH; eassumption.
Qed.

End Runs.

(** ** Tokenizing to completion *)

Section Completion.

Variable find : string -> string -> option (Z * Z).
Variable tokensMap : string -> option string.
Variable lexRules : list (string * string).
Variable lexRulesByConditions : string -> option (list Z).
Variable handlers : string -> option Handler.

Local Abbreviation getNextToken :=
  (Tokenizer.getNextToken find tokensMap lexRules lexRulesByConditions handlers).
Local Abbreviation getTokens :=
  (Tokenizer.getTokens find tokensMap lexRules lexRulesByConditions handlers).
Local Abbreviation scanRules := (Tokenizer.scanRules find tokensMap lexRules handlers).
Local Abbreviation runHandler := (Tokenizer.runHandler tokensMap handlers).
Local Abbreviation _toToken := (Tokenizer._toToken tokensMap).
Local Abbreviation progressive := (Tokenizer.progressive find lexRules).

(** More fuel does not change an answer. *)
Lemma runHandler_mono :
  forall recur1 recur2 : Tokenizer -> Outcome (Token * Tokenizer),
    (forall x r, recur1 x = r -> r <> OutOfFuel -> recur2 x = r) ->
    forall h m self r,
      runHandler recur1 h m self = r -> r <> OutOfFuel -> runHandler recur2 h m self = r.
Proof.
  intros recur1 recur2 Hrec h m self r. unfold Tokenizer.runHandler.
  destruct (handlers h) as [hd|]; [|auto].
  destruct (h_result _); auto.
Qed.

Lemma scanRules_mono :
  forall recur1 recur2 : Tokenizer -> Outcome (Token * Tokenizer),
    (forall x r, recur1 x = r -> r <> OutOfFuel -> recur2 x = r) ->
    forall rest l self res,
      scanRules recur1 rest l self = res -> res <> inl OutOfFuel ->
      scanRules recur2 rest l self = res.
Proof.
  intros recur1 recur2 Hrec rest. induction l as [|j l IH]; intros self res; simpl.
  - auto.
  - destruct (Str.index lexRules (j + 1)) as [[p h]|]; [|auto].
    destruct (_match find self rest p) as [[m|] self1].
    + intros <- Hne. f_equal. eapply runHandler_mono; [exact Hrec | reflexivity|].
      intros E. apply Hne. now rewrite E.
    + apply IH.
Qed.

Lemma getNextToken_S : forall (fuel : nat) (self : Tokenizer),
  getNextToken (S fuel) self =
  match _tokensQueue self with
  | queued :: rest =>
      Ok (_toToken (set_tokensQueue rest self) (Some queued) None, set_tokensQueue rest self)
  | [] =>
      if negb (hasMoreTokens self) then Ok (EOF_TOKEN, self)
      else
        match getCurrentState self with
        | None => RuntimeError
        | Some state =>
            match lexRulesByConditions state with
            | None => RuntimeError
            | Some lexRulesForState =>
                match scanRules (getNextToken fuel) (stringRestOf self) lexRulesForState self with
                | inl result => result
                | inr self1 =>
                    if isEOF self1 then Ok (EOF_TOKEN, set_cursor (_cursor self1 + 1) self1)
                    else
                      UnexpectedToken
                        (throwUnexpectedToken self1 (Str.sub (stringRestOf self) 1 1)
                           (_currentLine self1) (_currentColumn self1))
                end
            end
        end
  end.
Proof.
  reflexivity.
Qed.

Lemma getNextToken_mono :
  forall (fuel : nat) (self : Tokenizer) (r : Outcome (Token * Tokenizer)),
    getNextToken fuel self = r -> r <> OutOfFuel -> getNextToken (S fuel) self = r.
Proof.
  induction fuel as [|fuel IH]; intros self r Hr Hne.
  - simpl in Hr. congruence.
  - revert Hr. rewrite (getNextToken_S (S fuel)), (getNextToken_S fuel).
    destruct (_tokensQueue self); [|auto].
    destruct (negb (hasMoreTokens self)); [auto|].
    destruct (getCurrentState self) as [state|]; [|auto].
    destruct (lexRulesByConditions state) as [rules|]; [|auto].
    destruct (scanRules (getNextToken fuel) _ rules self) as [res|self1] eqn:Hscan.
    + intros ->.
      rewrite (scanRules_mono (getNextToken fuel) (getNextToken (S fuel)) IH _ _ _ _ Hscan);
        [reflexivity | congruence].
    + rewrite (scanRules_mono (getNextToken fuel) (getNextToken (S fuel)) IH _ _ _ _ Hscan);
        [auto | discriminate].
Qed.

Lemma getNextToken_mono_le :
  forall (fuel fuel' : nat) (self : Tokenizer) (r : Outcome (Token * Tokenizer)),
    (fuel <= fuel')%nat ->
    getNextToken fuel self = r -> r <> OutOfFuel -> getNextToken fuel' self = r.
Proof.
  intros fuel fuel' self r Hle. induction Hle as [|fuel' Hle IH]; intros Hr Hne.
  - exact Hr.
  - apply getNextToken_mono; auto.
Qed.

(** Where every lexeme has a character, a call needs no more fuel than there
    are characters left. *)
Lemma getNextToken_total :
  forall s : string,
    progressive s = true ->
    forall (fuel : nat) (self : Tokenizer),
      _string self = s ->
      0 <= _cursor self ->
      (Z.to_nat (Str.len s + 1 - _cursor self) < fuel)%nat ->
      getNextToken fuel self <> OutOfFuel.
Proof.
  intros s Hprog. induction fuel as [|fuel IH]; intros self Hs Hc Hfuel; [lia|].
  cbn [Tokenizer.getNextToken].
  destruct (_tokensQueue self); [|discriminate].
  destruct (hasMoreTokens self) eqn:Hmore; cbn [negb]; [|discriminate].
  destruct (getCurrentState self) as [state|]; [|discriminate].
  destruct (lexRulesByConditions state) as [rules|]; [|discriminate].
  change (Str.sub_from (_string self) (_cursor self + 1)) with (stringRestOf self).
  unfold hasMoreTokens in Hmore. apply Z.leb_le in Hmore.
  destruct (scanRules_cases find tokensMap lexRules handlers (getNextToken fuel) rules self)
    as [Hscan | [Hscan | (p & h & st & e & Hin & Hfind & Hscan)]]; rewrite Hscan.
  - destruct (isEOF self); discriminate.
  - discriminate.
  - pose proof (forallMatches_spec find lexRules s _ Hprog (_cursor self) p h st e) as Hok.
    rewrite <- Hs in Hok at 2 3. fold (stringRestOf self) in Hok.
    rewrite <- Hs in Hok at 1. cbv beta in Hok.
    specialize (Hok (conj Hc Hmore) Hin Hfind).
    apply negb_true_iff, String.eqb_neq in Hok.
    set (lexeme := Str.sub (stringRestOf self) st e) in *.
    destruct (runHandler_cases tokensMap handlers (getNextToken fuel) h lexeme
                (matchedState lexeme self))
      as [Hr | [(self2 & Htxt & _ & Hr) | (self2 & ty & y & q & Htxt & _ & Hr)]];
      rewrite Hr; try discriminate.
    unfold textState in Htxt. injection Htxt as Hstr Hcur _.
    destruct (matchedState_offsets lexeme self) as (_ & _ & Hs1 & _ & _ & _ & Hc1).
    assert (Hl : 1 <= Str.len lexeme).
    { destruct lexeme; [congruence|]. rewrite len_String. pose proof (len_nonneg lexeme). lia. }
    rewrite Hs in Hmore.
    apply IH.
    + congruence.
    + rewrite Hcur, Hc1. destruct (_ && _)%bool; lia.
    + rewrite Hcur, Hc1. destruct (_ && _)%bool; lia.
Qed.

(** What a call does to the cursor and the queue where every lexeme has a
    character: the end of input token leaves the cursor past the end; any
    other token either comes from the queue, which gets shorter, or from
    input, in which case the cursor has moved on and is still within the
    input. *)
Lemma getNextToken_progress :
  forall s : string,
    progressive s = true ->
    forall (fuel : nat) (self : Tokenizer) (tok : Token) (self' : Tokenizer),
      _string self = s ->
      0 <= _cursor self ->
      hasMoreTokens self = true ->
      getNextToken fuel self = Ok (tok, self') ->
      _string self' = s /\ 0 <= _cursor self' /\
      (tok = EOF_TOKEN -> hasMoreTokens self' = false) /\
      (tok <> EOF_TOKEN ->
       hasMoreTokens self' = true /\
       ((_cursor self' = _cursor self /\
         (List.length (_tokensQueue self') < List.length (_tokensQueue self))%nat) \/
        _cursor self < _cursor self')).
Proof.
  intros s Hprog. induction fuel as [|fuel IH]; intros self tok self' Hs Hc Hmore Hcall;
    [discriminate|].
  cbn [Tokenizer.getNextToken] in Hcall.
  destruct (_tokensQueue self) as [|queued rest] eqn:Hq.
  2:{ injection Hcall as <- <-. split; [exact Hs|]. split; [exact Hc|].
      split; [discriminate|]. intros _. split; [exact Hmore|]. left.
      split; [reflexivity|]. cbn. lia. }
  rewrite Hmore in Hcall. cbn [negb] in Hcall.
  destruct (getCurrentState self) as [state|]; [|discriminate].
  destruct (lexRulesByConditions state) as [rules|]; [|discriminate].
  change (Str.sub_from (_string self) (_cursor self + 1)) with (stringRestOf self) in Hcall.
  unfold hasMoreTokens in Hmore. apply Z.leb_le in Hmore.
  destruct (scanRules_cases find tokensMap lexRules handlers (getNextToken fuel) rules self)
    as [Hscan | [Hscan | (p & h & st & e & Hin & Hfind & Hscan)]];
    rewrite Hscan in Hcall.
  - destruct (isEOF self) eqn:Heof; [|discriminate].
    injection Hcall as <- <-. unfold isEOF in Heof. apply Z.eqb_eq in Heof.
    split; [exact Hs|]. cbn [set_cursor _cursor _string]. split; [lia|]. split.
    + intros _. unfold hasMoreTokens. cbn [set_cursor _cursor _string]. apply Z.leb_gt. lia.
    + congruence.
  - discriminate.
  - pose proof (forallMatches_spec find lexRules s _ Hprog (_cursor self) p h st e) as Hok.
    rewrite <- Hs in Hok at 2 3. fold (stringRestOf self) in Hok.
    rewrite <- Hs in Hok at 1. cbv beta in Hok.
    specialize (Hok (conj Hc Hmore) Hin Hfind).
    apply negb_true_iff, String.eqb_neq in Hok.
    set (lexeme := Str.sub (stringRestOf self) st e) in *.
    destruct (matchedState_offsets lexeme self) as (_ & _ & Hs1 & _ & Hq1 & _ & Hc1).
    assert (Hl : 1 <= Str.len lexeme).
    { destruct lexeme; [congruence|]. rewrite len_String. pose proof (len_nonneg lexeme). lia. }
    assert (Hstep : (String.eqb lexeme EmptyString && String.eqb (stringRestOf self) EmptyString)%bool
                    = false).
    { apply andb_false_iff. left. now apply String.eqb_neq. }
    rewrite Hstep in Hc1.
    assert (Hle : _cursor self + Str.len lexeme <= Str.len s).
    { subst lexeme. unfold stringRestOf in *. rewrite sub_from_drop in * by assumption.
      pose proof (length_sub_le (Str.drop (Z.to_nat (_cursor self)) (_string self)) st e) as Hsub.
      rewrite length_drop in Hsub. unfold Str.len in *. rewrite <- Hs. lia. }
    destruct (runHandler_cases tokensMap handlers (getNextToken fuel) h lexeme
                (matchedState lexeme self))
      as [Hr | [(self2 & Htxt & Hq2 & Hr) | (self2 & ty & y & q & Htxt & Hq2 & Hr)]];
      rewrite Hr in Hcall; try discriminate;
      unfold textState in Htxt; injection Htxt as Hstr Hcur _.
    + assert (Hmore2 : hasMoreTokens self2 = true).
      { unfold hasMoreTokens. apply Z.leb_le. rewrite Hcur, Hc1, Hstr, Hs1, Hs. lia. }
      destruct (IH self2 tok self') as (Hs' & Hc' & Heof' & Htok'); try assumption.
      * congruence.
      * lia.
      * split; [exact Hs'|]. split; [exact Hc'|]. split; [exact Heof'|].
        intros Hne. destruct (Htok' Hne) as (Hm & Hcases). split; [exact Hm|].
        right. destruct Hcases as [[Heq _] | Hlt]; lia.
    + injection Hcall as <- <-.
      split; [congruence|]. split; [lia|]. split; [discriminate|].
      intros _. split.
      * unfold hasMoreTokens. apply Z.leb_le. rewrite Hcur, Hc1, Hstr, Hs1, Hs. lia.
      * right. lia.
Qed.

Lemma getTokens_mono :
  forall (fuel fuel' rounds : nat) (self : Tokenizer) (r : Outcome (list Token)),
    (fuel <= fuel')%nat ->
    getTokens fuel rounds self = r -> r <> OutOfFuel ->
    getTokens fuel' (S rounds) self = r /\ getTokens fuel' rounds self = r.
Proof.
  intros fuel fuel' rounds self r Hle. revert self r.
  induction rounds as [|rounds IH]; intros self r Hr Hne; [cbn in Hr; congruence|].
  assert (Hstep : forall rounds',
             (rounds' = S rounds \/ rounds' = rounds) ->
             (forall self1 r1, getTokens fuel rounds self1 = r1 -> r1 <> OutOfFuel ->
                               getTokens fuel' rounds' self1 = r1) ->
             getTokens fuel' (S rounds') self = r).
  { intros rounds' _ Hrec. revert Hr. cbn [Tokenizer.getTokens].
    destruct (hasMoreTokens self); [|auto].
    destruct (getNextToken fuel self) as [[t self1]| | |] eqn:Hcall; try (intros <-; congruence).
    - rewrite (getNextToken_mono_le fuel fuel' self _ Hle Hcall) by discriminate.
      destruct (getTokens fuel rounds self1) as [ts| | |] eqn:Hrest; intros <-;
        try congruence;
        rewrite (Hrec self1 _ Hrest) by discriminate; reflexivity.
    - rewrite (getNextToken_mono_le fuel fuel' self _ Hle Hcall) by discriminate.
      intros <-. reflexivity.
    - rewrite (getNextToken_mono_le fuel fuel' self _ Hle Hcall) by discriminate.
      intros <-. reflexivity. }
  split.
  - apply (Hstep (S rounds)); [now left|]. intros self1 r1 H1 H2. now apply IH.
  - apply (Hstep rounds); [now right|]. intros self1 r1 H1 H2. now apply IH.
Qed.

Lemma getTokens_mono_le :
  forall (fuel fuel' rounds rounds' : nat) (self : Tokenizer) (r : Outcome (list Token)),
    (fuel <= fuel')%nat -> (rounds <= rounds')%nat ->
    getTokens fuel rounds self = r -> r <> OutOfFuel ->
    getTokens fuel' rounds' self = r.
Proof.
  intros fuel fuel' rounds rounds' self r Hf Hr. induction Hr as [|rounds' Hr IH]; intros H Hne.
  - now apply (getTokens_mono fuel fuel' rounds self r Hf).
  - specialize (IH H Hne).
    now apply (getTokens_mono fuel' fuel' rounds' self r (Nat.le_refl _)).
Qed.

Lemma getTokens_completes :
  forall s : string,
    progressive s = true ->
    let fuel := S (Z.to_nat (Str.len s + 1)) in
    forall (a q : nat) (self : Tokenizer),
      _string self = s ->
      0 <= _cursor self ->
      hasMoreTokens self = true ->
      (Z.to_nat (Str.len s + 1 - _cursor self) <= a)%nat ->
      List.length (_tokensQueue self) = q ->
      exists rounds,
        getTokens fuel rounds self <> OutOfFuel /\
        forall toks, getTokens fuel rounds self = Ok toks -> endsWithEOF toks.
Proof.
  intros s Hprog fuel.
  induction a as [a IHa] using lt_wf_ind.
  induction q as [q IHq] using lt_wf_ind.
  intros self Hs Hc Hmore Ha Hq.
  assert (Hfuel : getNextToken fuel self <> OutOfFuel).
  { apply (getNextToken_total s Hprog); try assumption. subst fuel. lia. }
  destruct (getNextToken fuel self) as [[tok self1]| | |] eqn:Hcall; try congruence.
  - destruct (getNextToken_progress s Hprog fuel self tok self1 Hs Hc Hmore Hcall)
      as (Hs1 & Hc1 & Heof & Htok).
    destruct tok as [|t].
    + exists 2%nat. cbn [Tokenizer.getTokens]. rewrite Hmore, Hcall, (Heof eq_refl).
      split; [discriminate|]. intros toks Htoks. injection Htoks as <-.
      exists []. split; [reflexivity | intros []].
    + destruct Htok as (Hmore1 & Hcases); [discriminate|].
      assert (Hrec : exists rounds,
                 getTokens fuel rounds self1 <> OutOfFuel /\
                 forall toks, getTokens fuel rounds self1 = Ok toks -> endsWithEOF toks).
      { assert (Hle := Hmore). assert (Hle1 := Hmore1).
        unfold hasMoreTokens in Hle, Hle1. apply Z.leb_le in Hle, Hle1.
        rewrite Hs in Hle. rewrite Hs1 in Hle1.
        destruct Hcases as [[Heq Hlt] | Hlt].
        - apply (IHq (List.length (_tokensQueue self1))); try assumption; try lia.
        - apply (IHa (Z.to_nat (Str.len s + 1 - _cursor self1))) with
            (q := List.length (_tokensQueue self1)); try assumption; try lia. }
      destruct Hrec as (rounds & Hne & Hshape).
      exists (S rounds). cbn [Tokenizer.getTokens]. rewrite Hmore, Hcall.
      destruct (getTokens fuel rounds self1) as [ts| | |]; try congruence; try (split; discriminate).
      split; [discriminate|]. intros toks Htoks. injection Htoks as <-.
      destruct (Hshape ts eq_refl) as (body & -> & Hbody).
      exists (Token_ t :: body). split; [reflexivity|].
      intros [Hin | Hin]; [discriminate | contradiction].
  - exists 1%nat. cbn [Tokenizer.getTokens]. rewrite Hmore, Hcall. split; discriminate.
  - exists 1%nat. cbn [Tokenizer.getTokens]. rewrite Hmore, Hcall. split; discriminate.
Qed.

End Completion.

(** ** Locations: the statements *)

(** In Lua an anchored pattern matches at the first position only. *)
Lemma find_caret : forall (str p : string) (st en : Z),
  LuaPattern.find str (String "^" p) = Some (st, en) -> st = 1.
Proof.
  intros str p st en. unfold LuaPattern.find, LuaPattern.parse.
  change (Ascii.eqb "^" "^") with true. cbv iota.
  destruct (LuaPattern.parse_items (S (String.length p)) p) as [[its e]|]; [|discriminate].
  cbn [LuaPattern.anchored LuaPattern.items LuaPattern.to_end].
  destruct (LuaPattern.do_match its e str); [|discriminate].
  intros H. now injection H as <- _.
Qed.

(** Where the columns are right.  Lines count from 1 and columns from 0; a
    matched lexeme moves the line counter on by the number of its newline
    characters; and on an input where every match that any rule finds at any
    position starts there and has no newline after its first character, the
    start and end line of every token are the lines of its offsets and its
    start and end column are these offsets minus the begin offset of their
    line.  On the input of scenario S6 the two identifiers span (1, 0) to
    (1, 2) and (2, 0) to (2, 2). *)
Theorem token_locations_where_newlines_lead_lexemes :
  forall (find : string -> string -> option (Z * Z)) (tokensMap : string -> option string)
         (lexRules : list (string * string)) (lexRulesByConditions : string -> option (list Z))
         (handlers : string -> option Handler) (s : string),
    tidy find lexRules s = true ->
    (_currentLine (initString s) = 1 /\ _currentColumn (initString s) = 0 /\
     _tokenStartLine (initString s) = 1 /\ _tokenStartColumn (initString s) = 0) /\
    (forall self stringRest pattern lexeme self',
       _match find self stringRest pattern = (Some lexeme, self') ->
       _currentLine self' = _currentLine self + countNewlines lexeme /\
       _cursor self' = _cursor self + Str.len lexeme) /\
    (forall fuel n toks self',
       nextTokens find tokensMap lexRules lexRulesByConditions handlers fuel n (initString s)
       = Ok (toks, self') ->
       forall t, In (Token_ t) toks -> located s t) /\
    S6.getTokens 2 4 (initString S6.input) =
    Ok [Token_ {| type := S6.tokensMap "ID"; value := "ab"; startOffset := 0; endOffset := 2;
                  startLine := 1; endLine := 1; startColumn := 0; endColumn := 2 |};
        Token_ {| type := S6.tokensMap "ID"; value := "cd"; startOffset := 3; endOffset := 5;
                  startLine := 2; endLine := 2; startColumn := 0; endColumn := 2 |};
        EOF_TOKEN].
Proof.
  intros find tokensMap lexRules lexRulesByConditions handlers s Htidy.
  split; [repeat split|]. split; [|split].
  - intros self stringRest pattern lexeme self'. unfold _match.
    destruct (find stringRest pattern) as [[st e]|]; [|discriminate].
    intros H. injection H as <- <-. unfold _captureLocation. rewrite newlines_spec.
    split; reflexivity.
  - intros fuel n toks self' Hrun t Hin.
    eapply (nextTokens_accurate find tokensMap lexRules lexRulesByConditions handlers s Htidy
              fuel n (initString s)); eauto using accurate_initString.
  - vm_compute. reflexivity.
Qed.

Lemma token_locations_witness :
  tidy LuaPattern.find S6.lexRules S6.input = true /\
  forall fuel n toks self',
    nextTokens LuaPattern.find S6.tokensMap S6.lexRules S6.lexRulesByConditions S6.handlers
      fuel n (initString S6.input) = Ok (toks, self') ->
    forall t, In (Token_ t) toks -> located S6.input t.
Proof.
  split; [vm_compute; reflexivity|].
  apply (token_locations_where_newlines_lead_lexemes LuaPattern.find S6.tokensMap S6.lexRules
           S6.lexRulesByConditions S6.handlers S6.input).
  vm_compute; reflexivity.
Defined.

(** C3 fails after an empty line.  On the words [ab] and [cd] with an empty
    line between them, the white space lexeme has two newlines;
    [_captureLocation] sets the line begin offset to the cursor plus one for
    each of them, which is the offset after the first newline, and the
    identifier of line 3 gets the columns 1 to 3 although it stands at the
    begin of its line, in the columns 0 to 2: its columns are not its offsets
    minus the begin offset of its line. *)
Lemma column_after_empty_line_counterexample :
  exists t1 t2,
    S6.getTokens 2 4 (initString S6.inputBlankLine) = Ok [Token_ t1; Token_ t2; EOF_TOKEN] /\
    value t2 = "cd" /\ startLine t2 = 3 /\ startOffset t2 = 4 /\
    lineBeginOffset S6.inputBlankLine (startOffset t2) = 4 /\
    startColumn t2 = 1 /\ endColumn t2 = 3 /\ endOffset t2 = 6 /\
    startColumn t2 <> startOffset t2 - lineBeginOffset S6.inputBlankLine (startOffset t2) /\
    endColumn t2 <> endOffset t2 - lineBeginOffset S6.inputBlankLine (endOffset t2).
Proof.
  eexists. eexists. split; [vm_compute; reflexivity|].
  cbn [value startLine startOffset startColumn endColumn endOffset].
  repeat split; try (vm_compute; congruence).
Qed.

(** ** The scanning statements at work on the example tokenizers *)

(** In the start condition [comment] the rule that skips one character is
    chosen, although the rule for identifiers, which is listed for INITIAL
    only, matches the same input. *)
Lemma Comments_chooses_skip :
  Runs.chooses LuaPattern.find Comments.lexRules Comments.lexRulesByConditions
    (pushState "comment" (initString "ab")) "comment" 4 "^." "_lexRule5" 1 1.
Proof.
  split; [reflexivity|]. split; [reflexivity|]. split; [exists ["INITIAL"]; reflexivity|].
  exists [3], []. split; [reflexivity|]. split.
  - intros j [<-|[]]. exists "^%*/", "_lexRule4". split; vm_compute; reflexivity.
  - split; vm_compute; reflexivity.
Defined.

Lemma first_matching_rule_witness :
  let self := pushState "comment" (initString "ab") in
  Runs.chooses LuaPattern.find Comments.lexRules Comments.lexRulesByConditions
    self "comment" 4 "^." "_lexRule5" 1 1 /\
  Comments.lexRulesByConditions "INITIAL" = Some [0; 1; 2] /\
  LuaPattern.find (stringRestOf self) "^[a-z]+" = Some (1, 2) /\
  exists (below : list string) (lexeme post : string),
    _states self = below ++ ["comment"] /\
    lexeme = Str.sub (stringRestOf self) 1 1 /\
    1 = 1 /\
    _string self = Str.take (Z.to_nat (_cursor self)) (_string self) +++ lexeme +++ post /\
    Str.len (Str.take (Z.to_nat (_cursor self)) (_string self)) = _cursor self /\
    _tokenStartOffset (matchedState lexeme self) = _cursor self /\
    _tokenEndOffset (matchedState lexeme self) = _cursor self + Str.len lexeme /\
    Comments.getNextToken 1 self =
    runHandler Comments.tokensMap Comments.handlers (Comments.getNextToken 0) "_lexRule5" lexeme
      (matchedState lexeme self).
Proof.
  intros self.
  split; [exact Comments_chooses_skip|]. split; [reflexivity|].
  split; [vm_compute; reflexivity|].
  apply (first_matching_rule_anchored_at_cursor LuaPattern.find Comments.tokensMap
           Comments.lexRules Comments.lexRulesByConditions Comments.handlers 0 self
           "comment" 4 "^." "_lexRule5").
  - exact find_caret.
  - intros p h [H | [H | [H | [H | [H | []]]]]]; injection H as <- _; eexists; reflexivity.
  - cbn. lia.
  - exact Comments_chooses_skip.
Defined.

(** A comment between two words: the words are the tokens, and what stands
    in the comment is skipped by the rules of its start condition. *)
Example Comments_run :
  Comments.getTokens 9 4 (initString "ab/*cd*/ef") =
  Ok [Token_ {| type := Some "0"; value := "ab"; startOffset := 0; endOffset := 2;
                startLine := 1; endLine := 1; startColumn := 0; endColumn := 2 |};
      Token_ {| type := Some "0"; value := "ef"; startOffset := 8; endOffset := 10;
                startLine := 1; endLine := 1; startColumn := 8; endColumn := 10 |};
      EOF_TOKEN].
Proof.
  vm_compute. reflexivity.
Qed.

Lemma Braces_chooses_brace :
  Runs.chooses LuaPattern.find Braces.lexRules Braces.lexRulesByConditions (initString "}")
    "INITIAL" 1 "^}" "_lexRule2" 1 1.
Proof.
  split; [reflexivity|]. split; [reflexivity|]. split; [exists []; reflexivity|].
  exists [0], []. split; [reflexivity|]. split.
  - intros j [<-|[]]. exists "^%s+", "_lexRule1". split; vm_compute; reflexivity.
  - split; vm_compute; reflexivity.
Defined.

Lemma handler_answers_witness :
  let getNextToken :=
    getNextToken LuaPattern.find Braces.tokensMap Braces.lexRules Braces.lexRulesByConditions
      Braces.handlers in
  let nextTokens :=
    nextTokens LuaPattern.find Braces.tokensMap Braces.lexRules Braces.lexRulesByConditions
      Braces.handlers in
  let brace := fun (tokenType : option string) (text : string) =>
    Token_ {| type := tokenType; value := text; startOffset := 0; endOffset := 1;
              startLine := 1; endLine := 1; startColumn := 0; endColumn := 1 |} in
  Runs.chooses LuaPattern.find Braces.lexRules Braces.lexRulesByConditions (initString "}")
    "INITIAL" 1 "^}" "_lexRule2" 1 1 /\
  Braces.handlers "_lexRule2" = Some Braces._lexRule2 /\
  h_result (Braces._lexRule2 "}" ["INITIAL"]) = RTable ["RBRACE"; "SEMI"; "EOL"] /\
  Braces.tokensMap "RBRACE" = Some "0" /\
  Braces.tokensMap "SEMI" = Some "1" /\
  Braces.tokensMap "EOL" = Some "2" /\
  exists queued : Tokenizer,
    getNextToken 1%nat (initString "}") = Ok (brace (Some "0") "}", queued) /\
    _tokensQueue queued = ["SEMI"; "EOL"] /\
    _cursor queued = 1 /\
    nextTokens 1%nat 2%nat queued =
    Ok ([brace (Some "1") EmptyString; brace (Some "2") EmptyString],
        set_tokensQueue [] queued) /\
    _cursor (set_tokensQueue [] queued) = 1.
Proof.
  intros getNextToken nextTokens brace.
  split; [exact Braces_chooses_brace|]. do 5 (split; [reflexivity|]).
  destruct (handler_answers_skip_or_queue LuaPattern.find Braces.tokensMap Braces.lexRules
              Braces.lexRulesByConditions Braces.handlers 0 (initString "}") "INITIAL" 1 "^}"
              "_lexRule2" 1 1 Braces._lexRule2 Braces_chooses_brace eq_refl)
    as (_ & _ & _ & Htable).
  destruct (Htable "RBRACE" ["SEMI"; "EOL"] eq_refl) as (Hfirst & Hqueue & Hcursor & Hnext & Hend).
  eexists. split; [exact Hfirst|]. split; [exact Hqueue|]. split; [exact Hcursor|].
  split; [exact Hnext | exact Hend].
Defined.

(** The three calls on a closing brace: the brace is answered first, then
    the two queued types, with the offsets of the brace. *)
Example Braces_three_tokens :
  nextTokens LuaPattern.find Braces.tokensMap Braces.lexRules Braces.lexRulesByConditions
    Braces.handlers 1 3 (initString "}") =
  Ok ([Token_ {| type := Some "0"; value := "}"; startOffset := 0; endOffset := 1;
                 startLine := 1; endLine := 1; startColumn := 0; endColumn := 1 |};
       Token_ {| type := Some "1"; value := EmptyString; startOffset := 0; endOffset := 1;
                 startLine := 1; endLine := 1; startColumn := 0; endColumn := 1 |};
       Token_ {| type := Some "2"; value := EmptyString; startOffset := 0; endOffset := 1;
                 startLine := 1; endLine := 1; startColumn := 0; endColumn := 1 |}],
      set_tokensQueue []
        (set_yyleng 1 (set_yytext "}" (matchedState "}" (initString "}"))))).
Proof.
  vm_compute. reflexivity.
Qed.

Lemma S6_unmatched_digit :
  unmatched LuaPattern.find S6.lexRules S6.lexRulesByConditions (initString "1").
Proof.
  split; [reflexivity|]. split; [reflexivity|].
  exists "INITIAL", [0; 1]. split; [reflexivity|]. split; [reflexivity|].
  intros j [<-|[<-|[]]].
  - exists "^%s+", "_lexRule1". split; vm_compute; reflexivity.
  - exists "^[a-z]+", "_lexRule2". split; vm_compute; reflexivity.
Defined.

(** The state after the word of the input ["ab1"], where the digit is left. *)
Lemma S6_unmatched_after_word :
  unmatched LuaPattern.find S6.lexRules S6.lexRulesByConditions
    (set_yyleng 2 (set_yytext "ab" (matchedState "ab" (initString "ab1")))).
Proof.
  split; [reflexivity|]. split; [reflexivity|].
  exists "INITIAL", [0; 1]. split; [reflexivity|]. split; [reflexivity|].
  intros j [<-|[<-|[]]].
  - exists "^%s+", "_lexRule1". split; vm_compute; reflexivity.
  - exists "^[a-z]+", "_lexRule2". split; vm_compute; reflexivity.
Defined.

Lemma unmatched_input_witness :
  let self := set_yyleng 2 (set_yytext "ab" (matchedState "ab" (initString "ab1"))) in
  S6.getNextToken 1 (initString "ab1") = Ok (_toToken S6.tokensMap self (Some "ID") (Some "ab"), self) /\
  unmatched LuaPattern.find S6.lexRules S6.lexRulesByConditions self /\
  0 <= _cursor self /\
  isEOF self = false /\
  exists (c : ascii) (rest lineData : string),
    Str.drop (Z.to_nat (_cursor self)) (_string self) = String c rest /\
    S6.getNextToken 1 self =
    UnexpectedToken
      (throwUnexpectedToken self (Str.chr c) (_currentLine self) (_currentColumn self)) /\
    throwUnexpectedToken self (Str.chr c) (_currentLine self) (_currentColumn self) =
    lineData +++ "Unexpected token: " +++ Str.chr Str.dquote +++ Str.chr c
    +++ Str.chr Str.dquote +++ " at " +++ Str.of_Z (_currentLine self) +++ ":"
    +++ Str.of_Z (_currentColumn self).
Proof.
  intros self.
  split; [vm_compute; reflexivity|].
  split; [exact S6_unmatched_after_word|]. split; [vm_compute; discriminate|].
  split; [reflexivity|].
  apply (unmatched_input_is_an_error LuaPattern.find S6.tokensMap S6.lexRules
           S6.lexRulesByConditions S6.handlers 0 self).
  - exact S6_unmatched_after_word.
  - vm_compute; discriminate.
  - reflexivity.
Defined.

(** The message on the input ["ab1"]: the digit, line 1, column 2. *)
Example S6_unexpected_digit_message :
  S6.getTokens 1 4 (initString "ab1") =
  UnexpectedToken
    (Str.chr Str.nl +++ Str.chr Str.nl +++ "ab1" +++ Str.chr Str.nl +++ "  ^" +++ Str.chr Str.nl
     +++ "Unexpected token: " +++ Str.chr Str.dquote +++ "1" +++ Str.chr Str.dquote
     +++ " at 1:2").
Proof.
  vm_compute. reflexivity.
Qed.

(** C6 fails after an empty line.  On the word [ab], an empty line and the
    digit [1], which no rule matches, the error names line 3 and column 1 and
    its caret stands under column 1, although the digit is the first
    character of line 3, in column 0: the white space lexeme before it has two
    newlines, and [_captureLocation] takes the offset after the first one for
    the begin of the line. *)
Lemma unexpected_token_column_after_empty_line :
  S6.getTokens 3 4 (initString S6.inputBlankLineDigit) =
  UnexpectedToken
    (Str.chr Str.nl +++ Str.chr Str.nl +++ "1" +++ Str.chr Str.nl +++ " ^" +++ Str.chr Str.nl
     +++ "Unexpected token: " +++ Str.chr Str.dquote +++ "1" +++ Str.chr Str.dquote
     +++ " at 3:1") /\
  Str.drop 4 S6.inputBlankLineDigit = "1" /\
  lineOf S6.inputBlankLineDigit 4 = 3 /\
  columnOf S6.inputBlankLineDigit 4 = 0.
Proof.
  repeat split; vm_compute; reflexivity.
Qed.

(** ** The emitter *)

Import Emitter.

Lemma occurs_in_refl : forall x : string, Str.occurs_in x x.
Proof.
  intros x. exists EmptyString, EmptyString. cbn. now rewrite append_empty_r.
Qed.

Lemma occurs_in_append_l : forall x a b : string,
  Str.occurs_in x a -> Str.occurs_in x (a +++ b).
Proof.
  intros x a b (pre & post & ->). exists pre, (post +++ b).
  now rewrite !append_assoc.
Qed.

Lemma occurs_in_append_r : forall x a b : string,
  Str.occurs_in x b -> Str.occurs_in x (a +++ b).
Proof.
  intros x a b (pre & post & ->). exists (a +++ pre), post.
  now rewrite !append_assoc.
Qed.

(** An element of a list occurs in the [join] of the list. *)
Lemma occurs_in_join : forall (sep x : string) (l : list string),
  In x l -> Str.occurs_in x (Str.join sep l).
Proof.
  intros sep x. induction l as [|y l IH]; intros Hin; [destruct Hin|].
  destruct l as [|z l].
  - destruct Hin as [-> | []]. apply occurs_in_refl.
  - change (Str.join sep (y :: z :: l)) with (y +++ sep +++ Str.join sep (z :: l)).
    destruct Hin as [-> | Hin].
    + apply occurs_in_append_l, occurs_in_refl.
    + apply occurs_in_append_r, occurs_in_append_r, IH, Hin.
Qed.

Lemma mapi_from_app : forall (A B : Type) (f : A -> nat -> B) (l1 l2 : list A) (i : nat),
  mapi_from i f (l1 ++ l2) = mapi_from i f l1 ++ mapi_from (i + List.length l1) f l2.
Proof.
  intros A B f. induction l1 as [|x l1 IH]; intros l2 i; cbn.
  - now rewrite Nat.add_0_r.
  - rewrite IH. now rewrite Nat.add_succ_comm.
Qed.

Lemma mapi_from_nth : forall (A B : Type) (f : A -> nat -> B) (l : list A) (i k : nat) (x : A),
  nth_error l k = Some x -> In (f x (i + k)%nat) (mapi_from i f l).
Proof.
  intros A B f. induction l as [|y l IH]; intros i k x H.
  - destruct k; discriminate.
  - destruct k as [|k]; cbn in *.
    + injection H as ->. left. now rewrite Nat.add_0_r.
    + right. rewrite <- Nat.add_succ_comm. now apply IH.
Qed.

Lemma handlerDeclaration_text : forall (class_prefix name a body : string) (index : nat),
  handlerDeclaration class_prefix name {| args := a; action := body +++ ";" |} index =
  declarationText class_prefix name (index + 1) a body.
Proof.
  intros. unfold handlerDeclaration, declarationText. cbn [args action].
  now rewrite !append_assoc.
Qed.

Lemma mapi_from_map : forall (A B C : Type) (f : A -> B) (g : B -> nat -> C) (l : list A)
    (i : nat),
  mapi_from i g (map f l) = mapi_from i (fun x k => g (f x) k) l.
Proof.
  intros A B C f g. induction l as [|x l IH]; intros i; cbn; [reflexivity | now rewrite IH].
Qed.

Lemma mapi_from_ext : forall (A B : Type) (f g : A -> nat -> B) (l : list A) (i : nat),
  (forall x k, f x k = g x k) -> mapi_from i f l = mapi_from i g l.
Proof.
  intros A B f g l i H. revert i. induction l as [|x l IH]; intros i; cbn;
    [reflexivity | now rewrite H, IH].
Qed.

(** The rounds of the [map] in [generateLexRules]: one handler and one entry
    for each rule, numbered from the handlers that are there already. *)
Lemma lexRuleEntries_spec : forall (rules : list LexRule) (g : Generator),
  fst (lexRuleEntries g rules) =
    mapi_from (List.length (_lexHandlers g))
      (fun lexRule index => lexRuleText lexRule (index + 1)) rules /\
  snd (lexRuleEntries g rules) =
    set_lexHandlers
      (_lexHandlers g ++
       map (fun lexRule => {| args := EmptyString; action := getRawHandler lexRule +++ ";" |}) rules)
      g.
Proof.
  induction rules as [|lexRule rules IH]; intros g.
  - cbn. split; [reflexivity|]. rewrite app_nil_r. now destruct g.
  - cbn [lexRuleEntries lexRuleEntry].
    set (g1 := set_lexHandlers _ g).
    destruct (IH g1) as (Hfst & Hsnd).
    destruct (lexRuleEntries g1 rules) as [entries g2]. cbn [fst snd] in *.
    subst entries g2. split.
    + cbn [mapi_from]. f_equal.
      * unfold lexRuleText. subst g1. cbn [_lexHandlers set_lexHandlers].
        rewrite length_app. cbn [List.length]. reflexivity.
      * subst g1. cbn [_lexHandlers set_lexHandlers]. rewrite length_app. cbn [List.length].
        now rewrite Nat.add_1_r.
    + subst g1. unfold set_lexHandlers. cbn. now rewrite <- app_assoc.
Qed.

Section TraitFacts.

Variable Production : Type.
Variable getSemanticActionCode : Production -> option string.
Variable getSemanticActionParams : Production -> list string.
Variable getRuleIndex : LexRule -> Z.
Variable generateRawProductionsData :
  Grammar Production -> list HandlerDecl -> list (list RawItem) * list HandlerDecl.
Variable LUA_TOKENIZER_TEMPLATE : string.
Variable superSteps : list Step.

Local Abbreviation buildSemanticAction :=
  (Emitter.buildSemanticAction Production getSemanticActionCode getSemanticActionParams).
Local Abbreviation runStep :=
  (Emitter.runStep Production getRuleIndex generateRawProductionsData LUA_TOKENIZER_TEMPLATE).
Local Abbreviation generateParserData :=
  (Emitter.generateParserData Production getRuleIndex generateRawProductionsData
     LUA_TOKENIZER_TEMPLATE superSteps).
Local Abbreviation emitted :=
  (Emitter.emitted Production getRuleIndex generateRawProductionsData
     LUA_TOKENIZER_TEMPLATE superSteps).

Lemma writeData_after : forall (w : list (string * string)) (name data : string) (g : Generator),
  writeData name data (after w g) = after w (writeData name data g).
Proof.
  intros w name data g. unfold writeData, after. cbn. now rewrite app_assoc.
Qed.

Lemma generateLexRules_after : forall (w : list (string * string)) (rules : list LexRule)
    (g : Generator),
  generateLexRules rules (after w g) = after w (generateLexRules rules g).
Proof.
  intros w rules g. unfold generateLexRules.
  destruct (lexRuleEntries_spec rules (after w g)) as (Hfst & Hsnd).
  destruct (lexRuleEntries_spec rules g) as (Hfst' & Hsnd').
  destruct (lexRuleEntries (after w g) rules) as [entries g1].
  destruct (lexRuleEntries g rules) as [entries' g1'].
  cbn [fst snd] in *. subst. cbn [after _lexHandlers].
  unfold writeData, after, set_lexHandlers. cbn. now rewrite app_assoc.
Qed.

(** A step of the emitter does not read the data written so far. *)
Lemma runStep_after : forall (grammar : Grammar Production) (w : list (string * string))
    (g : Generator) (step : Step),
  runStep grammar (after w g) step = after w (runStep grammar g step).
Proof.
  intros grammar w g [] ; cbn [Emitter.runStep].
  - apply writeData_after.
  - apply writeData_after.
  - apply writeData_after.
  - apply generateLexRules_after.
  - apply writeData_after.
  - unfold Emitter.generateProductions. cbn [after _productionHandlers].
    destruct (generateRawProductionsData grammar (_productionHandlers g)) as [rows handlers].
    unfold writeData, after, set_productionHandlers. cbn. now rewrite app_assoc.
  - apply writeData_after.
Qed.

Lemma generateParserData_after : forall (grammar : Grammar Production)
    (w : list (string * string)) (g : Generator),
  generateParserData grammar (after w g) = after w (generateParserData grammar g).
Proof.
  intros grammar w g. unfold Emitter.generateParserData.
  assert (Hfold : forall steps g0,
             fold_left (runStep grammar) steps (after w g0) =
             after w (fold_left (runStep grammar) steps g0)).
  { induction steps as [|step steps IH]; intros g0; cbn [fold_left]; [reflexivity|].
    now rewrite runStep_after, IH. }
  rewrite Hfold.
  unfold generateLexHandlers, generateProductionHandlers, generateParserClassName.
  cbn [after _lexHandlers _productionHandlers _parserClassName writeData].
  unfold writeData, after. cbn. now rewrite !app_assoc.
Qed.

Lemma after_unwritten : forall g : Generator, after (written g) (unwritten g) = g.
Proof.
  intros [lh ph cn w]. unfold after, unwritten. cbn. now rewrite app_nil_r.
Qed.

Lemma skipn_length_app : forall (A : Type) (l l' : list A),
  skipn (List.length l) (l ++ l') = l'.
Proof.
  intros A. induction l as [|x l IH]; intros l'; cbn; [reflexivity | apply IH].
Qed.

(** What a run adds is what a run writes when nothing was written before. *)
Lemma emitted_unwritten : forall (grammar : Grammar Production) (g : Generator),
  emitted grammar g = written (generateParserData grammar (unwritten g)).
Proof.
  intros grammar g. unfold Emitter.emitted.
  rewrite <- (after_unwritten g) at 2. rewrite generateParserData_after.
  cbn [after written]. apply skipn_length_app.
Qed.

Lemma startConditions_text : forall grammar : Grammar Production,
  _toLuaMap (rulesByStartConditionsObject Production getRuleIndex grammar) =
  startConditionsText Production getRuleIndex grammar.
Proof.
  intros grammar. unfold rulesByStartConditionsObject, startConditionsText.
  cbn [_toLuaMap]. rewrite map_map. do 2 f_equal.
  apply (f_equal (Str.join ", ")).
  apply map_ext. intros [condition rules]. cbn [fst snd _toLuaMap].
  now rewrite map_map.
Qed.

End TraitFacts.

(** ** The command line driver *)

Import Cli.

(** The white space rule and the appended rules.  With
    [--ignore-whitespaces] and no lexical grammar at all, neither a [--lex]
    file nor a [lex] part of the grammar, the lexical grammar handed on has
    exactly one rule, the one that matches white space and has an empty
    handler.  When the grammar has lexical rules of its own and the data from
    the command line has a [rules] array, as the data of a [--lex] file has,
    the rules of the grammar are kept in their order and those from outside
    are appended after them and replace none. *)
Theorem whitespace_rule_injected_and_external_rules_appended :
  forall (dataFromGrammarFile : string -> LexGrammarData) (opts : Options),
    (ignore_whitespaces opts = true ->
     lex opts = None ->
     exists data,
       getLexGrammarData dataFromGrammarFile opts = Some data /\
       mergeLex dataFromGrammarFile None opts = Returned (Some data) /\
       rules data = Some [skipWhitespaceRule] /\
       matcher skipWhitespaceRule = "\s+" /\
       handler skipWhitespaceRule = EmptyString) /\
    (forall own ownRules,
       rules own = Some ownRules ->
       (getLexGrammarData dataFromGrammarFile opts = None ->
        mergeLex dataFromGrammarFile (Some own) opts = Returned (Some own)) /\
       (forall external externalRules,
          getLexGrammarData dataFromGrammarFile opts = Some external ->
          rules external = Some externalRules ->
          exists merged,
            mergeLex dataFromGrammarFile (Some own) opts = Returned (Some merged) /\
            rules merged = Some (ownRules ++ externalRules)) /\
       (forall c path externalRules,
          lex opts = Some (String c path) ->
          rules (dataFromGrammarFile (String c path)) = Some externalRules ->
          exists merged,
            mergeLex dataFromGrammarFile (Some own) opts = Returned (Some merged) /\
            rules merged = Some (ownRules ++ externalRules))).
Proof.
  intros dff opts. split.
  - intros Hws Hlex. unfold mergeLex, getLexGrammarData. rewrite Hws, Hlex.
    destruct (case_insensitive opts); eexists; repeat split; reflexivity.
  - intros own ownRules Hown. split; [|split].
    + intros Hnone. unfold mergeLex. now rewrite Hnone.
    + intros external externalRules Hdata Hext. unfold mergeLex.
      rewrite Hdata, Hown, Hext. eexists. split; reflexivity.
    + intros c path externalRules Hlex Hext. unfold mergeLex, getLexGrammarData.
      rewrite Hlex.
      destruct (case_insensitive opts); cbn [rules]; rewrite Hown, Hext;
        eexists; split; reflexivity.
Qed.

Lemma whitespace_rule_witness :
  let dataFromGrammarFile := fun _ : string =>
    {| rules := Some [{| startConditions := None; matcher := "\d+"; handler := "return 'NUMBER'" |}];
       options := None; others := [] |} in
  let own :=
    {| rules := Some [{| startConditions := None; matcher := "[a-z]+"; handler := "return 'ID'" |}];
       options := None; others := [] |} in
  (exists data,
     getLexGrammarData dataFromGrammarFile
       {| lex := None; ignore_whitespaces := true; case_insensitive := false |} = Some data /\
     rules data = Some [skipWhitespaceRule]) /\
  (exists merged,
     mergeLex dataFromGrammarFile (Some own)
       {| lex := Some "calc.lex"; ignore_whitespaces := false; case_insensitive := false |}
     = Returned (Some merged) /\
     rules merged =
     Some [{| startConditions := None; matcher := "[a-z]+"; handler := "return 'ID'" |};
           {| startConditions := None; matcher := "\d+"; handler := "return 'NUMBER'" |}]).
Proof.
  intros dataFromGrammarFile own. split.
  - destruct (whitespace_rule_injected_and_external_rules_appended dataFromGrammarFile
                {| lex := None; ignore_whitespaces := true; case_insensitive := false |})
      as (H & _).
    destruct (H eq_refl eq_refl) as (data & Hdata & _ & Hrules & _).
    exists data. split; assumption.
  - destruct (whitespace_rule_injected_and_external_rules_appended dataFromGrammarFile
                {| lex := Some "calc.lex"; ignore_whitespaces := false; case_insensitive := false |})
      as (_ & H).
    destruct (H own _ eq_refl) as (_ & _ & Happend).
    exact (Happend "c"%char "alc.lex" _ eq_refl eq_refl).
Defined.

(** C8 fails for [--case-insensitive] alone.  Without a [--lex] file and
    without [--ignore-whitespaces] the data [getLexGrammarData] makes for the
    flag has options and no [rules]; when the grammar has lexical rules of its
    own, [getGrammar] spreads these missing rules into [push], which raises a
    [TypeError]: the rules of the grammar are not kept, no grammar is made. *)
Lemma case_insensitive_alone_keeps_no_rules :
  let dataFromGrammarFile := fun _ : string =>
    {| rules := None; options := None; others := [] |} in
  let opts := {| lex := None; ignore_whitespaces := false; case_insensitive := true |} in
  let own :=
    {| rules := Some [{| startConditions := None; matcher := "[a-z]+";
                         handler := "return 'ID'" |}];
       options := None; others := [] |} in
  getLexGrammarData dataFromGrammarFile opts =
  Some {| rules := None; options := Some [("case-insensitive", true)]; others := [] |} /\
  mergeLex dataFromGrammarFile (Some own) opts = TypeError /\
  mergeLex dataFromGrammarFile (Some own)
    {| lex := None; ignore_whitespaces := false; case_insensitive := false |}
  = Returned (Some own).
Proof.
  repeat split; reflexivity.
Qed.

Section ValidateFacts.

Variable Production : Type.
Variable Production_eq_dec : forall a b : Production, {a = b} + {a <> b}.
Variable toFullString : Production -> string.
Variable getProduction : string -> Production.
Variable getEntryType : string -> EntryType.
Variable splitSRParts : string -> list string.
Variable bold : string -> string.
Variable red : string -> string.
Variable green : string -> string.
Variable mode : string.
Variable LALR1 : string.

Local Abbreviation recordConflict :=
  (Cli.recordConflict Production Production_eq_dec getProduction getEntryType splitSRParts).
Local Abbreviation collectConflicts :=
  (Cli.collectConflicts Production Production_eq_dec getProduction getEntryType splitSRParts).
Local Abbreviation report := (Cli.report Production toFullString bold red green mode LALR1).
Local Abbreviation srLine := (Cli.srLine Production toFullString bold).
Local Abbreviation rrLine := (Cli.rrLine Production toFullString bold).
Local Abbreviation srListed := (Cli.srListed Production Production_eq_dec).
Local Abbreviation rrListed := (Cli.rrListed Production getProduction).
Local Abbreviation extends := (Cli.extends Production Production_eq_dec getProduction).
Local Abbreviation wellFormed := (Cli.wellFormed getEntryType splitSRParts).
Local Abbreviation listed :=
  (Cli.listed Production Production_eq_dec getProduction getEntryType splitSRParts).
Local Abbreviation validateLRGrammar :=
  (Cli.validateLRGrammar Production Production_eq_dec toFullString getProduction getEntryType
     splitSRParts bold red green mode LALR1).

Lemma mapGet_mapSet_same :
  forall (K V : Type) (eq_dec : forall a b : K, {a = b} + {a <> b}) (k : K) (v : V)
         (m : list (K * V)),
    mapGet eq_dec k (mapSet eq_dec k v m) = Some v.
Proof.
  intros K V eq_dec k v. induction m as [|[k' v'] m IH]; cbn.
  - destruct (eq_dec k k); congruence.
  - destruct (eq_dec k' k) as [E|E]; cbn; destruct (eq_dec k' k); congruence.
Qed.

Lemma mapGet_mapSet_other :
  forall (K V : Type) (eq_dec : forall a b : K, {a = b} + {a <> b}) (k k0 : K) (v : V)
         (m : list (K * V)),
    k0 <> k -> mapGet eq_dec k0 (mapSet eq_dec k v m) = mapGet eq_dec k0 m.
Proof.
  intros K V eq_dec k k0 v m Hne. induction m as [|[k' v'] m IH]; cbn.
  - destruct (eq_dec k k0); congruence.
  - destruct (eq_dec k' k) as [E|E]; cbn; destruct (eq_dec k' k0); congruence.
Qed.

Lemma mapGet_In :
  forall (K V : Type) (eq_dec : forall a b : K, {a = b} + {a <> b}) (k : K) (v : V)
         (m : list (K * V)),
    mapGet eq_dec k m = Some v -> In (k, v) m.
Proof.
  intros K V eq_dec k v. induction m as [|[k' v'] m IH]; cbn; [discriminate|].
  destruct (eq_dec k' k) as [->|E]; intros H.
  - injection H as ->. now left.
  - right. now apply IH.
Qed.

Lemma extends_refl : forall c, extends c c.
Proof.
  intros c. repeat split; auto.
Qed.

Lemma extends_trans : forall c1 c2 c3, extends c1 c2 -> extends c2 c3 -> extends c1 c3.
Proof.
  intros c1 c2 c3 (A1 & B1 & C1) (A2 & B2 & C2). repeat split; auto.
Qed.

Lemma listed_extends : forall c c' entry, extends c c' -> listed c entry -> listed c' entry.
Proof.
  intros c c' entry (A & B & C) H Hres. destruct (H Hres) as (Hhas & Hl).
  split; [auto|]. destruct (getEntryType (conflict (snd entry))); auto.
  intros reducePart rest Hsplit. eauto.
Qed.

Lemma recordConflict_step : forall (c : Conflicts Production) (entry : string * SymbolConflict),
  wellFormed entry ->
  exists c', recordConflict c entry = Returned c' /\ extends c c' /\ listed c' entry.
Proof.
  intros c [symbol sc] Hwf. unfold Cli.recordConflict, wellFormed, listed in *. cbn [fst snd] in *.
  destruct (resolved sc) as [[|]|] eqn:Hres;
    try (exists c; split; [reflexivity|]; split; [apply extends_refl | discriminate]).
  destruct (Hwf eq_refl) as [(Hty & Hparts) | (Hty & r1 & r2 & rest & Hsplit)]; rewrite Hty.
  - destruct (splitSRParts (conflict sc)) as [|reducePart rest] eqn:Hsplit; [congruence|].
    eexists. split; [reflexivity|]. split.
    + repeat split; cbn [srConflicts rrConflicts hasConflicts]; auto.
      intros p s (data & Hget & Hin). unfold srListed. cbn [srConflicts].
      destruct (Production_eq_dec p (getProduction (slice1 reducePart))) as [->|Hne].
      * rewrite mapGet_mapSet_same. rewrite Hget. eexists. split; [reflexivity|].
        apply in_or_app. now left.
      * rewrite mapGet_mapSet_other by assumption. eauto.
    + intros _. split; [reflexivity|].
      intros reducePart' rest' E. injection E as <- <-.
      unfold srListed. cbn [srConflicts]. rewrite mapGet_mapSet_same.
      eexists. split; [reflexivity|]. apply in_or_app. right. now left.
  - rewrite Hsplit. eexists. split; [reflexivity|]. split.
    + repeat split; cbn [srConflicts rrConflicts hasConflicts]; auto.
      intros k (q1 & q2 & qrest & Hk & Hget). unfold rrListed. cbn [rrConflicts].
      exists q1, q2, qrest. split; [exact Hk|].
      destruct (string_dec k (conflict sc)) as [->|Hne].
      * rewrite mapGet_mapSet_same. rewrite Hsplit in Hk. now injection Hk as <- <- _.
      * now rewrite mapGet_mapSet_other.
    + intros _. split; [reflexivity|].
      unfold rrListed. cbn [rrConflicts]. exists r1, r2, rest. split; [exact Hsplit|].
      apply mapGet_mapSet_same.
Qed.

Lemma forEach_recordConflict :
  forall (l : list (string * SymbolConflict)) (c : Conflicts Production),
    Forall wellFormed l ->
    exists c', forEach recordConflict c l = Returned c' /\ extends c c' /\ Forall (listed c') l.
Proof.
  induction l as [|entry l IH]; intros c Hwf.
  - exists c. split; [reflexivity|]. split; [apply extends_refl | constructor].
  - inversion Hwf as [|? ? Hentry Hrest]; subst.
    destruct (recordConflict_step c entry Hentry) as (c1 & Hstep & Hext1 & Hlisted).
    destruct (IH c1 Hrest) as (c2 & Hloop & Hext2 & Hall).
    exists c2. cbn [forEach]. rewrite Hstep. split; [exact Hloop|].
    split; [eapply extends_trans; eassumption|].
    constructor; [eapply listed_extends; eassumption | exact Hall].
Qed.

Lemma forEach_states :
  forall (states : list (string * list (string * SymbolConflict))) (c : Conflicts Production),
    Forall (fun st => Forall wellFormed (snd st)) states ->
    exists c',
      forEach (fun acc (st : string * list (string * SymbolConflict)) =>
                 forEach recordConflict acc (snd st)) c states = Returned c' /\
      extends c c' /\
      Forall (fun st => Forall (listed c') (snd st)) states.
Proof.
  induction states as [|st states IH]; intros c Hwf.
  - exists c. split; [reflexivity|]. split; [apply extends_refl | constructor].
  - inversion Hwf as [|? ? Hst Hrest]; subst.
    destruct (forEach_recordConflict (snd st) c Hst) as (c1 & Hstep & Hext1 & Hlisted).
    destruct (IH c1 Hrest) as (c2 & Hloop & Hext2 & Hall).
    exists c2. cbn [forEach]. rewrite Hstep. split; [exact Hloop|].
    split; [eapply extends_trans; eassumption|].
    constructor; [|exact Hall].
    eapply Forall_impl; [|exact Hlisted]. intros entry. now apply listed_extends.
Qed.

Lemma numbered_In : forall (A : Type) (line : nat -> A -> string) (l : list A) (i : nat) (x : A),
  In x l -> exists k, In (line k x) (numbered line i l).
Proof.
  intros A line. induction l as [|y l IH]; intros i x Hin; [destruct Hin|].
  destruct Hin as [-> | Hin].
  - exists i. now left.
  - destruct (IH (S i) x Hin) as (k & Hk). exists k. now right.
Qed.

Lemma report_srListed : forall (c : Conflicts Production) (p : Production) (symbol : string),
  hasConflicts Production c = true ->
  srListed c p symbol ->
  exists i data, In symbol data /\ In (srLine i p data) (report c).
Proof.
  intros c p symbol Hhas (data & Hget & Hin). apply mapGet_In in Hget.
  destruct (numbered_In _ (fun i (e : Production * list string) => srLine i (fst e) (snd e))
              (srConflicts Production c) 1%nat (p, data) Hget) as (i & Hi).
  exists i, data. split; [exact Hin|].
  unfold Cli.report. rewrite Hhas. cbn [negb].
  apply in_or_app. right. apply in_or_app. left.
  destruct (srConflicts Production c) as [|e m] eqn:E; [destruct Hget|].
  apply in_or_app. right. apply in_or_app. left. exact Hi.
Qed.

Lemma report_rrListed : forall (c : Conflicts Production) (k : string),
  hasConflicts Production c = true ->
  rrListed c k ->
  exists i reduce1 reduce2 rest,
    splitSlash k = reduce1 :: reduce2 :: rest /\
    In (rrLine i (getProduction (slice1 reduce1)) (getProduction (slice1 reduce2))) (report c).
Proof.
  intros c k Hhas (r1 & r2 & rest & Hsplit & Hget). apply mapGet_In in Hget.
  destruct (numbered_In _
              (fun i (e : string * (Production * Production)) =>
                 rrLine i (fst (snd e)) (snd (snd e)))
              (rrConflicts Production c) 1%nat _ Hget) as (i & Hi).
  exists i, r1, r2, rest. split; [exact Hsplit|].
  unfold Cli.report. rewrite Hhas. cbn [negb].
  apply in_or_app. right. apply in_or_app. right. apply in_or_app. left.
  destruct (rrConflicts Production c) as [|e m] eqn:E; [destruct Hget|].
  apply in_or_app. right. apply in_or_app. left. exact Hi.
Qed.

(** C7. Validation returns what it printed and raises nothing.  For every
    unresolved shift-reduce conflict the lines printed contain a numbered line
    that names the reducing production of the conflict, in bold, and after
    [conflicts with symbols] the symbols recorded for that production, in
    bold and separated by commas, the lookahead symbol of the conflict among
    them.  For every unresolved reduce-reduce conflict they contain a
    numbered line that names the first production of the pair and, after
    [conflicts with production], the second one. *)
Theorem validate_reports_unresolved_conflicts :
  forall conflictsData : list (string * list (string * SymbolConflict)),
    (forall state symbols entry,
       In (state, symbols) conflictsData -> In entry symbols -> wellFormed entry) ->
    exists output,
      validateLRGrammar conflictsData = Returned output /\
      forall state symbols symbol symbolConflict,
        In (state, symbols) conflictsData ->
        In (symbol, symbolConflict) symbols ->
        resolved symbolConflict = Some false ->
        match getEntryType (conflict symbolConflict) with
        | SR_CONFLICT =>
            forall reducePart rest,
              splitSRParts (conflict symbolConflict) = reducePart :: rest ->
              exists (i : nat) (data : list string) (line : string),
                In symbol data /\
                In line output /\
                line =
                "  " +++ pad i +++ Str.of_nat i +++ ". Production: "
                +++ bold (toFullString (getProduction (slice1 reducePart)))
                +++ ", conflicts with symbols " +++ Str.join ", " (map bold data) +++ "." /\
                Str.occurs_in (bold symbol) (Str.join ", " (map bold data))
        | RR_CONFLICT =>
            exists (i : nat) (reduce1 reduce2 : string) (rest : list string) (line : string),
              splitSlash (conflict symbolConflict) = reduce1 :: reduce2 :: rest /\
              In line output /\
              line =
              "  " +++ pad i +++ Str.of_nat i +++ ". Production: "
              +++ bold (toFullString (getProduction (slice1 reduce1)))
              +++ ", conflicts with production "
              +++ bold (toFullString (getProduction (slice1 reduce2))) +++ "."
        | OTHER_ENTRY => True
        end.
Proof.
  intros conflictsData Hwf.
  assert (Hall : Forall (fun st : string * list (string * SymbolConflict) =>
                           Forall wellFormed (snd st)) conflictsData).
  { apply Forall_forall. intros [state symbols] Hin. apply Forall_forall.
    intros entry Hentry. eapply Hwf; eassumption. }
  destruct (forEach_states conflictsData
              {| hasConflicts := false; srConflicts := []; rrConflicts := [] |} Hall)
    as (c & Hcollect & _ & Hlisted).
  exists (report c). split.
  - unfold Cli.validateLRGrammar, Cli.collectConflicts. now rewrite Hcollect.
  - intros state symbols symbol sc Hstate Hsymbol Hres.
    rewrite Forall_forall in Hlisted. specialize (Hlisted _ Hstate). cbn [snd] in Hlisted.
    rewrite Forall_forall in Hlisted. specialize (Hlisted _ Hsymbol Hres).
    cbn [fst snd] in Hlisted. destruct Hlisted as (Hhas & Hl).
    destruct (getEntryType (conflict sc)).
    + intros reducePart rest Hsplit.
      destruct (report_srListed c (getProduction (slice1 reducePart)) symbol Hhas
                  (Hl reducePart rest Hsplit)) as (i & data & Hin & Hline).
      exists i, data, (srLine i (getProduction (slice1 reducePart)) data).
      split; [exact Hin|]. split; [exact Hline|]. split; [reflexivity|].
      apply occurs_in_join. now apply in_map.
    + destruct (report_rrListed c (conflict sc) Hhas Hl)
        as (i & r1 & r2 & rest & Hsplit & Hline).
      exists i, r1, r2, rest, (rrLine i (getProduction (slice1 r1)) (getProduction (slice1 r2))).
      split; [exact Hsplit|]. split; [exact Hline | reflexivity].
    + exact I.
Qed.

End ValidateFacts.

(** ** The emitter and the driver at work on the examples *)

(** What the run writes for the start conditions and the lexical rules of the
    calculator. *)
Example Calc_start_conditions :
  In ("LEX_RULES_BY_START_CONDITIONS", "{INITIAL = {0, 1, 2, 3}}")
     (Calc.emitted Calc.grammar (construct "calcparser")).
Proof.
  vm_compute. tauto.
Qed.

Lemma Conflicted_wellFormed :
  forall state symbols entry,
    In (state, symbols) Conflicted.conflictsData -> In entry symbols ->
    wellFormed Conflicted.getEntryType Conflicted.splitSRParts entry.
Proof.
  intros state symbols entry [H | [H | []]] Hentry; injection H as <- <-.
  - destruct Hentry as [<- | [<- | [<- | []]]]; intros Hres.
    + left. split; [reflexivity | discriminate].
    + left. split; [reflexivity | discriminate].
    + discriminate.
  - destruct Hentry as [<- | []]. intros _. right. split; [reflexivity|].
    exists "r2", "r4", []. reflexivity.
Defined.

Lemma validate_reports_witness :
  exists output,
    Conflicted.validateLRGrammar Conflicted.conflictsData = Returned output /\
    (exists (i : nat) (data : list string),
       In "*" data /\
       In ("  " +++ pad i +++ Str.of_nat i +++ ". Production: production 1"
           +++ ", conflicts with symbols " +++ Str.join ", " data +++ ".") output /\
       Str.occurs_in "*" (Str.join ", " data)) /\
    (exists i : nat,
       In ("  " +++ pad i +++ Str.of_nat i +++ ". Production: production 2"
           +++ ", conflicts with production production 4.") output).
Proof.
  destruct (validate_reports_unresolved_conflicts string string_dec Conflicted.toFullString
              Conflicted.getProduction Conflicted.getEntryType Conflicted.splitSRParts
              Conflicted.plain Conflicted.plain Conflicted.plain "SLR1" "LALR1"
              Conflicted.conflictsData Conflicted_wellFormed) as (output & Hret & Hlisted).
  exists output. split; [exact Hret|]. split.
  - destruct (Hlisted "4" _ "*" {| resolved := Some false; conflict := "s5/r1" |}
                (or_introl eq_refl) (or_intror (or_introl eq_refl)) eq_refl "r1" ["s5"] eq_refl)
      as (i & data & line & Hin & Hline & -> & Hocc).
    exists i, data. unfold Conflicted.plain in Hline, Hocc. rewrite map_id in Hline, Hocc.
    split; [exact Hin|]. split; [exact Hline | exact Hocc].
  - destruct (Hlisted "7" _ "$" {| resolved := Some false; conflict := "r2/r4" |}
                (or_intror (or_introl eq_refl)) (or_introl eq_refl) eq_refl)
      as (i & r1 & r2 & rest & line & Hsplit & Hline & ->).
    injection Hsplit as <- <- _. exists i. exact Hline.
Defined.

(** The lines of the report for these conflicts. *)
Example Conflicted_report :
  exists hint,
    Conflicted.validateLRGrammar Conflicted.conflictsData =
    Returned
      [Str.chr Str.nl +++ "Grammar has the following unresolved conflicts:" +++ Str.chr Str.nl;
       Str.chr Str.dquote +++ "Shift-reduce" +++ Str.chr Str.dquote +++ " conflicts:"
       +++ Str.chr Str.nl;
       "   1. Production: production 1, conflicts with symbols +, *.";
       EmptyString;
       Str.chr Str.dquote +++ "Reduce-reduce" +++ Str.chr Str.dquote +++ " conflicts:"
       +++ Str.chr Str.nl;
       "   1. Production: production 2, conflicts with production production 4.";
       EmptyString;
       hint].
Proof.
  eexists. vm_compute. reflexivity.
Qed.

(** ** What every call of the tokenizer keeps *)

Import Runs.

Lemma runOps_yytext : forall (ops : list StateOp) (self : Tokenizer),
  yytext (runOps ops self) = yytext self.
Proof. intros ops self. rewrite runOps_only_states. reflexivity. Qed.

Lemma runOps_tokensQueue : forall (ops : list StateOp) (self : Tokenizer),
  _tokensQueue (runOps ops self) = _tokensQueue self.
Proof. intros ops self. rewrite runOps_only_states. reflexivity. Qed.

Lemma runOps_textState : forall (ops : list StateOp) (self : Tokenizer),
  textState (runOps ops self) = textState self.
Proof. intros ops self. rewrite runOps_only_states. reflexivity. Qed.

Section Invariant.

Variable find : string -> string -> option (Z * Z).
Variable tokensMap : string -> option string.
Variable lexRules : list (string * string).
Variable lexRulesByConditions : string -> option (list Z).
Variable handlers : string -> option Handler.

Local Abbreviation getNextToken :=
  (Tokenizer.getNextToken find tokensMap lexRules lexRulesByConditions handlers).
Local Abbreviation nextTokens :=
  (Tokenizer.nextTokens find tokensMap lexRules lexRulesByConditions handlers).
Local Abbreviation scanRules := (Tokenizer.scanRules find tokensMap lexRules handlers).
Local Abbreviation runHandler := (Tokenizer.runHandler tokensMap handlers).
Local Abbreviation _toToken := (Tokenizer._toToken tokensMap).

(** What the body of [if matched then ... end] answers. *)
Lemma runHandler_answers :
  forall recur (handlerName lexeme : string) (self : Tokenizer),
    runHandler recur handlerName lexeme self =
    match handlers handlerName with
    | None => RuntimeError
    | Some h =>
        let o := h lexeme (_states self) in
        let self1 := handled h lexeme self in
        match h_result o with
        | RNil => recur self1
        | RType tokenType => Ok (_toToken self1 (Some tokenType) (Some (h_yytext o)), self1)
        | RTable tokenTypes =>
            let self2 := set_tokensQueue (tl tokenTypes ++ _tokensQueue self) self1 in
            Ok (_toToken self2 (hd_error tokenTypes) (Some (h_yytext o)), self2)
        end
    end.
Proof.
  intros recur handlerName lexeme self. unfold Tokenizer.runHandler, handled.
  destruct (handlers handlerName) as [h|]; [|reflexivity].
  cbn [yytext set_yyleng set_yytext _states]. cbv zeta.
  destruct (h_result (h lexeme (_states self))); [reflexivity| |].
  - rewrite runOps_yytext. reflexivity.
  - rewrite queueInFront_app, runOps_tokensQueue.
    cbn [yytext set_tokensQueue]. rewrite runOps_yytext. reflexivity.
Qed.

(** *** An induction principle for the calls of [getNextToken]

    A property [I] of the state that holds after a queued token is handed
    out, after the step past the end of the input, and after a lexeme is
    matched and its handler has run, holds after every call that answers; and
    so does a property [P] of the answer that holds in each of these cases. *)

Variable I : Tokenizer -> Prop.
Variable P : Token -> Tokenizer -> Prop.

Hypothesis queued_case :
  forall self queued rest,
    I self -> _tokensQueue self = queued :: rest ->
    I (set_tokensQueue rest self) /\
    P (_toToken (set_tokensQueue rest self) (Some queued) None) (set_tokensQueue rest self).

Hypothesis done_case :
  forall self,
    I self -> _tokensQueue self = [] -> hasMoreTokens self = false -> P EOF_TOKEN self.

Hypothesis end_case :
  forall self,
    I self -> _tokensQueue self = [] -> hasMoreTokens self = true -> isEOF self = true ->
    I (set_cursor (_cursor self + 1) self) /\ P EOF_TOKEN (set_cursor (_cursor self + 1) self).

Hypothesis match_case :
  forall self p handlerName st e h,
    I self -> _tokensQueue self = [] -> hasMoreTokens self = true ->
    In (p, handlerName) lexRules ->
    find (stringRestOf self) p = Some (st, e) ->
    handlers handlerName = Some h ->
    let lexeme := Str.sub (stringRestOf self) st e in
    let scanned := matchedState lexeme self in
    let o := h lexeme (_states scanned) in
    let self1 := handled h lexeme scanned in
    (h_result o = RNil -> I self1) /\
    (forall tokenType,
       h_result o = RType tokenType ->
       I self1 /\ P (_toToken self1 (Some tokenType) (Some (h_yytext o))) self1) /\
    (forall tokenTypes,
       h_result o = RTable tokenTypes ->
       let self2 := set_tokensQueue (tl tokenTypes ++ []) self1 in
       I self2 /\ P (_toToken self2 (hd_error tokenTypes) (Some (h_yytext o))) self2).

Lemma getNextToken_invariant :
  forall (fuel : nat) (self : Tokenizer) (tok : Token) (self' : Tokenizer),
    I self ->
    getNextToken fuel self = Ok (tok, self') ->
    I self' /\ P tok self'.
Proof.
  induction fuel as [|fuel IH]; intros self tok self' HI Hcall; [discriminate|].
  rewrite getNextToken_S in Hcall.
  destruct (_tokensQueue self) as [|queued rest] eqn:Hq.
  2:{ injection Hcall as <- <-. now apply queued_case. }
  destruct (hasMoreTokens self) eqn:Hmore; cbn [negb] in Hcall.
  2:{ injection Hcall as <- <-. split; [exact HI | now apply done_case]. }
  destruct (getCurrentState self) as [state|]; [|discriminate].
  destruct (lexRulesByConditions state) as [rules|]; [|discriminate].
  destruct (scanRules_cases find tokensMap lexRules handlers (getNextToken fuel) rules self)
    as [Hscan | [Hscan | (p & h & st & e & Hin & Hfind & Hscan)]];
    rewrite Hscan in Hcall.
  - destruct (isEOF self) eqn:Heof; [|discriminate].
    injection Hcall as <- <-. now apply end_case.
  - discriminate.
  - rewrite runHandler_answers in Hcall.
    destruct (handlers h) as [hd|] eqn:Hh; [|discriminate].
    pose proof (match_case self p h st e hd HI Hq Hmore Hin Hfind Hh) as Hm.
    cbv zeta in Hm, Hcall. destruct Hm as (Hnil & Htype & Htable).
    assert (Hqs : _tokensQueue (matchedState (Str.sub (stringRestOf self) st e) self) = [])
      by (rewrite <- Hq; apply matchedState_offsets).
    rewrite Hqs in Hcall.
    destruct (h_result (hd (Str.sub (stringRestOf self) st e)
                          (_states (matchedState (Str.sub (stringRestOf self) st e) self))))
      as [|tokenType|tokenTypes] eqn:Hres.
    + apply (IH _ _ _ (Hnil eq_refl) Hcall).
    + injection Hcall as <- <-. now apply Htype.
    + injection Hcall as <- <-. now apply Htable.
Qed.

(** The same for calls in a row. *)
Lemma nextTokens_invariant :
  forall (fuel n : nat) (self : Tokenizer) (toks : list Token) (self' : Tokenizer),
    I self ->
    nextTokens fuel n self = Ok (toks, self') ->
    I self' /\ forall tok, In tok toks -> exists state, P tok state.
Proof.
  intros fuel. induction n as [|n IH]; intros self toks self' HI Hrun.
  - injection Hrun as <- <-. split; [exact HI | intros tok []].
  - simpl in Hrun.
    destruct (getNextToken fuel self) as [[tok self1]| | |] eqn:Hcall; try discriminate.
    destruct (getNextToken_invariant fuel self tok self1 HI Hcall) as [HI1 HP].
    destruct (nextTokens fuel n self1) as [[ts self2]| | |] eqn:Hrest; try discriminate.
    injection Hrun as <- <-.
    destruct (IH self1 ts self2 HI1 Hrest) as [HI2 Hall].
    split; [exact HI2|]. intros t [<- | Hin]; [now exists self1 | now apply Hall].
Qed.

End Invariant.

(** ** Further properties of the generated tokenizer *)

Lemma handled_textState : forall (h : Handler) (lexeme : string) (self : Tokenizer),
  textState (handled h lexeme self) = textState self.
Proof. intros h lexeme self. unfold handled. rewrite runOps_textState. reflexivity. Qed.

Lemma handled_states : forall (h : Handler) (lexeme : string) (self : Tokenizer),
  _states self <> [] -> _states (handled h lexeme self) <> [].
Proof. intros h lexeme self H. unfold handled. now apply runOps_states_nonempty. Qed.

Lemma textState_fields : forall a b : Tokenizer,
  textState a = textState b ->
  _string a = _string b /\ _cursor a = _cursor b /\
  _currentLine a = _currentLine b /\ _currentColumn a = _currentColumn b /\
  _currentLineBeginOffset a = _currentLineBeginOffset b /\
  _tokenStartOffset a = _tokenStartOffset b /\ _tokenEndOffset a = _tokenEndOffset b /\
  _tokenStartLine a = _tokenStartLine b /\ _tokenEndLine a = _tokenEndLine b /\
  _tokenStartColumn a = _tokenStartColumn b /\ _tokenEndColumn a = _tokenEndColumn b.
Proof.
  intros a b H. unfold textState in H.
  injection H as Hs Hc Hl Hcol Hlbo Hso Heo Hsl Hel Hsc Hec. auto 12.
Qed.

(** A lexeme is no longer than the input left at the cursor. *)
Lemma lexeme_fits : forall (self : Tokenizer) (st e : Z),
  0 <= _cursor self <= Str.len (_string self) ->
  _cursor self + Str.len (Str.sub (stringRestOf self) st e) <= Str.len (_string self).
Proof.
  intros self st e Hc. unfold stringRestOf. rewrite sub_from_drop by lia.
  pose proof (length_sub_le (Str.drop (Z.to_nat (_cursor self)) (_string self)) st e) as H.
  rewrite length_drop in H. unfold Str.len in *. lia.
Qed.

(** At the end of the input nothing is left. *)
Lemma stringRestOf_empty : forall self : Tokenizer,
  0 <= _cursor self ->
  stringRestOf self = EmptyString -> Str.len (_string self) <= _cursor self.
Proof.
  intros self Hc H. unfold stringRestOf in H. rewrite sub_from_drop in H by lia.
  pose proof (length_drop (Z.to_nat (_cursor self)) (_string self)) as Hl.
  rewrite H in Hl. cbn in Hl. unfold Str.len. lia.
Qed.

Lemma eqb_empty : forall s : string, String.eqb s EmptyString = true -> s = EmptyString.
Proof. intros s H. now apply String.eqb_eq. Qed.

(** The step over the end of the input is taken only there. *)
Lemma matchedState_step : forall (lexeme : string) (self : Tokenizer),
  0 <= _cursor self <= Str.len (_string self) ->
  (_cursor (matchedState lexeme self) = _cursor self + Str.len lexeme) \/
  (_cursor (matchedState lexeme self) = Str.len (_string self) + 1 /\
   _cursor self = Str.len (_string self) /\ lexeme = EmptyString).
Proof.
  intros lexeme self Hc.
  destruct (matchedState_offsets lexeme self) as (_ & _ & _ & _ & _ & _ & Hcur).
  rewrite Hcur.
  destruct (String.eqb lexeme EmptyString) eqn:Hl; cbn [andb]; [|left; lia].
  destruct (String.eqb (stringRestOf self) EmptyString) eqn:Hr; [|left; lia].
  apply eqb_empty in Hl, Hr. subst lexeme.
  pose proof (stringRestOf_empty self (proj1 Hc) Hr). rewrite len_empty.
  right. repeat split; lia.
Qed.

(** [pushState] then [popState]: the state pushed becomes the current one,
    [popState] answers it and leaves the tokenizer as it was before the push.
    It holds on every stack a run can have, that is on a stack that is not
    empty. *)
Theorem popState_undoes_pushState :
  forall (state : string) (self : Tokenizer),
    _states self <> [] ->
    getCurrentState (pushState state self) = Some state /\
    popState (pushState state self) = (Some state, self) /\
    popState (begin state self) = (Some state, self).
Proof.
  intros state self Hne.
  assert (Hpop : popState (pushState state self) = (Some state, self)).
  { unfold popState, pushState. cbn [_states set_states].
    rewrite length_app. cbn [List.length].
    assert (Hlen : (0 < List.length (_states self))%nat)
      by (destruct (_states self); [contradiction | cbn; lia]).
    replace (1 <? Z.of_nat (List.length (_states self) + 1)) with true
      by (symmetry; apply Z.ltb_lt; lia).
    rewrite map_app. cbn [map]. rewrite last_last, removelast_last.
    destruct self; reflexivity. }
  split; [|split; [exact Hpop | exact Hpop]].
  unfold getCurrentState, pushState. cbn [_states set_states]. apply index_last.
Qed.

Lemma popState_undoes_pushState_witness :
  _states (initString "ab") <> [] /\
  getCurrentState (pushState "comment" (initString "ab")) = Some "comment" /\
  popState (pushState "comment" (initString "ab")) = (Some "comment", initString "ab") /\
  popState (begin "comment" (initString "ab")) = (Some "comment", initString "ab").
Proof.
  split; [discriminate|].
  apply (popState_undoes_pushState "comment" (initString "ab")). discriminate.
Defined.

Section TokenizerExtras.

Variable find : string -> string -> option (Z * Z).
Variable tokensMap : string -> option string.
Variable lexRules : list (string * string).
Variable lexRulesByConditions : string -> option (list Z).
Variable handlers : string -> option Handler.

Local Abbreviation getNextToken :=
  (Tokenizer.getNextToken find tokensMap lexRules lexRulesByConditions handlers).
Local Abbreviation nextTokens :=
  (Tokenizer.nextTokens find tokensMap lexRules lexRulesByConditions handlers).
Local Abbreviation scanRules := (Tokenizer.scanRules find tokensMap lexRules handlers).
Local Abbreviation _toToken := (Tokenizer._toToken tokensMap).
Local Abbreviation unmatched := (Tokenizer.unmatched find lexRules lexRulesByConditions).
Local Abbreviation anchored := (Runs.anchored find lexRules).

(** Once [getNextToken] has answered the end of input token, nothing is
    queued, [hasMoreTokens] is false, and every later call answers the end of
    input token again and leaves the tokenizer as it is. *)
Theorem end_of_input_token_is_final :
  forall (fuel : nat) (self self' : Tokenizer),
    getNextToken fuel self = Ok (EOF_TOKEN, self') ->
    _tokensQueue self' = [] /\
    hasMoreTokens self' = false /\
    forall fuel', getNextToken (S fuel') self' = Ok (EOF_TOKEN, self').
Proof.
  intros fuel self self' Hcall.
  assert (H : True /\ (EOF_TOKEN = EOF_TOKEN ->
                       _tokensQueue self' = [] /\ hasMoreTokens self' = false)).
  { apply (getNextToken_invariant find tokensMap lexRules lexRulesByConditions handlers
             (fun _ => True)
             (fun tok x => tok = EOF_TOKEN -> _tokensQueue x = [] /\ hasMoreTokens x = false)
             ) with (fuel := fuel) (self := self); try exact I; try exact Hcall.
    - intros x queued rest _ _. split; [exact I | discriminate].
    - intros x _ Hq Hmore _. now split.
    - intros x _ Hq _ Heof. split; [exact I|]. intros _. split; [exact Hq|].
      unfold isEOF in Heof. apply Z.eqb_eq in Heof.
      unfold hasMoreTokens. cbn [set_cursor _cursor _string]. apply Z.leb_gt. lia.
    - intros x p handlerName st e h _ _ _ _ _ _. cbv zeta.
      split; [intros _; exact I|].
      split; [intros ty _ | intros tys _]; (split; [exact I | discriminate]). }
  destruct H as [_ H]. destruct (H eq_refl) as [Hq Hmore].
  split; [exact Hq|]. split; [exact Hmore|].
  intros fuel'. rewrite getNextToken_S, Hq, Hmore. reflexivity.
Qed.

(** A call that answers does not change the input, does not move the cursor
    backwards and leaves a start condition on a stack that had one. *)
Theorem call_keeps_input_cursor_order_and_a_start_condition :
  forall (fuel : nat) (self : Tokenizer) (tok : Token) (self' : Tokenizer),
    getNextToken fuel self = Ok (tok, self') ->
    _string self' = _string self /\
    _cursor self <= _cursor self' /\
    (_states self <> [] -> _states self' <> []).
Proof.
  intros fuel self tok self' Hcall.
  pose (Inv := fun x : Tokenizer =>
          _string x = _string self /\ _cursor self <= _cursor x /\
          (_states self <> [] -> _states x <> [])).
  assert (H : Inv self' /\ True).
  { apply (getNextToken_invariant find tokensMap lexRules lexRulesByConditions handlers
             Inv (fun _ _ => True)) with (fuel := fuel) (self := self) (tok := tok);
      try exact Hcall.
    - intros x queued rest Hx _. split; [exact Hx | exact I].
    - intros; exact I.
    - intros x (Hs & Hc & Hst) _ _ _. split; [|exact I].
      unfold Inv. cbn [set_cursor _string _cursor _states]. repeat split; auto; lia.
    - intros x p handlerName st e h (Hs & Hc & Hst) _ _ _ _ _. cbv zeta.
      set (lexeme := Str.sub (stringRestOf x) st e).
      assert (Hh : Inv (handled h lexeme (matchedState lexeme x))).
      { destruct (textState_fields _ _ (handled_textState h lexeme (matchedState lexeme x)))
          as (Hs1 & Hc1 & _).
        destruct (matchedState_offsets lexeme x) as (_ & _ & Hs2 & Hst2 & _ & _ & Hc2).
        unfold Inv. rewrite Hs1, Hc1, Hs2, Hc2. split; [exact Hs|]. split.
        - pose proof (len_nonneg lexeme).
          destruct (String.eqb lexeme EmptyString && String.eqb (stringRestOf x) EmptyString)%bool;
            lia.
        - intros Hne. apply handled_states. rewrite Hst2. now apply Hst. }
      split; [intros _; exact Hh|].
      split; [intros ty _; split; [exact Hh | exact I]|].
      intros tys _. split; [exact Hh | exact I].
    - unfold Inv. repeat split; auto; lia. }
  exact (proj1 H).
Qed.

Lemma settled_token : forall (s : string) (self : Tokenizer) ty y t,
  settled s self -> _toToken self ty y = Token_ t -> withinText s t.
Proof.
  intros s self ty y t (_ & Ho & He & _ & Hl & _) Ht. unfold Tokenizer._toToken in Ht.
  injection Ht as <-. unfold withinText. cbn. auto.
Qed.

Lemma settled_textState : forall (s : string) (a b : Tokenizer),
  textState a = textState b -> _states b <> [] -> settled s a -> settled s b.
Proof.
  intros s a b H Hst (Hs & Ho & He & Hc & Hl & Hel & Hec & _).
  destruct (textState_fields a b H)
    as (Es & Ec & El & Ecol & _ & Eso & Eeo & Esl & Eel & _ & Eec).
  unfold settled. rewrite <- Es, <- Ec, <- El, <- Ecol, <- Eso, <- Eeo, <- Esl, <- Eel, <- Eec.
  repeat split; try tauto; try lia.
Qed.

Lemma settled_initString : forall s : string, settled s (initString s).
Proof.
  intros s. unfold settled. cbn. pose proof (len_nonneg s).
  repeat split; try lia; try discriminate.
Qed.

Lemma settled_cursor : forall (s : string) (self : Tokenizer),
  settled s self -> 0 <= _cursor self <= Str.len s + 1.
Proof. intros s self (_ & Ho & He & Hc & _). lia. Qed.

Lemma settled_matchedState : forall (s : string) (self : Tokenizer) (st e : Z),
  settled s self ->
  hasMoreTokens self = true ->
  settled s (matchedState (Str.sub (stringRestOf self) st e) self).
Proof.
  intros s self st e Hset Hmore.
  pose proof (settled_cursor s self Hset) as Hc0.
  destruct Hset as (Hs & Ho & He & Hc & Hl & Hel & Hec & Hst).
  unfold hasMoreTokens in Hmore. apply Z.leb_le in Hmore. rewrite Hs in Hmore.
  set (lexeme := Str.sub (stringRestOf self) st e).
  assert (Hfit : _cursor self + Str.len lexeme <= Str.len s)
    by (rewrite <- Hs; apply lexeme_fits; rewrite Hs; lia).
  pose proof (len_nonneg lexeme) as Hlen.
  pose proof (countNewlines_nonneg lexeme) as Hnl.
  assert (Hstep := matchedState_step lexeme self). rewrite Hs in Hstep.
  specialize (Hstep (conj (proj1 Hc0) Hmore)).
  rewrite matchedState_fields in *. cbv zeta in *.
  unfold settled.
  cbn [_string _states _cursor _currentLine _currentColumn _tokenStartOffset _tokenEndOffset
       _tokenStartLine _tokenEndLine _tokenEndColumn] in *.
  split; [exact Hs|]. split; [lia|]. split; [lia|]. split.
  - destruct Hstep as [Hstep | (Hstep & Hend & Hempty)]; [left; lia|].
    right. rewrite Hempty, len_empty in *. lia.
  - split; [lia|]. split; [reflexivity|]. split; [reflexivity | exact Hst].
Qed.

(** Every token of a run lies within the text: from the initial state on, the
    offsets of every token answered satisfy [0 <= startOffset <= endOffset <=
    #string] and its lines [1 <= startLine <= endLine]; after the run the
    cursor stands at the end of the last lexeme or one past the end of the
    input, and a start condition is left. *)
Theorem tokens_lie_within_the_text :
  forall (s : string) (fuel n : nat) (toks : list Token) (self' : Tokenizer),
    nextTokens fuel n (initString s) = Ok (toks, self') ->
    (forall t, In (Token_ t) toks -> withinText s t) /\
    settled s self' /\
    0 <= _cursor self' <= Str.len s + 1.
Proof.
  intros s fuel n toks self' Hrun.
  assert (H : settled s self' /\
              forall tok, In tok toks ->
                exists state : Tokenizer, forall t, tok = Token_ t -> withinText s t).
  { apply (nextTokens_invariant find tokensMap lexRules lexRulesByConditions handlers
             (settled s) (fun tok _ => forall t, tok = Token_ t -> withinText s t))
      with (fuel := fuel) (n := n) (self := initString s);
      try exact Hrun; try apply settled_initString.
    - intros x queued rest Hx _.
      assert (Hx' : settled s (set_tokensQueue rest x))
        by (apply (settled_textState s x); [reflexivity | apply Hx | exact Hx]).
      split; [exact Hx'|]. intros t Ht. eapply settled_token; eassumption.
    - intros x _ _ _ t Ht. discriminate.
    - intros x Hx _ Hmore Heof. split; [|intros t Ht; discriminate].
      unfold isEOF in Heof. apply Z.eqb_eq in Heof.
      destruct Hx as (Hs & Ho & He & Hc & Hl & Hel & Hec & Hst). rewrite Hs in Heof.
      unfold settled. cbn [set_cursor _string _cursor _states _currentLine _currentColumn
        _tokenStartOffset _tokenEndOffset _tokenStartLine _tokenEndLine _tokenEndColumn].
      repeat split; try tauto; try lia.
    - intros x p handlerName st e h Hx _ Hmore _ _ _. cbv zeta.
      set (lexeme := Str.sub (stringRestOf x) st e).
      pose proof (settled_matchedState s x st e Hx Hmore) as Hm. fold lexeme in Hm.
      assert (Hh : settled s (handled h lexeme (matchedState lexeme x))).
      { apply (settled_textState s (matchedState lexeme x));
          [symmetry; apply handled_textState | apply handled_states; apply Hm | exact Hm]. }
      split; [intros _; exact Hh|].
      split.
      + intros ty _. split; [exact Hh|]. intros t Ht. eapply settled_token; eassumption.
      + intros tys _.
        assert (Hq : settled s (set_tokensQueue (tl tys ++ [])
                                  (handled h lexeme (matchedState lexeme x))))
          by (apply (settled_textState s (handled h lexeme (matchedState lexeme x)));
              [reflexivity | apply Hh | exact Hh]).
        split; [exact Hq|]. intros t Ht. eapply settled_token; eassumption. }
  destruct H as [Hset Hall]. split; [|split; [exact Hset | now apply settled_cursor]].
  intros t Hin. destruct (Hall _ Hin) as [_ Ht]. now apply Ht.
Qed.

(** At the end of the input, when no rule of the current start condition
    matches the empty rest, the call answers the end of input token and steps
    past the end, so that [hasMoreTokens] is false afterwards.  For the empty
    input this is the first call. *)
Theorem end_of_input_is_answered_when_no_rule_matches :
  forall (fuel : nat) (self : Tokenizer),
    unmatched self ->
    isEOF self = true ->
    getNextToken (S fuel) self = Ok (EOF_TOKEN, set_cursor (_cursor self + 1) self) /\
    hasMoreTokens (set_cursor (_cursor self + 1) self) = false /\
    _tokensQueue (set_cursor (_cursor self + 1) self) = [].
Proof.
  intros fuel self (Hq & Hmore & state & rules & Hstate & Hrules & Hnone) Heof.
  rewrite getNextToken_S, Hq, Hmore, Hstate, Hrules. cbn [negb].
  rewrite (scanRules_none find tokensMap lexRules handlers _ rules self Hnone), Heof.
  split; [reflexivity|]. split; [|exact Hq].
  unfold isEOF in Heof. apply Z.eqb_eq in Heof.
  unfold hasMoreTokens. cbn [set_cursor _cursor _string]. apply Z.leb_gt. lia.
Qed.

End TokenizerExtras.

(** ** Lines and text of the tokens of a run *)

Lemma lineOf_after_lexeme : forall (s : string) (c k : nat),
  lineOf s (Z.of_nat c + Str.len (Str.take k (Str.drop c s))) =
  lineOf s (Z.of_nat c) + countNewlines (Str.take k (Str.drop c s)).
Proof.
  intros s c k. unfold lineOf, Str.len.
  replace (Z.to_nat (Z.of_nat c + Z.of_nat (String.length (Str.take k (Str.drop c s)))))
    with (c + String.length (Str.take k (Str.drop c s)))%nat by lia.
  rewrite take_cursor_lexeme, countNewlines_app, Nat2Z.id. lia.
Qed.

Lemma lexeme_prefix_fits : forall (s : string) (c k : nat),
  (c <= String.length s)%nat ->
  Z.of_nat c + Str.len (Str.take k (Str.drop c s)) <= Str.len s.
Proof.
  intros s c k Hc. unfold Str.len. rewrite length_take, length_drop. lia.
Qed.


Lemma linesAccurate_textState : forall (s : string) (a b : Tokenizer),
  textState a = textState b -> linesAccurate s a -> linesAccurate s b.
Proof.
  intros s a b H.
  destruct (textState_fields a b H)
    as (Es & Ec & El & _ & _ & Eso & Eeo & Esl & Eel & _ & _).
  unfold linesAccurate. rewrite Es, Ec, El, Eso, Eeo, Esl, Eel. exact (fun x => x).
Qed.

Lemma linesAccurate_initString : forall s : string, linesAccurate s (initString s).
Proof.
  intros s. unfold linesAccurate.
  cbn [initString _string _cursor _currentLine _tokenStartOffset _tokenEndOffset
       _tokenStartLine _tokenEndLine].
  pose proof (len_nonneg s).
  rewrite Z.min_l by lia. rewrite lineOf_0. repeat split; lia.
Qed.

Lemma linesAccurate_token : forall (tokensMap : string -> option string) (s : string)
    (self : Tokenizer) ty y t,
  linesAccurate s self -> _toToken tokensMap self ty y = Token_ t -> onItsLines s t.
Proof.
  intros tokensMap s self ty y t (_ & _ & _ & _ & _ & Hsl & Hel) Ht.
  unfold _toToken in Ht. injection Ht as <-. unfold onItsLines. cbn. auto.
Qed.

Lemma linesAccurate_matchedState : forall (s : string) (self : Tokenizer) (k : nat),
  let lexeme := Str.take k (Str.drop (Z.to_nat (_cursor self)) s) in
  linesAccurate s self ->
  _cursor self <= Str.len s ->
  linesAccurate s (matchedState lexeme self).
Proof.
  intros s self k lexeme (Hs & Hc0 & Hline & Ho & He & Hsl & Hel) Hmore.
  assert (Hc : Z.of_nat (Z.to_nat (_cursor self)) = _cursor self) by lia.
  assert (Hfit : _cursor self + Str.len lexeme <= Str.len s).
  { rewrite <- Hc at 1. apply lexeme_prefix_fits. unfold Str.len in Hmore. lia. }
  assert (Hafter : lineOf s (_cursor self + Str.len lexeme) =
                   lineOf s (_cursor self) + countNewlines lexeme).
  { rewrite <- Hc at 1 2. apply lineOf_after_lexeme. }
  rewrite Z.min_l in Hline by lia.
  pose proof (len_nonneg lexeme) as Hlen.
  assert (Hstep := matchedState_step lexeme self). rewrite Hs in Hstep.
  specialize (Hstep (conj Hc0 Hmore)).
  rewrite matchedState_fields in *. cbv zeta in *.
  unfold linesAccurate.
  cbn [_string _cursor _currentLine _tokenStartOffset _tokenEndOffset _tokenStartLine
       _tokenEndLine] in *.
  split; [exact Hs|].
  destruct Hstep as [Hstep | (Hstep & Hend & Hempty)].
  - rewrite Hstep. rewrite Z.min_l by lia.
    repeat split; try lia.
  - rewrite Hstep. rewrite Z.min_r by lia.
    fold lexeme in Hempty. rewrite Hempty in *. rewrite len_empty in *. cbn [countNewlines] in *.
    rewrite <- Hend. repeat split; try lia.
Qed.

Section TokenizerLines.

Variable find : string -> string -> option (Z * Z).
Variable tokensMap : string -> option string.
Variable lexRules : list (string * string).
Variable lexRulesByConditions : string -> option (list Z).
Variable handlers : string -> option Handler.

Local Abbreviation getNextToken :=
  (Tokenizer.getNextToken find tokensMap lexRules lexRulesByConditions handlers).
Local Abbreviation nextTokens :=
  (Tokenizer.nextTokens find tokensMap lexRules lexRulesByConditions handlers).
Local Abbreviation _toToken := (Tokenizer._toToken tokensMap).
Local Abbreviation anchored := (Runs.anchored find lexRules).

(** With anchored patterns a lexeme is a piece of the text at the cursor. *)
Lemma anchored_lexeme :
  forall (s : string) (self : Tokenizer) (p handlerName : string) (st e : Z),
    anchored s = true ->
    _string self = s ->
    0 <= _cursor self <= Str.len s ->
    In (p, handlerName) lexRules ->
    find (stringRestOf self) p = Some (st, e) ->
    exists k : nat,
      Str.sub (stringRestOf self) st e = Str.take k (Str.drop (Z.to_nat (_cursor self)) s).
Proof.
  intros s self p handlerName st e Hanch Hs Hc Hin Hfind.
  pose proof (forallMatches_spec find lexRules s _ Hanch (_cursor self) p handlerName st e)
    as Hok.
  rewrite <- Hs in Hok at 2 3. fold (stringRestOf self) in Hok. cbv beta in Hok.
  specialize (Hok Hc Hin Hfind). apply Z.eqb_eq in Hok. subst st.
  destruct (sub_1_take (stringRestOf self) e) as [k Hk]. exists k. rewrite Hk.
  unfold stringRestOf. rewrite sub_from_drop, Hs by lia. reflexivity.
Qed.

(** The lines of the tokens need less than their columns.  Where every match
    starts at the cursor, whatever newlines the lexemes hold, the start line
    and the end line of every token of a run are the lines of the text in
    which its start offset and its end offset lie. *)
Theorem token_lines_are_right_for_anchored_patterns :
  forall (s : string) (fuel n : nat) (toks : list Token) (self' : Tokenizer),
    anchored s = true ->
    nextTokens fuel n (initString s) = Ok (toks, self') ->
    (forall t, In (Token_ t) toks -> onItsLines s t) /\
    _currentLine self' = lineOf s (Z.min (_cursor self') (Str.len s)).
Proof.
  intros s fuel n toks self' Hanch Hrun.
  assert (H : linesAccurate s self' /\
              forall tok, In tok toks ->
                exists state : Tokenizer, forall t, tok = Token_ t -> onItsLines s t).
  { apply (nextTokens_invariant find tokensMap lexRules lexRulesByConditions handlers
             (linesAccurate s) (fun tok _ => forall t, tok = Token_ t -> onItsLines s t))
      with (fuel := fuel) (n := n) (self := initString s);
      try exact Hrun; try apply linesAccurate_initString.
    - intros x queued rest Hx _.
      assert (Hx' : linesAccurate s (set_tokensQueue rest x))
        by (apply (linesAccurate_textState s x); [reflexivity | exact Hx]).
      split; [exact Hx'|]. intros t Ht. eapply linesAccurate_token; eassumption.
    - intros x _ _ _ t Ht. discriminate.
    - intros x Hx _ Hmore Heof. split; [|intros t Ht; discriminate].
      unfold isEOF in Heof. apply Z.eqb_eq in Heof.
      destruct Hx as (Hs & Hc0 & Hline & Hrest). rewrite Hs in Heof.
      unfold linesAccurate. cbn [set_cursor _string _cursor _currentLine
        _tokenStartOffset _tokenEndOffset _tokenStartLine _tokenEndLine].
      rewrite Z.min_l in Hline by lia. rewrite Z.min_r by lia.
      split; [exact Hs|]. split; [lia|]. split; [congruence | exact Hrest].
    - intros x p handlerName st e h Hx _ Hmore Hin Hfind _. cbv zeta.
      unfold hasMoreTokens in Hmore. apply Z.leb_le in Hmore.
      assert (Hs : _string x = s) by apply Hx. rewrite Hs in Hmore.
      assert (Hc0 : 0 <= _cursor x) by apply Hx.
      destruct (anchored_lexeme s x p handlerName st e Hanch Hs (conj Hc0 Hmore) Hin Hfind)
        as [k Hk].
      rewrite Hk.
      set (lexeme := Str.take k (Str.drop (Z.to_nat (_cursor x)) s)).
      pose proof (linesAccurate_matchedState s x k Hx Hmore) as Hm. cbv zeta in Hm.
      fold lexeme in Hm.
      assert (Hh : linesAccurate s (handled h lexeme (matchedState lexeme x))).
      { apply (linesAccurate_textState s (matchedState lexeme x));
          [symmetry; apply handled_textState | exact Hm]. }
      split; [intros _; exact Hh|].
      split.
      + intros ty _. split; [exact Hh|]. intros t Ht. eapply linesAccurate_token; eassumption.
      + intros tys _.
        assert (Hq : linesAccurate s (set_tokensQueue (tl tys ++ [])
                                        (handled h lexeme (matchedState lexeme x))))
          by (apply (linesAccurate_textState s (handled h lexeme (matchedState lexeme x)));
              [reflexivity | exact Hh]).
        split; [exact Hq|]. intros t Ht. eapply linesAccurate_token; eassumption. }
  destruct H as [Hacc Hall]. split; [|apply Hacc].
  intros t Hin. destruct (Hall _ Hin) as [_ Ht]. now apply Ht.
Qed.


End TokenizerLines.

(** ** The further properties at work on the tokenizer of scenario S6 *)

Lemma end_of_input_token_is_final_witness :
  exists self',
    S6.getNextToken 1 (initString EmptyString) = Ok (EOF_TOKEN, self') /\
    _tokensQueue self' = [] /\
    hasMoreTokens self' = false /\
    forall fuel', S6.getNextToken (S fuel') self' = Ok (EOF_TOKEN, self').
Proof.
  eexists. split; [vm_compute; reflexivity|].
  apply (end_of_input_token_is_final LuaPattern.find S6.tokensMap S6.lexRules
           S6.lexRulesByConditions S6.handlers 1 (initString EmptyString)).
  vm_compute; reflexivity.
Defined.

Lemma call_keeps_input_cursor_order_witness :
  exists tok self',
    S6.getNextToken 1 (initString S6.input) = Ok (tok, self') /\
    _string self' = _string (initString S6.input) /\
    _cursor (initString S6.input) <= _cursor self' /\
    (_states (initString S6.input) <> [] -> _states self' <> []).
Proof.
  eexists. eexists. split; [vm_compute; reflexivity|].
  eapply (call_keeps_input_cursor_order_and_a_start_condition LuaPattern.find S6.tokensMap
           S6.lexRules S6.lexRulesByConditions S6.handlers 1 (initString S6.input)).
  vm_compute; reflexivity.
Defined.

Lemma tokens_lie_within_the_text_witness :
  exists toks self',
    nextTokens LuaPattern.find S6.tokensMap S6.lexRules S6.lexRulesByConditions S6.handlers
      2 3 (initString S6.input) = Ok (toks, self') /\
    (forall t, In (Token_ t) toks -> withinText S6.input t) /\
    settled S6.input self' /\
    0 <= _cursor self' <= Str.len S6.input + 1.
Proof.
  eexists. eexists. split; [vm_compute; reflexivity|].
  apply (tokens_lie_within_the_text LuaPattern.find S6.tokensMap S6.lexRules
           S6.lexRulesByConditions S6.handlers S6.input 2 3).
  vm_compute; reflexivity.
Defined.

Lemma S6_unmatched_at_the_end :
  unmatched LuaPattern.find S6.lexRules S6.lexRulesByConditions (initString EmptyString).
Proof.
  split; [reflexivity|]. split; [reflexivity|].
  exists "INITIAL", [0; 1]. split; [reflexivity|]. split; [reflexivity|].
  intros j [<-|[<-|[]]].
  - exists "^%s+", "_lexRule1". split; vm_compute; reflexivity.
  - exists "^[a-z]+", "_lexRule2". split; vm_compute; reflexivity.
Defined.

Lemma end_of_input_is_answered_witness :
  unmatched LuaPattern.find S6.lexRules S6.lexRulesByConditions (initString EmptyString) /\
  isEOF (initString EmptyString) = true /\
  S6.getNextToken 1 (initString EmptyString) =
  Ok (EOF_TOKEN, set_cursor (_cursor (initString EmptyString) + 1) (initString EmptyString)) /\
  hasMoreTokens (set_cursor (_cursor (initString EmptyString) + 1) (initString EmptyString))
  = false /\
  _tokensQueue (set_cursor (_cursor (initString EmptyString) + 1) (initString EmptyString)) = [].
Proof.
  split; [exact S6_unmatched_at_the_end|]. split; [reflexivity|].
  apply (end_of_input_is_answered_when_no_rule_matches LuaPattern.find S6.tokensMap S6.lexRules
           S6.lexRulesByConditions S6.handlers 0 (initString EmptyString)).
  - exact S6_unmatched_at_the_end.
  - reflexivity.
Defined.

(** The lines are right on the input with the empty line, where the columns
    are not. *)
Lemma token_lines_witness :
  anchored LuaPattern.find S6.lexRules S6.inputBlankLine = true /\
  exists toks self',
    nextTokens LuaPattern.find S6.tokensMap S6.lexRules S6.lexRulesByConditions S6.handlers
      2 3 (initString S6.inputBlankLine) = Ok (toks, self') /\
    (forall t, In (Token_ t) toks -> onItsLines S6.inputBlankLine t) /\
    _currentLine self' =
    lineOf S6.inputBlankLine (Z.min (_cursor self') (Str.len S6.inputBlankLine)).
Proof.
  split; [vm_compute; reflexivity|].
  eexists. eexists. split; [vm_compute; reflexivity|].
  apply (token_lines_are_right_for_anchored_patterns LuaPattern.find S6.tokensMap S6.lexRules
           S6.lexRulesByConditions S6.handlers S6.inputBlankLine 2 3).
  - vm_compute; reflexivity.
  - vm_compute; reflexivity.
Defined.



(** ** The line quoted by the error of [throwUnexpectedToken] *)

Lemma len_rep_space : forall n : Z, 0 <= n -> Str.len (Str.rep " " n) = n.
Proof.
  intros n Hn. unfold Str.rep, Str.len.
  assert (H : forall k : nat,
             String.length (Nat.iter k (String.append " ") EmptyString) = k)
    by (induction k as [|k IH]; [reflexivity|];
        rewrite Nat.iter_succ, length_append, IH; reflexivity).
  rewrite H. lia.
Qed.

(** The first piece of the split begins with what was collected so far. *)
Lemma split_lines_aux_head : forall (s cur : string),
  exists tail more, Str.split_lines_aux cur s = (cur +++ tail) :: more.
Proof.
  induction s as [|a r IH]; intros cur; cbn [Str.split_lines_aux].
  - exists EmptyString, []. now rewrite append_empty_r.
  - destruct (Ascii.eqb a Str.nl).
    + exists EmptyString. eexists. rewrite append_empty_r. reflexivity.
    + destruct (IH (cur +++ Str.chr a)) as (tail & more & H).
      exists (String a tail), more. rewrite H, append_assoc. reflexivity.
Qed.

(** The piece with the number of the line of a character holds the character,
    at the column of the character. *)
Lemma split_lines_aux_at : forall (s cur : string) (n : nat) (c : ascii) (rest : string),
  Str.drop n s = String c rest ->
  c <> Str.nl ->
  exists pre post,
    nth_error (Str.split_lines_aux cur s) (Z.to_nat (countNewlines (Str.take n s))) =
    Some (pre +++ String c post) /\
    Str.len pre = columnAfter (Str.len cur) (Str.take n s).
Proof.
  induction s as [|a r IH]; intros cur n c rest Hdrop Hc.
  - destruct n; discriminate.
  - destruct n as [|n].
    + cbn in Hdrop. injection Hdrop as -> ->. cbn [Str.take countNewlines columnAfter].
      cbn [Str.split_lines_aux].
      replace (Ascii.eqb c Str.nl) with false by (symmetry; now apply Ascii.eqb_neq).
      destruct (split_lines_aux_head rest (cur +++ Str.chr c)) as (tail & more & H).
      exists cur, tail. rewrite H. cbn. rewrite append_assoc. split; reflexivity.
    + cbn [Str.drop] in Hdrop. cbn [Str.take countNewlines columnAfter Str.split_lines_aux].
      pose proof (countNewlines_nonneg (Str.take n r)) as Hnn.
      destruct (Ascii.eqb a Str.nl).
      * destruct (IH EmptyString n c rest Hdrop Hc) as (pre & post & Hnth & Hlen).
        exists pre, post.
        replace (Z.to_nat (1 + countNewlines (Str.take n r)))
          with (S (Z.to_nat (countNewlines (Str.take n r)))) by lia.
        cbn [nth_error]. split; [exact Hnth|]. rewrite Hlen, len_empty. reflexivity.
      * destruct (IH (cur +++ Str.chr a) n c rest Hdrop Hc) as (pre & post & Hnth & Hlen).
        exists pre, post. rewrite Z.add_0_l. split; [exact Hnth|].
        rewrite Hlen, len_append. reflexivity.
Qed.

Section TokenizerMessage.

Variable find : string -> string -> option (Z * Z).
Variable tokensMap : string -> option string.
Variable lexRules : list (string * string).
Variable lexRulesByConditions : string -> option (list Z).
Variable handlers : string -> option Handler.

Local Abbreviation getNextToken :=
  (Tokenizer.getNextToken find tokensMap lexRules lexRulesByConditions handlers).
Local Abbreviation unmatched := (Tokenizer.unmatched find lexRules lexRulesByConditions).

(** The error of an unmatched character shows where it stands.  When the
    counters of the tokenizer agree with the text and no rule matches at a
    character [c] other than a newline, the message quotes the line of the
    text on which [c] stands, [c] is the character of that line at the
    current column, and the line below it holds as many spaces as the
    column and then the caret, which so stands under [c]. *)
Theorem unexpected_token_message_points_at_the_symbol :
  forall (fuel : nat) (self : Tokenizer) (c : ascii) (rest : string),
    unmatched self ->
    accurate self ->
    Str.drop (Z.to_nat (_cursor self)) (_string self) = String c rest ->
    c <> Str.nl ->
    exists pre post pad : string,
      Str.index (Str.split_lines (_string self)) (lineOf (_string self) (_cursor self)) =
      Some (pre +++ String c post) /\
      Str.len pre = _currentColumn self /\
      _currentColumn self = columnOf (_string self) (_cursor self) /\
      pad = Str.rep " " (_currentColumn self) /\
      Str.len pad = Str.len pre /\
      getNextToken (S fuel) self =
      UnexpectedToken
        ((Str.chr Str.nl +++ Str.chr Str.nl +++ (pre +++ String c post) +++ Str.chr Str.nl
          +++ pad +++ "^" +++ Str.chr Str.nl)
         +++ "Unexpected token: " +++ Str.chr Str.dquote +++ Str.chr c +++ Str.chr Str.dquote
         +++ " at " +++ Str.of_Z (lineOf (_string self) (_cursor self)) +++ ":"
         +++ Str.of_Z (columnOf (_string self) (_cursor self))).
Proof.
  intros fuel self c rest (Hq & Hmore & state & rules & Hstate & Hrules & Hnone) Hacc Hdrop Hc.
  destruct Hacc as (Hc0 & Hline & _ & Hcol & _).
  assert (Hlt : _cursor self < Str.len (_string self)).
  { pose proof (length_drop (Z.to_nat (_cursor self)) (_string self)) as Hl.
    rewrite Hdrop in Hl. cbn [String.length] in Hl. unfold Str.len. lia. }
  rewrite Z.min_l in Hline, Hcol by lia.
  destruct (split_lines_aux_at (_string self) EmptyString (Z.to_nat (_cursor self)) c rest
              Hdrop Hc) as (pre & post & Hnth & Hlen).
  rewrite len_empty in Hlen. fold (columnOf (_string self) (_cursor self)) in Hlen.
  assert (Hindex : Str.index (Str.split_lines (_string self))
                     (lineOf (_string self) (_cursor self)) = Some (pre +++ String c post)).
  { unfold Str.index, lineOf, Str.split_lines.
    pose proof (countNewlines_nonneg (Str.take (Z.to_nat (_cursor self)) (_string self))).
    replace (1 <=? 1 + countNewlines (Str.take (Z.to_nat (_cursor self)) (_string self)))
      with true by (symmetry; apply Z.leb_le; lia).
    replace (Z.to_nat (1 + countNewlines (Str.take (Z.to_nat (_cursor self)) (_string self)) - 1))
      with (Z.to_nat (countNewlines (Str.take (Z.to_nat (_cursor self)) (_string self))))
      by lia.
    exact Hnth. }
  exists pre, post, (Str.rep " " (_currentColumn self)).
  split; [exact Hindex|]. split; [congruence|]. split; [exact Hcol|]. split; [reflexivity|].
  split.
  - rewrite len_rep_space; [congruence|]. rewrite Hcol, <- Hlen. apply len_nonneg.
  - rewrite getNextToken_S, Hq, Hmore, Hstate, Hrules. cbn [negb].
    rewrite (scanRules_none find tokensMap lexRules handlers _ rules self Hnone).
    replace (isEOF self) with false
      by (symmetry; unfold isEOF; apply Z.eqb_neq; lia).
    unfold throwUnexpectedToken. cbv zeta.
    rewrite Hline, Hindex, <- Hcol.
    unfold stringRestOf. rewrite sub_from_drop by lia. rewrite Hdrop, sub_1_1.
    reflexivity.
Qed.

End TokenizerMessage.

Lemma unexpected_token_message_witness :
  unmatched LuaPattern.find S6.lexRules S6.lexRulesByConditions (initString "1") /\
  accurate (initString "1") /\
  Str.drop (Z.to_nat (_cursor (initString "1"))) (_string (initString "1")) =
  String "1" EmptyString /\
  "1"%char <> Str.nl /\
  exists pre post pad : string,
    Str.index (Str.split_lines (_string (initString "1")))
      (lineOf (_string (initString "1")) (_cursor (initString "1"))) =
    Some (pre +++ String "1" post) /\
    Str.len pre = _currentColumn (initString "1") /\
    _currentColumn (initString "1") =
    columnOf (_string (initString "1")) (_cursor (initString "1")) /\
    pad = Str.rep " " (_currentColumn (initString "1")) /\
    Str.len pad = Str.len pre /\
    S6.getNextToken 1 (initString "1") =
    UnexpectedToken
      ((Str.chr Str.nl +++ Str.chr Str.nl +++ (pre +++ String "1" post) +++ Str.chr Str.nl
        +++ pad +++ "^" +++ Str.chr Str.nl)
       +++ "Unexpected token: " +++ Str.chr Str.dquote +++ Str.chr "1" +++ Str.chr Str.dquote
       +++ " at " +++ Str.of_Z (lineOf (_string (initString "1")) (_cursor (initString "1")))
       +++ ":"
       +++ Str.of_Z (columnOf (_string (initString "1")) (_cursor (initString "1")))).
Proof.
  split; [exact S6_unmatched_digit|]. split; [apply accurate_initString|].
  split; [reflexivity|]. split; [discriminate|].
  apply (unexpected_token_message_points_at_the_symbol LuaPattern.find S6.tokensMap S6.lexRules
           S6.lexRulesByConditions S6.handlers 0 (initString "1") "1" EmptyString).
  - exact S6_unmatched_digit.
  - apply accurate_initString.
  - reflexivity.
  - discriminate.
Defined.

(** ** The cases of a scanning call *)

Section TokenizerCases.

Variable find : string -> string -> option (Z * Z).
Variable tokensMap : string -> option string.
Variable lexRules : list (string * string).
Variable lexRulesByConditions : string -> option (list Z).
Variable handlers : string -> option Handler.

Local Abbreviation getNextToken :=
  (Tokenizer.getNextToken find tokensMap lexRules lexRulesByConditions handlers).
Local Abbreviation selects := (Tokenizer.selects find lexRules lexRulesByConditions).
Local Abbreviation unmatched := (Tokenizer.unmatched find lexRules lexRulesByConditions).

Lemma first_match_or_none :
  forall (rest : string) (l : list Z),
    (forall j, In j l -> exists p h, Str.index lexRules (j + 1) = Some (p, h)) ->
    (forall j, In j l ->
       exists p h, Str.index lexRules (j + 1) = Some (p, h) /\ find rest p = None) \/
    exists before i after p h s e,
      l = before ++ i :: after /\
      (forall j, In j before ->
         exists p h, Str.index lexRules (j + 1) = Some (p, h) /\ find rest p = None) /\
      Str.index lexRules (i + 1) = Some (p, h) /\
      find rest p = Some (s, e).
Proof.
  intros rest. induction l as [|j l IH]; intros Hvalid.
  - left. intros j [].
  - destruct (Hvalid j (or_introl eq_refl)) as (p & h & Hj).
    destruct (find rest p) as [[s e]|] eqn:Hfind.
    + right. exists [], j, l, p, h, s, e. repeat split; auto. intros j' [].
    + destruct IH as [Hnone | (before & i & after & p' & h' & s & e & -> & Hb & Hi & Hf)].
      * intros j' Hj'. apply Hvalid. now right.
      * left. intros j' [<- | Hj']; [now exists p, h | now apply Hnone].
      * right. exists (j :: before), i, after, p', h', s, e. repeat split; auto.
        intros j' [<- | Hj']; [now exists p, h | now apply Hb].
Qed.

(** The cases of a scanning call are all there are, and each decides the
    answer.  A call of [getNextToken] that finds the queue empty and the
    cursor not past the end, in a start condition whose rules are all in
    [lexRules], either finds no rule of the start condition that matches, and
    then answers the end of input token at the end of the input and raises
    the error of [throwUnexpectedToken] before it; or it selects the first
    rule in the listed order whose pattern matches, and then answers what the
    handler of that rule answers for its lexeme. *)
Theorem scanning_call_selects_a_rule_or_finds_none :
  forall (fuel : nat) (self : Tokenizer) (state : string) (lexRulesForState : list Z),
    _tokensQueue self = [] ->
    hasMoreTokens self = true ->
    getCurrentState self = Some state ->
    lexRulesByConditions state = Some lexRulesForState ->
    (forall j, In j lexRulesForState ->
       exists p h, Str.index lexRules (j + 1) = Some (p, h)) ->
    (unmatched self /\
     getNextToken (S fuel) self =
     if isEOF self then Ok (EOF_TOKEN, set_cursor (_cursor self + 1) self)
     else
       UnexpectedToken
         (throwUnexpectedToken self (Str.sub (stringRestOf self) 1 1)
            (_currentLine self) (_currentColumn self))) \/
    exists i pattern handlerName s e,
      selects self i pattern handlerName s e /\
      getNextToken (S fuel) self =
      Tokenizer.runHandler tokensMap handlers (getNextToken fuel) handlerName
        (Str.sub (stringRestOf self) s e)
        (matchedState (Str.sub (stringRestOf self) s e) self).
Proof.
  intros fuel self state l Hq Hmore Hstate Hrules Hvalid.
  destruct (first_match_or_none (stringRestOf self) l Hvalid)
    as [Hnone | (before & i & after & p & h & s & e & -> & Hb & Hi & Hf)].
  - left. split.
    + split; [exact Hq|]. split; [exact Hmore|]. now exists state, l.
    + rewrite getNextToken_S, Hq, Hmore, Hstate, Hrules. cbn [negb].
      now rewrite (scanRules_none find tokensMap lexRules handlers _ l self Hnone).
  - right. exists i, p, h, s, e.
    assert (Hsel : selects self i p h s e).
    { split; [exact Hq|]. split; [exact Hmore|]. exists state, before, after. auto. }
    split; [exact Hsel|].
    apply (getNextToken_selects find tokensMap lexRules lexRulesByConditions handlers
             fuel self i p h s e Hsel).
Qed.

(** A skipping rule that matches the empty string before the end of the input
    never lets the call end.  When the selected rule matches the empty string
    while input is left, and its handler answers nothing and leaves the start
    conditions alone, the call to itself finds the tokenizer where it was:
    the same rule is selected again, and no number of calls gives an answer. *)
Theorem skipping_an_empty_match_never_ends :
  forall (self : Tokenizer) (i : Z) (pattern handlerName : string) (s e : Z) (h : Handler),
    selects self i pattern handlerName s e ->
    Str.sub (stringRestOf self) s e = EmptyString ->
    stringRestOf self <> EmptyString ->
    handlers handlerName = Some h ->
    h_result (h EmptyString (_states self)) = RNil ->
    h_ops (h EmptyString (_states self)) = [] ->
    forall fuel, getNextToken fuel self = OutOfFuel.
Proof.
  intros self i pattern handlerName s e h Hsel Hempty Hrest Hh Hres Hops fuel.
  assert (Hgen : forall self',
             _string self' = _string self -> _cursor self' = _cursor self ->
             _states self' = _states self -> _tokensQueue self' = _tokensQueue self ->
             getNextToken fuel self' = OutOfFuel).
  { induction fuel as [|fuel IH]; intros self' Es Ec Est Eq; [reflexivity|].
    assert (Erest : stringRestOf self' = stringRestOf self)
      by (unfold stringRestOf; now rewrite Es, Ec).
    assert (Hsel' : selects self' i pattern handlerName s e).
    { destruct Hsel as (Hq & Hmore & state & before & after & H1 & H2 & H3 & H4 & H5).
      split; [congruence|]. split; [unfold hasMoreTokens in *; now rewrite Es, Ec|].
      exists state, before, after. rewrite Erest.
      split; [unfold getCurrentState in *; now rewrite Est|]. auto. }
    rewrite (getNextToken_selects find tokensMap lexRules lexRulesByConditions handlers
               fuel self' i pattern handlerName s e Hsel').
    rewrite Erest, Hempty, runHandler_answers, Hh. cbv zeta.
    destruct (matchedState_offsets EmptyString self') as (_ & _ & Ms & Mst & Mq & _ & Mc).
    rewrite Mst, Est, Hres.
    apply IH.
    - destruct (textState_fields _ _ (handled_textState h EmptyString
                                        (matchedState EmptyString self'))) as (E & _).
      congruence.
    - destruct (textState_fields _ _ (handled_textState h EmptyString
                                        (matchedState EmptyString self'))) as (_ & E & _).
      rewrite E, Mc, Erest.
      replace (String.eqb (stringRestOf self) EmptyString) with false
        by (symmetry; apply String.eqb_neq; exact Hrest).
      rewrite len_empty, andb_false_r. lia.
    - unfold handled. rewrite Mst, Est, Hops. unfold runOps.
      cbn [fold_left set_yytext set_yyleng _states]. rewrite Mst. exact Est.
    - unfold handled. rewrite runOps_tokensQueue. cbn [set_yytext set_yyleng _tokensQueue].
      congruence. }
  apply Hgen; reflexivity.
Qed.

End TokenizerCases.

Lemma SkipOptional_selects :
  selects LuaPattern.find SkipOptional.lexRules SkipOptional.lexRulesByConditions
    (initString "a") 0 "^%s*" "_lexRule1" 1 0.
Proof.
  split; [reflexivity|]. split; [reflexivity|].
  exists "INITIAL", [], []. split; [reflexivity|]. split; [reflexivity|].
  split; [intros j []|]. split; vm_compute; reflexivity.
Defined.

Lemma scanning_call_witness :
  let getNextToken :=
    getNextToken LuaPattern.find SkipOptional.tokensMap SkipOptional.lexRules
      SkipOptional.lexRulesByConditions SkipOptional.handlers in
  _tokensQueue (initString "a") = [] /\
  hasMoreTokens (initString "a") = true /\
  getCurrentState (initString "a") = Some "INITIAL" /\
  SkipOptional.lexRulesByConditions "INITIAL" = Some [0] /\
  exists i pattern handlerName s e,
    selects LuaPattern.find SkipOptional.lexRules SkipOptional.lexRulesByConditions
      (initString "a") i pattern handlerName s e /\
    getNextToken 1%nat (initString "a") =
    runHandler SkipOptional.tokensMap SkipOptional.handlers (getNextToken 0%nat) handlerName
      (Str.sub (stringRestOf (initString "a")) s e)
      (matchedState (Str.sub (stringRestOf (initString "a")) s e) (initString "a")).
Proof.
  intros getNextToken.
  split; [reflexivity|]. split; [reflexivity|]. split; [reflexivity|]. split; [reflexivity|].
  destruct (scanning_call_selects_a_rule_or_finds_none LuaPattern.find SkipOptional.tokensMap
              SkipOptional.lexRules SkipOptional.lexRulesByConditions SkipOptional.handlers
              0 (initString "a") "INITIAL" [0] eq_refl eq_refl eq_refl eq_refl)
    as [(Hnone & _) | Hsel].
  - intros j [<- | []]. exists "^%s*", "_lexRule1". reflexivity.
  - exfalso. destruct Hnone as (_ & _ & state & rules & Hstate & Hrules & Hnone).
    injection Hstate as <-. injection Hrules as <-.
    destruct (Hnone 0 (or_introl eq_refl)) as (p & h & Hindex & Hfind).
    injection Hindex as <- <-. vm_compute in Hfind. discriminate.
  - exact Hsel.
Defined.

Lemma skipping_an_empty_match_witness :
  selects LuaPattern.find SkipOptional.lexRules SkipOptional.lexRulesByConditions
    (initString "a") 0 "^%s*" "_lexRule1" 1 0 /\
  Str.sub (stringRestOf (initString "a")) 1 0 = EmptyString /\
  stringRestOf (initString "a") <> EmptyString /\
  forall fuel,
    getNextToken LuaPattern.find SkipOptional.tokensMap SkipOptional.lexRules
      SkipOptional.lexRulesByConditions SkipOptional.handlers fuel (initString "a")
    = OutOfFuel.
Proof.
  split; [exact SkipOptional_selects|]. split; [reflexivity|]. split; [discriminate|].
  apply (skipping_an_empty_match_never_ends LuaPattern.find SkipOptional.tokensMap
           SkipOptional.lexRules SkipOptional.lexRulesByConditions SkipOptional.handlers
           (initString "a") 0 "^%s*" "_lexRule1" 1 0 SkipOptional._lexRule1);
    try reflexivity.
  - exact SkipOptional_selects.
  - discriminate.
Defined.

(** ** Runs that end with the end of input token *)

Lemma Forall_removelast : forall (A : Type) (P : A -> Prop) (l : list A),
  Forall P l -> Forall P (removelast l).
Proof.
  intros A P. induction l as [|x l IH]; intros H; [exact H|].
  inversion H as [|? ? Hx Hl]; subst.
  destruct l as [|y l]; [constructor|].
  change (removelast (x :: y :: l)) with (x :: removelast (y :: l)).
  constructor; [exact Hx | now apply IH].
Qed.

(** The calls of a handler keep the start conditions among [conds] when they
    push no other. *)
Lemma runOps_conditions : forall (conds : list string) (ops : list StateOp) (self : Tokenizer),
  (forall op, In op ops ->
     match op with
     | PushState state => In state conds
     | Begin state => In state conds
     | PopState => True
     end) ->
  Forall (fun state => In state conds) (_states self) ->
  Forall (fun state => In state conds) (_states (runOps ops self)).
Proof.
  intros conds. unfold runOps. induction ops as [|op ops IH]; intros self Hops Hall;
    cbn [fold_left]; [exact Hall|].
  apply IH; [intros op' Hin; apply Hops; now right|].
  pose proof (Hops op (or_introl eq_refl)) as Hop.
  destruct op as [state|state|]; cbn [runOp].
  - unfold pushState. cbn [_states set_states]. apply Forall_app. split; [exact Hall|].
    constructor; [exact Hop | constructor].
  - unfold begin, pushState. cbn [_states set_states]. apply Forall_app. split; [exact Hall|].
    constructor; [exact Hop | constructor].
  - unfold popState. destruct (1 <? Z.of_nat (List.length (_states self)));
      cbn [snd _states set_states]; [now apply Forall_removelast | exact Hall].
Qed.

Section Covered.

Variable find : string -> string -> option (Z * Z).
Variable tokensMap : string -> option string.
Variable lexRules : list (string * string).
Variable lexRulesByConditions : string -> option (list Z).
Variable handlers : string -> option Handler.
Variable s : string.
Variable conds : list string.

Hypothesis covered : forallb (covers find lexRules lexRulesByConditions handlers s) conds = true.
Hypothesis enters : entersOnly handlers conds.

Local Abbreviation getNextToken :=
  (Tokenizer.getNextToken find tokensMap lexRules lexRulesByConditions handlers).
Local Abbreviation getTokens :=
  (Tokenizer.getTokens find tokensMap lexRules lexRulesByConditions handlers).
Local Abbreviation scanRules := (Tokenizer.scanRules find tokensMap lexRules handlers).
Local Abbreviation runHandler := (Tokenizer.runHandler tokensMap handlers).
Local Abbreviation ready := (Runs.ready s conds).

Lemma ready_handled : forall (self : Tokenizer) (name : string) (h : Handler) (lexeme : string),
  ready self ->
  handlers name = Some h ->
  ready (handled h lexeme (matchedState lexeme self)).
Proof.
  intros self name h lexeme (Hs & Hc & Hne & Hall) Hh.
  destruct (textState_fields _ _ (handled_textState h lexeme (matchedState lexeme self)))
    as (Es & Ec & _).
  destruct (matchedState_offsets lexeme self) as (_ & _ & Ms & Mst & _ & _ & Mc).
  split; [congruence|]. split; [|split].
  - rewrite Ec, Mc. pose proof (len_nonneg lexeme). destruct (_ && _)%bool; lia.
  - apply handled_states. now rewrite Mst.
  - unfold handled. apply runOps_conditions.
    + intros op Hin. exact (enters name h _ _ op Hh Hin).
    + cbn [set_yytext set_yyleng _states]. now rewrite Mst.
Qed.

(** With declared handlers the loop over the rules ends in one of two ways:
    no rule matched, or the handler of a rule ran. *)
Lemma scanRules_covered :
  forall recur (l : list Z) (self : Tokenizer),
    forallb (ruleHandled lexRules handlers) l = true ->
    (scanRules recur (stringRestOf self) l self = inr self /\
     existsb (ruleMatches find lexRules (stringRestOf self)) l = false) \/
    exists name h st e,
      handlers name = Some h /\
      scanRules recur (stringRestOf self) l self =
      inl (runHandler recur name (Str.sub (stringRestOf self) st e)
             (matchedState (Str.sub (stringRestOf self) st e) self)).
Proof.
  intros recur l self. induction l as [|j l IH]; intros Hl.
  - left. split; reflexivity.
  - cbn [forallb] in Hl. apply andb_prop in Hl as [Hj Hl].
    unfold ruleHandled in Hj. cbn [Tokenizer.scanRules existsb]. unfold ruleMatches at 1.
    destruct (Str.index lexRules (j + 1)) as [[p name]|]; [|discriminate].
    destruct (handlers name) as [h|] eqn:Hh; [|discriminate].
    unfold _match. destruct (find (stringRestOf self) p) as [[st e]|] eqn:Hfind.
    + right. exists name, h, st, e. split; [exact Hh|]. unfold matchedState.
      destruct (Str.sub (stringRestOf self) st e); [|reflexivity].
      destruct (stringRestOf self); reflexivity.
    + cbn [orb]. exact (IH Hl).
Qed.

(** The rules of the start condition on top of the stack cover the text. *)
Lemma ready_covers : forall self : Tokenizer,
  ready self ->
  exists state l,
    getCurrentState self = Some state /\
    lexRulesByConditions state = Some l /\
    forallb (ruleHandled lexRules handlers) l = true /\
    forallb (fun c => existsb (ruleMatches find lexRules (Str.sub_from s (Z.of_nat c + 1))) l)
      (seq 0 (String.length s)) = true.
Proof.
  intros self (Hs & Hc & Hne & Hall).
  destruct (exists_last Hne) as (below & state & Hstates).
  rewrite Hstates in Hall. apply Forall_app in Hall as [_ Hin].
  inversion Hin as [|? ? Hstate _]; subst.
  pose proof covered as Hcov. rewrite forallb_forall in Hcov.
  specialize (Hcov state Hstate). unfold covers in Hcov.
  destruct (lexRulesByConditions state) as [l|] eqn:Hrules; [|discriminate].
  apply andb_prop in Hcov as [H1 H2].
  exists state, l. split; [|auto].
  unfold getCurrentState. rewrite Hstates. apply index_last.
Qed.

(** A call on a covered text raises no error. *)
Lemma getNextToken_raises_nothing : forall (fuel : nat) (self : Tokenizer),
  ready self ->
  match getNextToken fuel self with
  | UnexpectedToken _ => False
  | RuntimeError => False
  | _ => True
  end.
Proof.
  induction fuel as [|fuel IH]; intros self Hready; [exact I|].
  rewrite getNextToken_S.
  destruct (_tokensQueue self); [|exact I].
  destruct (hasMoreTokens self) eqn:Hmore; cbn [negb]; [|exact I].
  destruct (ready_covers self Hready) as (state & l & -> & -> & Hhandled & Hmatches).
  destruct (scanRules_covered (getNextToken fuel) l self Hhandled)
    as [(-> & Hnone) | (name & h & st & e & Hh & ->)].
  - destruct (isEOF self) eqn:Heof; [exact I|]. exfalso.
    destruct Hready as (Hs & Hc & _).
    unfold hasMoreTokens in Hmore. apply Z.leb_le in Hmore.
    unfold isEOF in Heof. apply Z.eqb_neq in Heof.
    rewrite forallb_forall in Hmatches.
    specialize (Hmatches (Z.to_nat (_cursor self))).
    rewrite Hs in Hmore, Heof.
    assert (Hin : In (Z.to_nat (_cursor self)) (seq 0 (String.length s)))
      by (apply in_seq; unfold Str.len in *; lia).
    specialize (Hmatches Hin).
    replace (Z.of_nat (Z.to_nat (_cursor self))) with (_cursor self) in Hmatches by lia.
    unfold stringRestOf in Hnone. rewrite Hs in Hnone. congruence.
  - rewrite runHandler_answers, Hh. cbv zeta.
    destruct (h_result _); [|exact I|exact I].
    apply IH. now apply (ready_handled self name).
Qed.

(** A call that answers leaves the tokenizer ready for the next one. *)
Lemma getNextToken_ready :
  forall (fuel : nat) (self : Tokenizer) (tok : Token) (self' : Tokenizer),
    ready self ->
    getNextToken fuel self = Ok (tok, self') ->
    ready self'.
Proof.
  intros fuel self tok self' Hready Hcall.
  apply (getNextToken_invariant find tokensMap lexRules lexRulesByConditions handlers
           ready (fun _ _ => True)) with (fuel := fuel) (self := self) (tok := tok);
    try assumption.
  - intros self0 queued rest H _. split; [exact H | exact I].
  - intros. exact I.
  - intros self0 (Hs & Hc & Hne & Hall) _ _ _. split; [|exact I].
    repeat split; try assumption. cbn [set_cursor _cursor]. lia.
  - intros self0 p name st e h H _ _ _ _ Hh lexeme scanned o self1.
    assert (H1 : ready self1) by (apply (ready_handled self0 name); assumption).
    split; [auto|]. split; [auto|]. intros tokenTypes _ self2. split; [exact H1 | exact I].
Qed.

(** Tokenizing a covered text to completion raises no error. *)
Lemma getTokens_raises_nothing : forall (fuel rounds : nat) (self : Tokenizer),
  ready self ->
  match getTokens fuel rounds self with
  | UnexpectedToken _ => False
  | RuntimeError => False
  | _ => True
  end.
Proof.
  intros fuel. induction rounds as [|rounds IH]; intros self Hready; [exact I|].
  cbn [Tokenizer.getTokens]. destruct (hasMoreTokens self); [|exact I].
  pose proof (getNextToken_raises_nothing fuel self Hready) as Hcall.
  destruct (getNextToken fuel self) as [[tok self1]| | |] eqn:E; try contradiction; [|exact I].
  specialize (IH self1 (getNextToken_ready fuel self tok self1 Hready E)).
  destruct (getTokens fuel rounds self1); try contradiction; exact I.
Qed.

End Covered.

Section EndOfInput.

Variable find : string -> string -> option (Z * Z).
Variable tokensMap : string -> option string.
Variable lexRules : list (string * string).
Variable lexRulesByConditions : string -> option (list Z).
Variable handlers : string -> option Handler.

Hypothesis silent : silentAtEnd find lexRules handlers.

Local Abbreviation getNextToken :=
  (Tokenizer.getNextToken find tokensMap lexRules lexRulesByConditions handlers).
Local Abbreviation getTokens :=
  (Tokenizer.getTokens find tokensMap lexRules lexRulesByConditions handlers).

(** The cursor is not negative, and what is queued is handed out before the
    cursor leaves the input. *)
Local Abbreviation inInput :=
  (fun x : Tokenizer =>
     0 <= _cursor x /\ (_tokensQueue x <> [] -> hasMoreTokens x = true)).

(** The end of input token is answered exactly when the cursor has left the
    input. *)
Local Abbreviation endsThere :=
  (fun (tok : Token) (x : Tokenizer) =>
     (tok = EOF_TOKEN -> hasMoreTokens x = false) /\
     (tok <> EOF_TOKEN -> hasMoreTokens x = true)).

Lemma sub_empty : forall st e : Z, Str.sub EmptyString st e = EmptyString.
Proof.
  intros st e. pose proof (length_sub_le EmptyString st e) as H. cbn in H.
  apply length_empty. lia.
Qed.

(** After a lexeme whose rule answers a token the cursor is still within the
    input. *)
Lemma token_keeps_more :
  forall (self : Tokenizer) (p name : string) (st e : Z) (h : Handler),
    0 <= _cursor self ->
    hasMoreTokens self = true ->
    In (p, name) lexRules ->
    find (stringRestOf self) p = Some (st, e) ->
    handlers name = Some h ->
    let lexeme := Str.sub (stringRestOf self) st e in
    let scanned := matchedState lexeme self in
    h_result (h lexeme (_states scanned)) <> RNil ->
    0 <= _cursor (handled h lexeme scanned) /\
    hasMoreTokens (handled h lexeme scanned) = true.
Proof.
  intros self p name st e h Hc Hmore Hin Hfind Hh lexeme scanned Hres.
  unfold hasMoreTokens in Hmore. apply Z.leb_le in Hmore.
  destruct (textState_fields _ _ (handled_textState h lexeme scanned)) as (Es & Ec & _).
  destruct (matchedState_offsets lexeme self) as (_ & _ & Ms & _ & _ & _ & Mc).
  fold scanned in Ms, Mc.
  pose proof (lexeme_fits self st e (conj Hc Hmore)) as Hfit. fold lexeme in Hfit.
  pose proof (len_nonneg lexeme) as Hlen.
  assert (Hstep : (String.eqb lexeme EmptyString && String.eqb (stringRestOf self) EmptyString)%bool
                  = false).
  { destruct (String.eqb (stringRestOf self) EmptyString) eqn:Hrest;
      [|apply andb_false_r].
    apply eqb_empty in Hrest. exfalso. apply Hres.
    unfold lexeme in *. rewrite Hrest in *. rewrite sub_empty.
    exact (silent p name h st e _ Hin Hfind Hh). }
  rewrite Hstep in Mc. unfold hasMoreTokens. rewrite Ec, Es, Mc, Ms.
  split; [lia | apply Z.leb_le; lia].
Qed.

Lemma getNextToken_ends_there :
  forall (fuel : nat) (self : Tokenizer) (tok : Token) (self' : Tokenizer),
    inInput self ->
    getNextToken fuel self = Ok (tok, self') ->
    inInput self' /\ endsThere tok self'.
Proof.
  intros fuel self tok self' Hin Hcall.
  apply (getNextToken_invariant find tokensMap lexRules lexRulesByConditions handlers
           inInput endsThere) with (fuel := fuel) (self := self); try assumption.
  - intros x queued rest (Hc & Hq) Hqueue.
    assert (Hmore : hasMoreTokens x = true) by (apply Hq; rewrite Hqueue; discriminate).
    repeat split; auto; discriminate.
  - intros x _ _ Hmore. split; [auto | congruence].
  - intros x (Hc & _) Hq _ Heof.
    unfold isEOF in Heof. apply Z.eqb_eq in Heof.
    assert (Hpast : hasMoreTokens (set_cursor (_cursor x + 1) x) = false)
      by (unfold hasMoreTokens; cbn [set_cursor _cursor _string]; apply Z.leb_gt; lia).
    cbn [set_cursor _cursor _tokensQueue]. repeat split; try lia; try congruence.
  - intros x p name st e h (Hc & _) Hq Hmore Hrule Hfind Hh lexeme scanned o self1.
    assert (Hqueue : _tokensQueue self1 = []).
    { unfold self1, handled. rewrite runOps_tokensQueue. cbn [set_yytext set_yyleng _tokensQueue].
      rewrite <- Hq. apply matchedState_offsets. }
    assert (Hcursor : 0 <= _cursor self1).
    { destruct (textState_fields _ _ (handled_textState h lexeme scanned)) as (_ & Ec & _).
      destruct (matchedState_offsets lexeme x) as (_ & _ & _ & _ & _ & _ & Mc).
      fold self1 in Ec. fold scanned in Mc. rewrite Ec, Mc.
      pose proof (len_nonneg lexeme). destruct (_ && _)%bool; lia. }
    split; [|split].
    + intros _. split; [exact Hcursor | congruence].
    + intros tokenType Hres.
      destruct (token_keeps_more x p name st e h Hc Hmore Hrule Hfind Hh) as (_ & Hm).
      { fold lexeme. fold scanned. fold o. congruence. }
      fold lexeme in Hm. fold scanned in Hm. fold self1 in Hm.
      repeat split; auto; discriminate.
    + intros tokenTypes Hres self2.
      destruct (token_keeps_more x p name st e h Hc Hmore Hrule Hfind Hh) as (_ & Hm).
      { fold lexeme. fold scanned. fold o. congruence. }
      fold lexeme in Hm. fold scanned in Hm. fold self1 in Hm.
      repeat split; auto; discriminate.
Qed.

(** A run that answers ends with the end of input token, and has it nowhere
    else. *)
Lemma getTokens_ends_with_EOF :
  forall (fuel rounds : nat) (self : Tokenizer) (toks : list Token),
    inInput self ->
    hasMoreTokens self = true ->
    getTokens fuel rounds self = Ok toks ->
    endsWithEOF toks.
Proof.
  intros fuel. induction rounds as [|rounds IH]; intros self toks Hin Hmore Hrun;
    [discriminate|].
  cbn [Tokenizer.getTokens] in Hrun. rewrite Hmore in Hrun.
  destruct (getNextToken fuel self) as [[tok self1]| | |] eqn:Hcall; try discriminate.
  destruct (getNextToken_ends_there fuel self tok self1 Hin Hcall) as (Hin1 & Heof & Htok).
  destruct (getTokens fuel rounds self1) as [ts| | |] eqn:Hrest; try discriminate.
  injection Hrun as <-.
  destruct tok as [|t].
  - destruct rounds as [|rounds]; [discriminate|].
    cbn [Tokenizer.getTokens] in Hrest. rewrite (Heof eq_refl) in Hrest.
    injection Hrest as <-. exists []. split; [reflexivity | intros []].
  - assert (Hmore1 : hasMoreTokens self1 = true) by (apply Htok; discriminate).
    destruct (IH self1 ts Hin1 Hmore1 Hrest) as (body & -> & Hbody).
    exists (Token_ t :: body). split; [reflexivity|].
    intros [H | H]; [discriminate | contradiction].
Qed.

End EndOfInput.

(** C5, as the code has it.  When no rule of the grammar answers a token of
    its own for the empty rest at the end of the input, every run of
    tokenizing to completion that answers gives a list of tokens in which the
    end of input token occurs exactly once, as the last one.  Such runs are
    there: on an input where every lexeme the rules match has at least one
    character the run ends for all large enough bounds, and it answers, and
    so ends with that token, whenever the start conditions the handlers can
    enter, INITIAL among them, cover the input: each has its rules listed
    with declared handlers, and one of them matches at every position before
    the end. *)
Theorem one_end_of_input_token_unless_a_rule_answers_the_end :
  forall (find : string -> string -> option (Z * Z)) (tokensMap : string -> option string)
         (lexRules : list (string * string)) (lexRulesByConditions : string -> option (list Z))
         (handlers : string -> option Handler) (s : string),
    silentAtEnd find lexRules handlers ->
    (forall (fuel rounds : nat) (toks : list Token),
       getTokens find tokensMap lexRules lexRulesByConditions handlers fuel rounds
         (initString s) = Ok toks ->
       endsWithEOF toks) /\
    (progressive find lexRules s = true ->
     exists fuel0 rounds0 : nat,
       forall fuel rounds : nat,
         (fuel0 <= fuel)%nat -> (rounds0 <= rounds)%nat ->
         let run :=
           getTokens find tokensMap lexRules lexRulesByConditions handlers fuel rounds
             (initString s) in
         run <> OutOfFuel /\
         (forall conds : list string,
            In "INITIAL" conds ->
            forallb (covers find lexRules lexRulesByConditions handlers s) conds = true ->
            entersOnly handlers conds ->
            exists toks, run = Ok toks /\ endsWithEOF toks)).
Proof.
  intros find tokensMap lexRules lexRulesByConditions handlers s Hsilent.
  pose proof (len_nonneg s) as Hlen.
  assert (Hshape : forall (fuel rounds : nat) (toks : list Token),
             getTokens find tokensMap lexRules lexRulesByConditions handlers fuel rounds
               (initString s) = Ok toks ->
             endsWithEOF toks).
  { intros fuel rounds toks Hrun.
    apply (getTokens_ends_with_EOF find tokensMap lexRules lexRulesByConditions handlers
             Hsilent fuel rounds (initString s) toks); try exact Hrun.
    - split; [cbn; lia | intros H; now contradiction H].
    - unfold hasMoreTokens. cbn [initString _cursor _string]. now apply Z.leb_le. }
  split; [exact Hshape|]. intros Hprog.
  destruct (getTokens_completes find tokensMap lexRules lexRulesByConditions handlers s Hprog
              (Z.to_nat (Str.len s + 1)) O (initString s)) as (rounds0 & Hne & _);
    try reflexivity.
  - unfold hasMoreTokens. cbn [initString _cursor _string]. now apply Z.leb_le.
  - cbn [initString _cursor]. lia.
  - exists (S (Z.to_nat (Str.len s + 1))), rounds0. intros fuel rounds Hf Hr run.
    assert (Hrun : run =
                   getTokens find tokensMap lexRules lexRulesByConditions handlers
                     (S (Z.to_nat (Str.len s + 1))) rounds0 (initString s)).
    { unfold run.
      apply (getTokens_mono_le find tokensMap lexRules lexRulesByConditions handlers
               _ fuel rounds0 rounds (initString s) _ Hf Hr eq_refl Hne). }
    split; [now rewrite Hrun|].
    intros conds Hinitial Hcovered Henters.
    assert (Hready : ready s conds (initString s)).
    { split; [reflexivity|]. split; [cbn; lia|]. split; [discriminate|].
      constructor; [exact Hinitial | constructor]. }
    pose proof (getTokens_raises_nothing find tokensMap lexRules lexRulesByConditions handlers
                  s conds Hcovered Henters fuel rounds (initString s) Hready) as Hok.
    fold run in Hok. rewrite <- Hrun in Hne. clear Hrun.
    destruct run as [toks| | |] eqn:Erun; try contradiction; try congruence.
    exists toks. split; [reflexivity|]. exact (Hshape fuel rounds toks Erun).
Qed.

Lemma S6_silentAtEnd : silentAtEnd LuaPattern.find S6.lexRules S6.handlers.
Proof.
  intros p name h st e states [H | [H | []]] Hfind; injection H as <- <-;
    vm_compute in Hfind; discriminate.
Defined.

Lemma S6_entersOnly : entersOnly S6.handlers ["INITIAL"].
Proof.
  intros name h text states op Hh Hin. unfold S6.handlers in Hh.
  destruct (String.eqb name "_lexRule1"); [injection Hh as <-; destruct Hin|].
  destruct (String.eqb name "_lexRule2"); [injection Hh as <-; destruct Hin | discriminate].
Defined.

Lemma one_end_of_input_token_witness :
  silentAtEnd LuaPattern.find S6.lexRules S6.handlers /\
  progressive LuaPattern.find S6.lexRules S6.input = true /\
  covers LuaPattern.find S6.lexRules S6.lexRulesByConditions S6.handlers S6.input "INITIAL"
  = true /\
  entersOnly S6.handlers ["INITIAL"] /\
  S6.getTokens 2 4 (initString S6.input) =
  Ok [Token_ {| type := S6.tokensMap "ID"; value := "ab"; startOffset := 0; endOffset := 2;
                startLine := 1; endLine := 1; startColumn := 0; endColumn := 2 |};
      Token_ {| type := S6.tokensMap "ID"; value := "cd"; startOffset := 3; endOffset := 5;
                startLine := 2; endLine := 2; startColumn := 0; endColumn := 2 |};
      EOF_TOKEN] /\
  (forall (fuel rounds : nat) (toks : list Token),
     S6.getTokens fuel rounds (initString S6.input) = Ok toks -> endsWithEOF toks) /\
  exists fuel0 rounds0 : nat,
    forall fuel rounds : nat,
      (fuel0 <= fuel)%nat -> (rounds0 <= rounds)%nat ->
      exists toks,
        S6.getTokens fuel rounds (initString S6.input) = Ok toks /\ endsWithEOF toks.
Proof.
  split; [exact S6_silentAtEnd|].
  split; [vm_compute; reflexivity|]. split; [vm_compute; reflexivity|].
  split; [exact S6_entersOnly|]. split; [vm_compute; reflexivity|].
  destruct (one_end_of_input_token_unless_a_rule_answers_the_end LuaPattern.find S6.tokensMap
              S6.lexRules S6.lexRulesByConditions S6.handlers S6.input S6_silentAtEnd)
    as (Hshape & Hruns).
  split; [exact Hshape|].
  destruct Hruns as (fuel0 & rounds0 & Hrun); [vm_compute; reflexivity|].
  exists fuel0, rounds0. intros fuel rounds Hf Hr.
  destruct (Hrun fuel rounds Hf Hr) as (_ & Hcovered).
  apply (Hcovered ["INITIAL"]).
  - now left.
  - vm_compute; reflexivity.
  - exact S6_entersOnly.
Defined.

(** C5 as stated fails for a grammar that handles the end of the input with a
    rule of its own: the rule matches the empty rest, its token is answered,
    the cursor steps past the end, and the tokenizer has no more tokens
    although no end of input token was emitted. *)
Lemma manual_end_of_input_rule_counterexample :
  exists toks t,
    ManualEOF.getTokens 2 4 (initString "ab") = Ok toks /\
    toks =
    [Token_ {| type := ManualEOF.tokensMap "ID"; value := "ab"; startOffset := 0; endOffset := 2;
               startLine := 1; endLine := 1; startColumn := 0; endColumn := 2 |};
     Token_ t] /\
    type t = ManualEOF.tokensMap "EOF" /\
    ~ In EOF_TOKEN toks /\
    ~ endsWithEOF toks /\
    LuaPattern.find EmptyString "^$" = Some (1, 0) /\
    h_result (ManualEOF._lexRule2 EmptyString ["INITIAL"]) = RType "EOF".
Proof.
  eexists. eexists. split; [vm_compute; reflexivity|]. split; [reflexivity|].
  split; [reflexivity|]. split; [|split; [|split; vm_compute; reflexivity]].
  - intros [H | [H | []]]; discriminate.
  - intros (body & H & _).
    destruct body as [|x [|y [|z body]]]; cbn in H; discriminate.
Qed.

(** ** Further properties of the command line driver *)

Import Reports.

Lemma getProperty_setProperty_same : forall (V : Type) (key : string) (v : V)
    (o : list (string * V)),
  getProperty key (setProperty key v o) = Some v.
Proof.
  intros V key v. induction o as [|[k x] o IH]; cbn.
  - now rewrite String.eqb_refl.
  - destruct (String.eqb k key) eqn:E; cbn; rewrite E; [reflexivity | exact IH].
Qed.

Lemma getProperty_setProperty_other : forall (V : Type) (key k : string) (v : V)
    (o : list (string * V)),
  k <> key -> getProperty k (setProperty key v o) = getProperty k o.
Proof.
  intros V key k v o Hne. induction o as [|[k0 x] o IH]; cbn.
  - replace (String.eqb key k) with false; [reflexivity|].
    symmetry. apply String.eqb_neq. congruence.
  - destruct (String.eqb k0 key) eqn:E; cbn.
    + apply String.eqb_eq in E. subst k0.
      replace (String.eqb key k) with false; [reflexivity|].
      symmetry. apply String.eqb_neq. congruence.
    + destruct (String.eqb k0 k); [reflexivity | exact IH].
Qed.

Section LexGrammarExtras.

Variable dataFromGrammarFile : string -> LexGrammarData.

Local Abbreviation getLexGrammarData := (Cli.getLexGrammarData dataFromGrammarFile).
Local Abbreviation mergeLex := (Cli.mergeLex dataFromGrammarFile).

(** [getLexGrammarData] answers [null] exactly when none of [--lex],
    [--ignore-whitespaces] and [--case-insensitive] is given; an empty
    [--lex] counts as not given. *)
Theorem no_lexical_grammar_data_without_options :
  forall opts : Options,
    getLexGrammarData opts = None <->
    given (lex opts) = false /\ ignore_whitespaces opts = false /\
    case_insensitive opts = false.
Proof.
  intros [l iw ci]. unfold Cli.getLexGrammarData, given. cbn [lex ignore_whitespaces
    case_insensitive].
  destruct l as [[|c r]|]; destruct iw; destruct ci; cbn; split;
    try discriminate; try tauto; intros (A & B & C); discriminate.
Qed.

(** With a [--lex] file [--ignore-whitespaces] adds nothing: the rules and
    the other properties of the data are those of the file, whatever the two
    flags are, and without [--case-insensitive] the data is the file's data
    as it is. *)
Theorem lex_file_rules_are_kept_as_they_are :
  forall (opts : Options) (c : ascii) (path : string),
    lex opts = Some (String c path) ->
    exists data,
      getLexGrammarData opts = Some data /\
      rules data = rules (dataFromGrammarFile (String c path)) /\
      others data = others (dataFromGrammarFile (String c path)) /\
      (case_insensitive opts = false -> data = dataFromGrammarFile (String c path)).
Proof.
  intros [l iw ci] c path Hlex. cbn [lex] in Hlex. subst l.
  unfold Cli.getLexGrammarData. cbn [lex ignore_whitespaces case_insensitive].
  destruct ci; eexists; (split; [reflexivity|]); cbn [rules others];
    repeat split; intros; try discriminate; reflexivity.
Qed.

(** [--case-insensitive] always gives data whose options have
    [case-insensitive] set to [true]; the other options of a [--lex] file
    are kept; and without a [--lex] file the data has no rules but the white
    space rule of [--ignore-whitespaces]. *)
Theorem case_insensitive_sets_the_option_and_keeps_the_others :
  forall opts : Options,
    case_insensitive opts = true ->
    exists data o,
      getLexGrammarData opts = Some data /\
      options data = Some o /\
      getProperty "case-insensitive" o = Some true /\
      (forall c path k,
         lex opts = Some (String c path) ->
         k <> "case-insensitive" ->
         getProperty k o =
         getProperty k
           (match options (dataFromGrammarFile (String c path)) with
            | Some o' => o'
            | None => []
            end)) /\
      (given (lex opts) = false ->
       rules data = if ignore_whitespaces opts then Some [skipWhitespaceRule] else None).
Proof.
  intros [l iw ci] Hci. cbn [case_insensitive] in Hci. subst ci.
  unfold Cli.getLexGrammarData, given. cbn [lex ignore_whitespaces case_insensitive].
  eexists. eexists. split; [reflexivity|]. cbn [options]. split; [reflexivity|].
  split; [apply getProperty_setProperty_same|]. split.
  - intros c path k Hlex Hk. subst l. apply getProperty_setProperty_other. exact Hk.
  - intros Hgiven. destruct l as [[|c r]|]; try discriminate; destruct iw; reflexivity.
Qed.

(** Merging raises a [TypeError] exactly when the grammar has a lexical part,
    there is lexical data from the command line, and one of the two has no
    rules. *)
Theorem merging_fails_exactly_when_rules_are_missing :
  forall (grammarLex : option LexGrammarData) (opts : Options),
    mergeLex grammarLex opts = TypeError <->
    exists own external,
      grammarLex = Some own /\
      getLexGrammarData opts = Some external /\
      (rules own = None \/ rules external = None).
Proof.
  intros grammarLex opts. unfold Cli.mergeLex.
  destruct grammarLex as [own|].
  - destruct (getLexGrammarData opts) as [external|].
    + destruct (rules own) as [ownRules|] eqn:Hown;
        destruct (rules external) as [externalRules|] eqn:Hext; split; intros H;
        try discriminate; try reflexivity;
        try (exists own, external; rewrite ?Hown, ?Hext; auto; fail).
      destruct H as (own' & external' & E1 & E2 & [H | H]);
        injection E1 as <-; injection E2 as <-; congruence.
    + split; [discriminate|]. intros (own' & external' & _ & E & _). discriminate.
  - split; [discriminate|]. intros (own' & external' & E & _). discriminate.
Qed.

(** [--case-insensitive] alone cannot be used with a grammar that has a
    lexical part of its own: the data made for the flag has no rules, and
    pushing them onto the rules of the grammar raises a [TypeError]. *)
Theorem case_insensitive_alone_breaks_a_grammar_with_lex :
  forall (own : LexGrammarData) (opts : Options),
    given (lex opts) = false ->
    ignore_whitespaces opts = false ->
    case_insensitive opts = true ->
    mergeLex (Some own) opts = TypeError.
Proof.
  intros own [l iw ci] Hl Hiw Hci. cbn [lex ignore_whitespaces case_insensitive] in *.
  subst iw ci. unfold Cli.mergeLex, Cli.getLexGrammarData, given in *.
  cbn [lex ignore_whitespaces case_insensitive].
  destruct l as [[|c r]|]; try discriminate; cbn [rules]; destruct (rules own); reflexivity.
Qed.

(** The options of the command line do not reach a grammar that has a lexical
    part of its own: what is merged are the rules, and the options and the
    other properties of the result are those of the grammar.  So
    [--case-insensitive] has no effect there. *)
Theorem grammar_lex_options_are_not_overridden :
  forall (own : LexGrammarData) (opts : Options) (merged : option LexGrammarData),
    mergeLex (Some own) opts = Returned merged ->
    exists m,
      merged = Some m /\
      options m = options own /\
      others m = others own.
Proof.
  intros own opts merged H. unfold Cli.mergeLex in H.
  destruct (getLexGrammarData opts) as [external|].
  - destruct (rules own); [|discriminate]. destruct (rules external); [|discriminate].
    injection H as <-. eexists. split; [reflexivity|]. split; reflexivity.
  - injection H as <-. exists own. auto.
Qed.

End LexGrammarExtras.

Lemma forEach_app : forall (A S : Type) (body : S -> A -> Completion S) (l1 l2 : list A)
    (acc : S),
  forEach body acc (l1 ++ l2) =
  match forEach body acc l1 with
  | Returned acc' => forEach body acc' l2
  | Thrown m => Thrown m
  | TypeError => TypeError
  end.
Proof.
  intros A S body l1 l2. induction l1 as [|x l1 IH]; intros acc; cbn; [reflexivity|].
  destruct (body acc x); auto.
Qed.

Lemma In_mapSet :
  forall (K V : Type) (eq_dec : forall a b : K, {a = b} + {a <> b}) (k k' : K) (v v' : V)
         (m : list (K * V)),
    In (k', v') (mapSet eq_dec k v m) -> (k' = k /\ v' = v) \/ In (k', v') m.
Proof.
  intros K V eq_dec k k' v v'. induction m as [|[k0 v0] m IH]; cbn.
  - intros [H | []]. injection H as <- <-. now left.
  - destruct (eq_dec k0 k) as [->|Hne]; cbn.
    + intros [H | H]; [injection H as <- <-; now left | right; now right].
    + intros [H | H]; [right; now left|]. destruct (IH H) as [E | E]; auto.
Qed.

Lemma In_keys_mapSet :
  forall (K V : Type) (eq_dec : forall a b : K, {a = b} + {a <> b}) (k x : K) (v : V)
         (m : list (K * V)),
    In x (map fst (mapSet eq_dec k v m)) -> x = k \/ In x (map fst m).
Proof.
  intros K V eq_dec k x v m H. apply in_map_iff in H as ([k' v'] & <- & Hin).
  destruct (In_mapSet K V eq_dec k k' v v' m Hin) as [[-> _] | Hold]; [now left|].
  right. apply in_map_iff. now exists (k', v').
Qed.

(** A [Map] holds a key once. *)
Lemma NoDup_keys_mapSet :
  forall (K V : Type) (eq_dec : forall a b : K, {a = b} + {a <> b}) (k : K) (v : V)
         (m : list (K * V)),
    NoDup (map fst m) -> NoDup (map fst (mapSet eq_dec k v m)).
Proof.
  intros K V eq_dec k v. induction m as [|[k0 v0] m IH]; cbn; intros Hnd.
  - constructor; [intros [] | constructor].
  - inversion Hnd as [|? ? Hnotin Hnd']; subst.
    destruct (eq_dec k0 k) as [->|Hne]; cbn; [now constructor|].
    constructor; [|now apply IH].
    intros Hin. destruct (In_keys_mapSet K V eq_dec k k0 v m Hin); congruence.
Qed.

Section ValidateExtras.

Variable Production : Type.
Variable Production_eq_dec : forall a b : Production, {a = b} + {a <> b}.
Variable toFullString : Production -> string.
Variable getProduction : string -> Production.
Variable getEntryType : string -> EntryType.
Variable splitSRParts : string -> list string.
Variable bold : string -> string.
Variable red : string -> string.
Variable green : string -> string.
Variable mode : string.
Variable LALR1 : string.

Local Abbreviation recordConflict :=
  (Cli.recordConflict Production Production_eq_dec getProduction getEntryType splitSRParts).
Local Abbreviation collectConflicts :=
  (Cli.collectConflicts Production Production_eq_dec getProduction getEntryType splitSRParts).
Local Abbreviation report := (Cli.report Production toFullString bold red green mode LALR1).
Local Abbreviation wellFormed := (Cli.wellFormed getEntryType splitSRParts).
Local Abbreviation validateLRGrammar :=
  (Cli.validateLRGrammar Production Production_eq_dec toFullString getProduction getEntryType
     splitSRParts bold red green mode LALR1).
Local Abbreviation fromSR := (Reports.fromSR Production getProduction getEntryType splitSRParts).
Local Abbreviation fromRR := (Reports.fromRR Production getProduction getEntryType).
Local Abbreviation recorded :=
  (Reports.recorded Production getProduction getEntryType splitSRParts).

(** The two loops visit the entries of all states in a row. *)
Lemma collectConflicts_flat :
  forall (conflictsData : list (string * list (string * SymbolConflict)))
         (acc : Conflicts Production),
    forEach
      (fun acc (stateEntry : string * list (string * SymbolConflict)) =>
         forEach recordConflict acc (snd stateEntry))
      acc conflictsData =
    forEach recordConflict acc (allEntries conflictsData).
Proof.
  unfold allEntries. induction conflictsData as [|[state symbols] more IH]; intros acc; cbn.
  - reflexivity.
  - rewrite forEach_app. destruct (forEach recordConflict acc symbols); auto.
Qed.

Lemma In_allEntries :
  forall (conflictsData : list (string * list (string * SymbolConflict)))
         (entry : string * SymbolConflict),
    In entry (allEntries conflictsData) <->
    exists state symbols, In (state, symbols) conflictsData /\ In entry symbols.
Proof.
  intros conflictsData entry. unfold allEntries. rewrite in_concat. split.
  - intros (symbols & Hin & He). apply in_map_iff in Hin as ([state symbols'] & <- & Hin).
    now exists state, symbols'.
  - intros (state & symbols & Hin & He). exists symbols. split; [|exact He].
    apply in_map_iff. now exists (state, symbols).
Qed.

Lemma forEach_resolved :
  forall (l : list (string * SymbolConflict)) (c : Conflicts Production),
    (forall entry, In entry l -> resolved (snd entry) <> Some false) ->
    forEach recordConflict c l = Returned c.
Proof.
  induction l as [|[symbol sc] l IH]; intros c H; cbn [forEach]; [reflexivity|].
  assert (Hres : resolved sc <> Some false) by (apply (H (symbol, sc)); now left).
  unfold Cli.recordConflict at 1.
  destruct (resolved sc) as [[|]|]; try congruence; apply IH; intros e He; apply H; now right.
Qed.

(** A table whose conflicts are all resolved passes: validation prints the
    one line that says so and nothing else, whatever the entries are. *)
Theorem validate_accepts_a_table_without_unresolved_conflicts :
  forall conflictsData : list (string * list (string * SymbolConflict)),
    (forall state symbols symbol symbolConflict,
       In (state, symbols) conflictsData ->
       In (symbol, symbolConflict) symbols ->
       resolved symbolConflict <> Some false) ->
    validateLRGrammar conflictsData =
    Returned [green (Str.chr Str.nl +++ "✓ Grammar doesn't have any conflicts!"
                     +++ Str.chr Str.nl)].
Proof.
  intros conflictsData H. unfold Cli.validateLRGrammar, Cli.collectConflicts.
  rewrite collectConflicts_flat, forEach_resolved; [reflexivity|].
  intros [symbol sc] Hin. apply In_allEntries in Hin as (state & symbols & Hs & He).
  exact (H state symbols symbol sc Hs He).
Qed.

(** An unresolved entry that is neither a shift-reduce nor a reduce-reduce
    conflict ends validation: when the entries before it, in the order of the
    two loops, can be recorded, the exception [Unknown conflict type: ...]
    with the text of the entry is thrown, and nothing is printed. *)
Theorem unknown_conflict_type_is_thrown :
  forall (conflictsData : list (string * list (string * SymbolConflict)))
         (before after : list (string * SymbolConflict))
         (symbol : string) (symbolConflict : SymbolConflict),
    allEntries conflictsData = before ++ (symbol, symbolConflict) :: after ->
    Forall wellFormed before ->
    resolved symbolConflict = Some false ->
    getEntryType (conflict symbolConflict) = OTHER_ENTRY ->
    validateLRGrammar conflictsData =
    Thrown ("Unknown conflict type: " +++ conflict symbolConflict).
Proof.
  intros conflictsData before after symbol sc Hall Hwf Hres Hty.
  unfold Cli.validateLRGrammar, Cli.collectConflicts.
  rewrite collectConflicts_flat, Hall, forEach_app.
  destruct (forEach_recordConflict Production Production_eq_dec getProduction getEntryType
              splitSRParts before
              {| hasConflicts := false; srConflicts := []; rrConflicts := [] |} Hwf)
    as (c' & Hrun & _).
  rewrite Hrun. cbn [forEach]. unfold Cli.recordConflict at 1. rewrite Hres, Hty. reflexivity.
Qed.

Lemma fromSR_more : forall seen more p symbol,
  fromSR seen p symbol -> fromSR (seen ++ more) p symbol.
Proof.
  intros seen more p symbol (sc & reducePart & rest & Hin & H).
  exists sc, reducePart, rest. split; [apply in_or_app; now left | exact H].
Qed.

Lemma fromRR_more : forall seen more k pp,
  fromRR seen k pp -> fromRR (seen ++ more) k pp.
Proof.
  intros seen more k pp (symbol & sc & r1 & r2 & rest & Hin & H).
  exists symbol, sc, r1, r2, rest. split; [apply in_or_app; now left | exact H].
Qed.

Lemma recordConflict_recorded :
  forall (c c' : Conflicts Production) (seen : list (string * SymbolConflict))
         (entry : string * SymbolConflict),
    recorded c seen ->
    recordConflict c entry = Returned c' ->
    recorded c' (seen ++ [entry]).
Proof.
  intros c c' seen [symbol sc] (Hsr & Hrr & Hnd1 & Hnd2 & Hhas) Hrec.
  assert (Hkeep : resolved sc <> Some false -> c' = c -> recorded c' (seen ++ [(symbol, sc)])).
  { intros Hres ->. repeat split; auto.
    - now apply Hsr in H.
    - intros s Hs. apply fromSR_more. destruct (Hsr p d H) as [_ Hd]. now apply Hd.
    - intros k pp Hk. apply fromRR_more. now apply Hrr.
    - intros Ht. destruct (proj1 Hhas Ht) as (s & x & Hin & Hx).
      exists s, x. split; [apply in_or_app; now left | exact Hx].
    - intros (s & x & Hin & Hx). apply in_app_or in Hin as [Hin | [E | []]].
      + apply Hhas. now exists s, x.
      + injection E as <- <-. contradiction. }
  unfold Cli.recordConflict in Hrec.
  destruct (resolved sc) as [[|]|] eqn:Hres;
    try (injection Hrec as <-; apply Hkeep; [discriminate | reflexivity]).
  assert (Hself : In (symbol, sc) (seen ++ [(symbol, sc)]))
    by (apply in_or_app; right; now left).
  destruct (getEntryType (conflict sc)) eqn:Hty; [| |discriminate].
  - destruct (splitSRParts (conflict sc)) as [|reducePart rest] eqn:Hsplit; [discriminate|].
    injection Hrec as <-. unfold recorded. cbn [srConflicts rrConflicts hasConflicts].
    split; [|split; [|split; [|split; [|split]]]].
    + intros p d Hin.
      destruct (In_mapSet _ _ Production_eq_dec _ _ _ _ _ Hin) as [[-> ->] | Hold].
      * split; [now destruct (match mapGet _ _ _ with Some d => d | None => [] end)|].
        intros s Hs. apply in_app_or in Hs as [Hs | [<- | []]].
        -- apply fromSR_more.
           destruct (mapGet Production_eq_dec (getProduction (slice1 reducePart))
                       (srConflicts Production c)) as [d|] eqn:Hget; [|destruct Hs].
           apply mapGet_In in Hget. destruct (Hsr _ _ Hget) as [_ Hd]. now apply Hd.
        -- exists sc, reducePart, rest. auto.
      * destruct (Hsr p d Hold) as [Hne Hd]. split; [exact Hne|].
        intros s Hs. apply fromSR_more. now apply Hd.
    + intros k pp Hk. apply fromRR_more. now apply Hrr.
    + now apply NoDup_keys_mapSet.
    + exact Hnd2.
    + intros _. now exists symbol, sc.
    + reflexivity.
  - destruct (splitSlash (conflict sc)) as [|reduce1 [|reduce2 rest]] eqn:Hsplit;
      try discriminate.
    injection Hrec as <-. unfold recorded. cbn [srConflicts rrConflicts hasConflicts].
    split; [|split; [|split; [|split; [|split]]]].
    + intros p d Hin. destruct (Hsr p d Hin) as [Hne Hd]. split; [exact Hne|].
      intros s Hs. apply fromSR_more. now apply Hd.
    + intros k pp Hin.
      destruct (In_mapSet _ _ string_dec _ _ _ _ _ Hin) as [[-> ->] | Hold].
      * exists symbol, sc, reduce1, reduce2, rest. auto 7.
      * apply fromRR_more. now apply Hrr.
    + exact Hnd1.
    + now apply NoDup_keys_mapSet.
    + intros _. now exists symbol, sc.
    + reflexivity.
Qed.

Lemma forEach_recorded :
  forall (l seen : list (string * SymbolConflict)) (c c' : Conflicts Production),
    recorded c seen ->
    forEach recordConflict c l = Returned c' ->
    recorded c' (seen ++ l).
Proof.
  induction l as [|entry l IH]; intros seen c c' Hrec Hrun; cbn [forEach] in Hrun.
  - injection Hrun as <-. now rewrite app_nil_r.
  - destruct (recordConflict c entry) as [c1| |] eqn:Hstep; try discriminate.
    replace (seen ++ entry :: l) with ((seen ++ [entry]) ++ l)
      by (rewrite <- app_assoc; reflexivity).
    apply (IH _ c1); [|exact Hrun].
    eapply recordConflict_recorded; eassumption.
Qed.

(** Only unresolved conflicts are reported, and each production once.  When
    the first loop of validation ends, every symbol kept for a production
    is the symbol of an unresolved shift-reduce conflict whose reduce part
    names that production, every pair of productions kept is that of an
    unresolved reduce-reduce conflict, no production and no reduce-reduce
    conflict has two entries, so that each gets one line of the report, and
    the report lists conflicts exactly when some entry is unresolved. *)
Theorem only_unresolved_conflicts_are_reported :
  forall (conflictsData : list (string * list (string * SymbolConflict)))
         (c : Conflicts Production),
    collectConflicts conflictsData = Returned c ->
    validateLRGrammar conflictsData = Returned (report c) /\
    (forall p d,
       In (p, d) (srConflicts Production c) ->
       d <> [] /\ forall symbol, In symbol d -> fromSR (allEntries conflictsData) p symbol) /\
    (forall k pp,
       In (k, pp) (rrConflicts Production c) -> fromRR (allEntries conflictsData) k pp) /\
    NoDup (map fst (srConflicts Production c)) /\
    NoDup (map fst (rrConflicts Production c)) /\
    (hasConflicts Production c = true <->
     exists symbol symbolConflict,
       In (symbol, symbolConflict) (allEntries conflictsData) /\
       resolved symbolConflict = Some false).
Proof.
  intros conflictsData c Hrun.
  split; [unfold Cli.validateLRGrammar; now rewrite Hrun|].
  unfold Cli.collectConflicts in Hrun. rewrite collectConflicts_flat in Hrun.
  apply (forEach_recorded _ [] _ c) in Hrun; [exact Hrun|].
  unfold Reports.recorded. cbn [srConflicts rrConflicts hasConflicts map].
  split; [intros p d []|]. split; [intros k pp []|].
  split; [constructor|]. split; [constructor|].
  split; [discriminate|]. intros (s & x & Hin & _). destruct Hin.
Qed.

End ValidateExtras.

(** ** The further properties of the driver at work *)

(** A lexical grammar file with one rule and one option. *)
Lemma lex_file_rules_witness :
  let file := fun _ : string =>
    {| rules := Some [{| startConditions := None; matcher := "\d+";
                         handler := "return 'NUMBER'" |}];
       options := Some [("flex", true)]; others := [] |} in
  let opts := {| lex := Some "calc.lex"; ignore_whitespaces := true;
                 case_insensitive := true |} in
  lex opts = Some "calc.lex" /\
  exists data,
    getLexGrammarData file opts = Some data /\
    rules data = rules (file "calc.lex") /\
    others data = others (file "calc.lex") /\
    (case_insensitive opts = false -> data = file "calc.lex").
Proof.
  intros file opts. split; [reflexivity|].
  apply (lex_file_rules_are_kept_as_they_are file opts "c" "alc.lex"). reflexivity.
Defined.

Lemma case_insensitive_option_witness :
  let file := fun _ : string =>
    {| rules := Some [{| startConditions := None; matcher := "\d+";
                         handler := "return 'NUMBER'" |}];
       options := Some [("flex", true)]; others := [] |} in
  let opts := {| lex := Some "calc.lex"; ignore_whitespaces := false;
                 case_insensitive := true |} in
  case_insensitive opts = true /\
  exists data o,
    getLexGrammarData file opts = Some data /\
    options data = Some o /\
    getProperty "case-insensitive" o = Some true /\
    (forall c path k,
       lex opts = Some (String c path) ->
       k <> "case-insensitive" ->
       getProperty k o =
       getProperty k (match options (file (String c path)) with Some o' => o' | None => [] end))
    /\
    (given (lex opts) = false ->
     rules data = if ignore_whitespaces opts then Some [skipWhitespaceRule] else None).
Proof.
  intros file opts. split; [reflexivity|].
  apply (case_insensitive_sets_the_option_and_keeps_the_others file opts). reflexivity.
Defined.

Lemma case_insensitive_alone_witness :
  let file := fun _ : string => {| rules := None; options := None; others := [] |} in
  let own := {| rules := Some [skipWhitespaceRule]; options := None; others := [] |} in
  let opts := {| lex := None; ignore_whitespaces := false; case_insensitive := true |} in
  given (lex opts) = false /\
  ignore_whitespaces opts = false /\
  case_insensitive opts = true /\
  mergeLex file (Some own) opts = TypeError.
Proof.
  intros file own opts. split; [reflexivity|]. split; [reflexivity|]. split; [reflexivity|].
  apply (case_insensitive_alone_breaks_a_grammar_with_lex file own opts); reflexivity.
Defined.

Lemma grammar_lex_options_witness :
  let file := fun _ : string =>
    {| rules := Some [{| startConditions := None; matcher := "\d+";
                         handler := "return 'NUMBER'" |}];
       options := None; others := [] |} in
  let own := {| rules := Some [skipWhitespaceRule]; options := Some [("flex", true)];
                others := [("macros", "{}")] |} in
  let opts := {| lex := Some "calc.lex"; ignore_whitespaces := false;
                 case_insensitive := true |} in
  exists merged,
    mergeLex file (Some own) opts = Returned merged /\
    exists m, merged = Some m /\ options m = options own /\ others m = others own.
Proof.
  intros file own opts. eexists. split; [reflexivity|].
  apply (grammar_lex_options_are_not_overridden file own opts). reflexivity.
Defined.

(** A table whose only conflict is resolved. *)
Lemma validate_accepts_witness :
  let conflictsData := [("4", [("-", {| resolved := Some true; conflict := "s6/r1" |})])] in
  (forall state symbols symbol symbolConflict,
     In (state, symbols) conflictsData ->
     In (symbol, symbolConflict) symbols ->
     resolved symbolConflict <> Some false) /\
  Conflicted.validateLRGrammar conflictsData =
  Returned [Conflicted.plain (Str.chr Str.nl +++ "✓ Grammar doesn't have any conflicts!"
                              +++ Str.chr Str.nl)].
Proof.
  intros conflictsData.
  assert (H : forall state symbols symbol symbolConflict,
             In (state, symbols) conflictsData ->
             In (symbol, symbolConflict) symbols ->
             resolved symbolConflict <> Some false).
  { intros state symbols symbol sc [E | []] Hin. injection E as <- <-.
    destruct Hin as [E | []]. injection E as <- <-. discriminate. }
  split; [exact H|].
  apply (validate_accepts_a_table_without_unresolved_conflicts string string_dec
           Conflicted.toFullString Conflicted.getProduction Conflicted.getEntryType
           Conflicted.splitSRParts Conflicted.plain Conflicted.plain Conflicted.plain
           "SLR1" "LALR1" conflictsData H).
Defined.

(** A table with an unresolved entry of two shifts, after a shift-reduce
    conflict. *)
Lemma unknown_conflict_type_witness :
  let conflictsData :=
    [("4", [("+", {| resolved := Some false; conflict := "s3/r1" |});
            ("*", {| resolved := Some false; conflict := "s5/s6" |})])] in
  let before := [("+", {| resolved := Some false; conflict := "s3/r1" |})] in
  allEntries conflictsData =
  before ++ [("*", {| resolved := Some false; conflict := "s5/s6" |})] /\
  Forall (wellFormed Conflicted.getEntryType Conflicted.splitSRParts) before /\
  Conflicted.getEntryType "s5/s6" = OTHER_ENTRY /\
  Conflicted.validateLRGrammar conflictsData = Thrown "Unknown conflict type: s5/s6".
Proof.
  intros conflictsData before.
  assert (Hwf : Forall (wellFormed Conflicted.getEntryType Conflicted.splitSRParts) before).
  { constructor; [|constructor]. intros _. left. split; [reflexivity | discriminate]. }
  split; [reflexivity|]. split; [exact Hwf|]. split; [reflexivity|].
  apply (unknown_conflict_type_is_thrown string string_dec
           Conflicted.toFullString Conflicted.getProduction Conflicted.getEntryType
           Conflicted.splitSRParts Conflicted.plain Conflicted.plain Conflicted.plain
           "SLR1" "LALR1" conflictsData before [] "*"
           {| resolved := Some false; conflict := "s5/s6" |});
    [reflexivity | exact Hwf | reflexivity | reflexivity].
Defined.

Lemma only_unresolved_conflicts_witness :
  exists c,
    collectConflicts string string_dec Conflicted.getProduction Conflicted.getEntryType
      Conflicted.splitSRParts Conflicted.conflictsData = Returned c /\
    Conflicted.validateLRGrammar Conflicted.conflictsData =
    Returned (report string Conflicted.toFullString Conflicted.plain Conflicted.plain
                Conflicted.plain "SLR1" "LALR1" c) /\
    (forall p d,
       In (p, d) (srConflicts string c) ->
       d <> [] /\
       forall symbol, In symbol d ->
         fromSR string Conflicted.getProduction Conflicted.getEntryType Conflicted.splitSRParts
           (allEntries Conflicted.conflictsData) p symbol) /\
    (forall k pp,
       In (k, pp) (rrConflicts string c) ->
       fromRR string Conflicted.getProduction Conflicted.getEntryType
         (allEntries Conflicted.conflictsData) k pp) /\
    NoDup (map fst (srConflicts string c)) /\
    NoDup (map fst (rrConflicts string c)) /\
    (hasConflicts string c = true <->
     exists symbol symbolConflict,
       In (symbol, symbolConflict) (allEntries Conflicted.conflictsData) /\
       resolved symbolConflict = Some false).
Proof.
  eexists. split; [vm_compute; reflexivity|].
  apply (only_unresolved_conflicts_are_reported string string_dec
           Conflicted.toFullString Conflicted.getProduction Conflicted.getEntryType
           Conflicted.splitSRParts Conflicted.plain Conflicted.plain Conflicted.plain
           "SLR1" "LALR1" Conflicted.conflictsData).
  vm_compute; reflexivity.
Defined.

(** ** Further properties of the emitter *)

Import EmitterRuns.

(** A quoted string stays closed.  For a string without backslashes, the
    text that [_toLuaMap] puts between the quotes holds no quote that would
    end the Lua string: every quote of the string comes out behind a
    backslash of its own.  (Backslashes themselves are not escaped; see
    [trailing_backslash_takes_the_closing_quote].) *)
Theorem quoted_strings_stay_closed :
  forall s : string,
    noBackslash s = true ->
    _toLuaMap (JString s) = Str.chr Str.dquote +++ escapeQuotes s +++ Str.chr Str.dquote /\
    staysQuoted (escapeQuotes s) = true.
Proof.
  intros s Hs. split; [reflexivity|].
  induction s as [|c r IH]; [reflexivity|].
  unfold noBackslash in Hs. cbn [allChars] in Hs. apply andb_prop in Hs as [Hc Hr].
  apply negb_true_iff in Hc. specialize (IH Hr). cbn [escapeQuotes].
  destruct (Ascii.eqb c Str.dquote) eqn:Hq.
  - cbn [staysQuoted]. rewrite Ascii.eqb_refl. exact IH.
  - cbn [staysQuoted]. rewrite Hc, Hq. exact IH.
Qed.

Lemma quoted_strings_witness :
  noBackslash ("say " +++ Str.chr Str.dquote +++ "hi" +++ Str.chr Str.dquote) = true /\
  _toLuaMap (JString ("say " +++ Str.chr Str.dquote +++ "hi" +++ Str.chr Str.dquote)) =
  Str.chr Str.dquote
  +++ escapeQuotes ("say " +++ Str.chr Str.dquote +++ "hi" +++ Str.chr Str.dquote)
  +++ Str.chr Str.dquote /\
  staysQuoted (escapeQuotes ("say " +++ Str.chr Str.dquote +++ "hi" +++ Str.chr Str.dquote))
  = true.
Proof.
  split; [reflexivity|].
  apply (quoted_strings_stay_closed
           ("say " +++ Str.chr Str.dquote +++ "hi" +++ Str.chr Str.dquote)).
  reflexivity.
Defined.

(** A string that ends in a backslash comes out with the backslash as it is,
    which takes the closing quote with it. *)
Example trailing_backslash_takes_the_closing_quote :
  _toLuaMap (JString (Str.chr Str.backslash)) =
  Str.chr Str.dquote +++ Str.chr Str.backslash +++ Str.chr Str.dquote /\
  staysQuoted (escapeQuotes (Str.chr Str.backslash)) = false.
Proof. split; reflexivity. Qed.

Lemma nth_error_In_firstn : forall (A : Type) (l : list A) (j : nat) (x : A),
  nth_error l j = Some x -> In x (firstn (S j) l).
Proof.
  intros A. induction l as [|y l IH]; intros [|j] x H; try discriminate.
  - injection H as ->. now left.
  - right. now apply IH.
Qed.

Section ProductionHandlers.

Variable Production : Type.
Variable getSemanticActionCode : Production -> option string.
Variable getSemanticActionParams : Production -> list string.

Local Abbreviation buildSemanticAction :=
  (Emitter.buildSemanticAction Production getSemanticActionCode getSemanticActionParams).
Local Abbreviation buildSemanticActions :=
  (EmitterRuns.buildSemanticActions Production getSemanticActionCode getSemanticActionParams).
Local Abbreviation handlerOf :=
  (EmitterRuns.handlerOf Production getSemanticActionCode getSemanticActionParams).
Local Abbreviation hasAction :=
  (EmitterRuns.hasAction Production getSemanticActionCode getSemanticActionParams).
Local Abbreviation handlersOf :=
  (EmitterRuns.handlersOf Production getSemanticActionCode getSemanticActionParams).
Local Abbreviation handlerNumber :=
  (EmitterRuns.handlerNumber Production getSemanticActionCode getSemanticActionParams).

Lemma buildSemanticAction_spec : forall (production : Production) (g : Generator),
  buildSemanticAction production g =
  match handlerOf production with
  | None => (None, g)
  | Some h =>
      (Some ("_handler" +++ Str.of_nat (S (List.length (_productionHandlers g)))),
       set_productionHandlers (_productionHandlers g ++ [h]) g)
  end.
Proof.
  intros production g. unfold Emitter.buildSemanticAction, EmitterRuns.handlerOf.
  destruct (getSemanticActionCode production) as [[|c r]|]; try reflexivity.
  cbn [_productionHandlers set_productionHandlers]. rewrite length_app. cbn [List.length].
  rewrite Nat.add_1_r. reflexivity.
Qed.

Lemma buildSemanticActions_cons : forall (production : Production) (more : list Production)
    (g : Generator),
  buildSemanticActions (production :: more) g =
  (fst (buildSemanticAction production g)
   :: fst (buildSemanticActions more (snd (buildSemanticAction production g))),
   snd (buildSemanticActions more (snd (buildSemanticAction production g)))).
Proof.
  intros production more g. cbn [EmitterRuns.buildSemanticActions].
  destruct (buildSemanticAction production g) as [name g1]. cbn [fst snd].
  destruct (buildSemanticActions more g1); reflexivity.
Qed.

Lemma buildSemanticActions_handlers : forall (productions : list Production) (g : Generator),
  snd (buildSemanticActions productions g) =
  set_productionHandlers (_productionHandlers g ++ handlersOf productions) g.
Proof.
  induction productions as [|p ps IH]; intros g.
  - cbn. rewrite app_nil_r. now destruct g.
  - rewrite buildSemanticActions_cons. cbn [snd]. rewrite IH, buildSemanticAction_spec.
    unfold EmitterRuns.handlersOf. cbn [flat_map].
    destruct (handlerOf p) as [h|]; cbn [snd]; [|reflexivity].
    cbn [_productionHandlers set_productionHandlers]. rewrite <- app_assoc. reflexivity.
Qed.

Lemma buildSemanticActions_length : forall (productions : list Production) (g : Generator),
  List.length (fst (buildSemanticActions productions g)) = List.length productions.
Proof.
  induction productions as [|p ps IH]; intros g; [reflexivity|].
  rewrite buildSemanticActions_cons. cbn [fst List.length]. now rewrite IH.
Qed.

Lemma handlerNumber_cons : forall (n : nat) (p : Production) (ps : list Production) (i : nat),
  handlerNumber n (p :: ps) (S i) =
  handlerNumber (n + (if hasAction p then 1 else 0)) ps i.
Proof.
  intros n p ps i. unfold EmitterRuns.handlerNumber. cbn [firstn filter].
  destruct (hasAction p); cbn [List.length]; lia.
Qed.

Lemma buildSemanticActions_names :
  forall (productions : list Production) (g : Generator) (i : nat) (production : Production),
    nth_error productions i = Some production ->
    nth_error (fst (buildSemanticActions productions g)) i =
    Some (match handlerOf production with
          | None => None
          | Some _ =>
              Some ("_handler" +++
                    Str.of_nat
                      (handlerNumber (List.length (_productionHandlers g)) productions i))
          end).
Proof.
  induction productions as [|p ps IH]; intros g [|i] production Hnth; try discriminate;
    rewrite buildSemanticActions_cons; cbn [fst nth_error] in *.
  - injection Hnth as ->. rewrite buildSemanticAction_spec.
    unfold EmitterRuns.handlerNumber, EmitterRuns.hasAction. cbn [firstn filter].
    destruct (handlerOf production); cbn [fst List.length]; [|reflexivity].
    rewrite Nat.add_1_r. reflexivity.
  - rewrite (IH _ i production Hnth), handlerNumber_cons, buildSemanticAction_spec.
    unfold EmitterRuns.hasAction.
    destruct (handlerOf p) as [h|]; cbn [snd _productionHandlers set_productionHandlers].
    + rewrite length_app. reflexivity.
    + rewrite Nat.add_0_r. reflexivity.
Qed.

Lemma handlersOf_resolves :
  forall (productions : list Production) (hs : list HandlerDecl) (i : nat)
         (production : Production) (h : HandlerDecl),
    nth_error productions i = Some production ->
    handlerOf production = Some h ->
    nth_error (hs ++ handlersOf productions)
      (handlerNumber (List.length hs) productions i - 1) = Some h.
Proof.
  induction productions as [|p ps IH]; intros hs [|i] production h Hnth Hh; try discriminate;
    cbn [nth_error] in Hnth.
  - injection Hnth as ->.
    unfold EmitterRuns.handlerNumber, EmitterRuns.hasAction, EmitterRuns.handlersOf.
    cbn [firstn filter flat_map]. rewrite Hh. cbn [List.length].
    rewrite nth_error_app2 by lia.
    replace (List.length hs + 1 - 1 - List.length hs)%nat with O by lia. reflexivity.
  - rewrite handlerNumber_cons. unfold EmitterRuns.handlersOf, EmitterRuns.hasAction.
    cbn [flat_map]. fold (handlersOf ps).
    destruct (handlerOf p) as [h0|].
    + replace (hs ++ [h0] ++ handlersOf ps) with ((hs ++ [h0]) ++ handlersOf ps)
        by (rewrite <- app_assoc; reflexivity).
      replace (List.length hs + 1)%nat with (List.length (hs ++ [h0]))
        by (rewrite length_app; reflexivity).
      now apply (IH _ i production).
    + rewrite Nat.add_0_r. cbn [app]. now apply (IH _ i production).
Qed.

Lemma handlerNumber_increases :
  forall (productions : list Production) (n i j : nat) (production : Production),
    (i < j)%nat ->
    nth_error productions j = Some production ->
    hasAction production = true ->
    (handlerNumber n productions i < handlerNumber n productions j)%nat.
Proof.
  induction productions as [|p ps IH]; intros n i [|j] production Hij Hnth Hact;
    try discriminate; try lia.
  cbn [nth_error] in Hnth. destruct i as [|i].
  - unfold EmitterRuns.handlerNumber. rewrite !firstn_cons, firstn_O. cbn [filter].
    assert (Hpos : (0 < List.length (filter hasAction (firstn (S j) ps)))%nat).
    { assert (Hin : In production (filter hasAction (firstn (S j) ps)))
        by (apply filter_In; split; [now apply nth_error_In_firstn | exact Hact]).
      destruct (filter hasAction (firstn (S j) ps)); [destruct Hin | cbn; lia]. }
    destruct (hasAction p); cbn [List.length]; lia.
  - rewrite !handlerNumber_cons. apply (IH _ i j production); [lia | exact Hnth | exact Hact].
Qed.

(** The handlers of the productions are numbered in the order of the
    productions.  When [buildSemanticAction] is called for the productions in
    turn, a production without action code gets [null] and uses up no number;
    a production with action code gets the name [_handler<n>], where [n]
    counts the productions with action code up to it, after the handlers that
    were there before; the handler kept at place [n] is the one of that
    production; and a later production with action code gets a larger number,
    so that no two share a name. *)
Theorem production_handlers_are_numbered_in_order :
  forall (productions : list Production) (g : Generator),
    let names := fst (buildSemanticActions productions g) in
    let g' := snd (buildSemanticActions productions g) in
    let n := List.length (_productionHandlers g) in
    g' = set_productionHandlers (_productionHandlers g ++ handlersOf productions) g /\
    List.length names = List.length productions /\
    (forall i production,
       nth_error productions i = Some production ->
       match handlerOf production with
       | None => nth_error names i = Some None
       | Some h =>
           nth_error names i =
           Some (Some ("_handler" +++ Str.of_nat (handlerNumber n productions i))) /\
           nth_error (_productionHandlers g') (handlerNumber n productions i - 1) = Some h
       end) /\
    (forall i j production,
       (i < j)%nat ->
       nth_error productions j = Some production ->
       hasAction production = true ->
       (handlerNumber n productions i < handlerNumber n productions j)%nat).
Proof.
  intros productions g names g' n.
  split; [apply buildSemanticActions_handlers|].
  split; [apply buildSemanticActions_length|]. split.
  - intros i production Hnth. unfold names, g', n.
    rewrite (buildSemanticActions_names productions g i production Hnth).
    destruct (handlerOf production) as [h|] eqn:Hh; [|reflexivity].
    split; [reflexivity|]. rewrite buildSemanticActions_handlers.
    cbn [_productionHandlers set_productionHandlers].
    now apply (handlersOf_resolves productions _ i production).
  - intros i j production. apply handlerNumber_increases.
Qed.

End ProductionHandlers.

Lemma production_handlers_witness :
  let buildAll :=
    buildSemanticActions Calc.Production Calc.getSemanticActionCode
      Calc.getSemanticActionParams in
  let productions := [Calc.start; Calc.add; Calc.mul] in
  nth_error productions 2 = Some Calc.mul /\
  hasAction Calc.Production Calc.getSemanticActionCode Calc.getSemanticActionParams Calc.mul
  = true /\
  fst (buildAll productions (construct "calc")) = [None; Some "_handler1"; Some "_handler2"] /\
  nth_error (_productionHandlers (snd (buildAll productions (construct "calc")))) 1 =
  Some {| args := "_1,_2,_3"; action := "__ = _1 * _3;" |} /\
  (handlerNumber Calc.Production Calc.getSemanticActionCode Calc.getSemanticActionParams
     0 productions 1 <
   handlerNumber Calc.Production Calc.getSemanticActionCode Calc.getSemanticActionParams
     0 productions 2)%nat.
Proof.
  intros buildAll productions.
  destruct (production_handlers_are_numbered_in_order Calc.Production
              Calc.getSemanticActionCode Calc.getSemanticActionParams productions
              (construct "calc")) as (_ & _ & Hnames & Hlt).
  split; [reflexivity|]. split; [reflexivity|]. split; [vm_compute; reflexivity|].
  split.
  - exact (proj2 (Hnames 2%nat Calc.mul eq_refl)).
  - exact (Hlt 1%nat 2%nat Calc.mul (Nat.lt_succ_diag_r 1) eq_refl eq_refl).
Defined.

(** ** A whole run of the emitter *)

Lemma generateLexRules_spec : forall (rules : list LexRule) (g : Generator),
  generateLexRules rules g =
  writeData "LEX_RULES"
    ("{ " +++
     Str.join ("," +++ Str.chr Str.nl)
       (mapi_from (List.length (_lexHandlers g))
          (fun lexRule index => lexRuleText lexRule (index + 1)) rules)
     +++ " }")
    (set_lexHandlers (_lexHandlers g ++ map lexHandlerOf rules) g).
Proof.
  intros rules g. unfold generateLexRules.
  pose proof (lexRuleEntries_spec rules g) as [Hfst Hsnd].
  destruct (lexRuleEntries g rules) as [entries g1]. cbn [fst snd] in Hfst, Hsnd.
  subst entries g1. reflexivity.
Qed.

Lemma lexHandlers_declarations : forall rules : list LexRule,
  _generateHandlers (map lexHandlerOf rules) "Tokenizer:" "_lexRule" =
  mapi
    (fun lexRule index =>
       declarationText "Tokenizer:" "_lexRule" (index + 1) EmptyString (getRawHandler lexRule))
    rules.
Proof.
  intros rules. unfold _generateHandlers, mapi. rewrite mapi_from_map.
  apply mapi_from_ext. intros lexRule k. apply handlerDeclaration_text.
Qed.

Section EmitterRun.

Variable Production : Type.
Variable getRuleIndex : LexRule -> Z.
Variable generateRawProductionsData :
  Grammar Production -> list HandlerDecl -> list (list RawItem) * list HandlerDecl.
Variable LUA_TOKENIZER_TEMPLATE : string.

Local Abbreviation runStep :=
  (Emitter.runStep Production getRuleIndex generateRawProductionsData LUA_TOKENIZER_TEMPLATE).
Local Abbreviation generateParserData :=
  (Emitter.generateParserData Production getRuleIndex generateRawProductionsData
     LUA_TOKENIZER_TEMPLATE).
Local Abbreviation emitted :=
  (Emitter.emitted Production getRuleIndex generateRawProductionsData LUA_TOKENIZER_TEMPLATE).

(** A step writes its own placeholder, once, after what was written. *)
Lemma runStep_written : forall (grammar : Grammar Production) (g : Generator) (step : Step),
  exists data,
    written (runStep grammar g step) = written g ++ [(placeholder step, data)] /\
    _parserClassName (runStep grammar g step) = _parserClassName g.
Proof.
  intros grammar g step. destruct step; cbn [Emitter.runStep placeholder];
    try (eexists; split; reflexivity).
  - rewrite generateLexRules_spec. eexists. split; reflexivity.
  - unfold Emitter.generateProductions.
    destruct (generateRawProductionsData grammar (_productionHandlers g)) as [rows handlers].
    eexists. split; reflexivity.
Qed.

Lemma steps_written : forall (grammar : Grammar Production) (steps : list Step) (g : Generator),
  exists w,
    written (fold_left (runStep grammar) steps g) = written g ++ w /\
    map fst w = map placeholder steps /\
    _parserClassName (fold_left (runStep grammar) steps g) = _parserClassName g.
Proof.
  intros grammar. induction steps as [|step steps IH]; intros g; cbn [fold_left].
  - exists []. rewrite app_nil_r. auto.
  - destruct (runStep_written grammar g step) as (data & Hw & Hn).
    destruct (IH (runStep grammar g step)) as (w & Hw' & Hfst & Hn').
    exists ((placeholder step, data) :: w). rewrite Hw', Hw, <- app_assoc.
    split; [reflexivity|]. split; [cbn; now rewrite Hfst | congruence].
Qed.

(** Only [generateLexRules] touches the handlers of the lexical rules. *)
Lemma steps_lexHandlers : forall (grammar : Grammar Production) (steps : list Step)
    (g : Generator),
  ~ In GenerateLexRules steps ->
  _lexHandlers (fold_left (runStep grammar) steps g) = _lexHandlers g.
Proof.
  intros grammar. induction steps as [|step steps IH]; intros g Hnot; cbn [fold_left];
    [reflexivity|].
  rewrite IH by (intros H; apply Hnot; now right).
  destruct step; cbn [Emitter.runStep]; try reflexivity.
  - exfalso. apply Hnot. now left.
  - unfold Emitter.generateProductions.
    destruct (generateRawProductionsData grammar (_productionHandlers g)); reflexivity.
Qed.


(** The names in [LEX_RULES] are those of the declarations.  In a run of a
    freshly made generator in which the base generator calls
    [generateLexRules] once, among whatever other steps, the entry of rule
    number [i] (from 0) in the text written for [LEX_RULES] names the handler
    [_lexRule<i+1>], and the text written for [LEX_RULE_HANDLERS] at the end
    of the run declares [Tokenizer:_lexRule<i+1>] with the raw handler of
    that rule, for every rule of the grammar and in the order of the rules. *)
Theorem lex_rule_names_match_their_declarations :
  forall (before after : list Step) (grammar : Grammar Production) (g : Generator),
    ~ In GenerateLexRules before ->
    ~ In GenerateLexRules after ->
    _lexHandlers g = [] ->
    let run := emitted (before ++ GenerateLexRules :: after) grammar g in
    In ("LEX_RULES", lexRulesText (getRules Production grammar)) run /\
    In ("LEX_RULE_HANDLERS", lexHandlersText (getRules Production grammar)) run /\
    _lexHandlers (generateParserData (before ++ GenerateLexRules :: after) grammar g) =
    map lexHandlerOf (getRules Production grammar).
Proof.
  intros before after grammar g Hbefore Hafter Hnone run.
  unfold run, Emitter.emitted, Emitter.generateParserData.
  rewrite fold_left_app. cbn [fold_left]. cbn [Emitter.runStep].
  set (g1 := fold_left (runStep grammar) before g).
  destruct (steps_written grammar before g) as (w1 & Hw1 & _ & _). fold g1 in Hw1.
  assert (Hl1 : _lexHandlers g1 = []) by (unfold g1; now rewrite steps_lexHandlers).
  set (g2 := generateLexRules (getRules Production grammar) g1).
  assert (Hg2 : g2 = writeData "LEX_RULES" (lexRulesText (getRules Production grammar))
                       (set_lexHandlers (map lexHandlerOf (getRules Production grammar)) g1)).
  { unfold g2. rewrite generateLexRules_spec, Hl1. reflexivity. }
  set (g3 := fold_left (runStep grammar) after g2).
  destruct (steps_written grammar after g2) as (w3 & Hw3 & _ & _). fold g3 in Hw3.
  assert (Hl3 : _lexHandlers g3 = map lexHandlerOf (getRules Production grammar))
    by (unfold g3; rewrite steps_lexHandlers by exact Hafter; rewrite Hg2; reflexivity).
  cbv zeta. unfold generateParserClassName, generateProductionHandlers, generateLexHandlers.
  cbn [writeData written _parserClassName _lexHandlers _productionHandlers].
  rewrite Hl3, lexHandlers_declarations. fold (lexHandlersText (getRules Production grammar)).
  rewrite Hw3, Hg2. cbn [writeData written set_lexHandlers]. rewrite Hw1.
  rewrite <- !app_assoc. rewrite skipn_length_app.
  split; [|split; [|reflexivity]].
  - apply in_or_app. right. now left.
  - apply in_or_app. right. apply in_or_app. right. apply in_or_app. right. now left.
Qed.

End EmitterRun.


Lemma lex_rule_names_witness :
  let before := [GenerateModuleInclude; GenerateBuiltInTokenizer; GenerateTokensTable;
                 GenerateParseTable; GenerateProductions] in
  let after := [GenerateLexRulesByStartConditions] in
  ~ In GenerateLexRules before /\
  ~ In GenerateLexRules after /\
  _lexHandlers (construct "calc") = [] /\
  Calc.superSteps = before ++ GenerateLexRules :: after /\
  In ("LEX_RULES", lexRulesText Calc.lexRules) (Calc.emitted Calc.grammar (construct "calc")) /\
  In ("LEX_RULE_HANDLERS", lexHandlersText Calc.lexRules)
    (Calc.emitted Calc.grammar (construct "calc")).
Proof.
  intros before after.
  assert (Hb : ~ In GenerateLexRules before)
    by (intros H; repeat (destruct H as [H | H]; [discriminate|]); exact H).
  assert (Ha : ~ In GenerateLexRules after)
    by (intros H; repeat (destruct H as [H | H]; [discriminate|]); exact H).
  split; [exact Hb|]. split; [exact Ha|]. split; [reflexivity|]. split; [reflexivity|].
  destruct (lex_rule_names_match_their_declarations Calc.Production Calc.getRuleIndex
              Calc.generateRawProductionsData "-- tokenizer" before after Calc.grammar
              (construct "calc") Hb Ha eq_refl) as (H1 & H2 & _).
  split; [exact H1 | exact H2].
Defined.

(** ** The routes of the driver *)

Lemma In_andThen : forall (e : Driver.Event) (a b : Driver.Run),
  In e (fst (Driver.andThen a b)) -> In e (fst a) \/ In e (fst b).
Proof.
  intros e [ea [|m|]] b H; unfold Driver.andThen in H; cbn [fst snd] in H; auto.
  apply in_app_or in H. exact H.
Qed.

Section DriverFacts.

Import Driver.

Variable toUpperCase : string -> string.
Variable extname : string -> string.
Variable GRAMMAR_MODE : list string.
Variable inheritedName : string -> bool.
Variable dataFromGrammarFile : string -> LexGrammarData.

Local Abbreviation extractMode := (Driver.extractMode toUpperCase extname GRAMMAR_MODE).
Local Abbreviation lrGenerator := (Driver.lrGenerator inheritedName).
Local Abbreviation handleStandaloneTokenizer :=
  (Driver.handleStandaloneTokenizer dataFromGrammarFile).
Local Abbreviation parseAndGenerate := (Driver.parseAndGenerate extname).
Local Abbreviation runParser := (Driver.runParser extname inheritedName).
Local Abbreviation main :=
  (Driver.main toUpperCase extname GRAMMAR_MODE inheritedName dataFromGrammarFile).

Lemma existsb_eqb_In : forall (x : string) (l : list string),
  existsb (String.eqb x) l = true -> In x l.
Proof.
  intros x l H. apply existsb_exists in H as (y & Hin & E).
  apply String.eqb_eq in E. now subst.
Qed.

(** A mode that [extractMode] answers is a key of both tables. *)
Lemma extractMode_valid : forall (argv : Argv) (mode : string),
  extractMode argv = inl mode -> In mode GRAMMAR_MODE /\ In mode parsersKeys.
Proof.
  intros argv m H. unfold Driver.extractMode in H.
  destruct (match mode argv with
            | Some (String c r) => String c r
            | _ => match grammar argv with
                   | Some (String c r) => slice1 (extname (String c r))
                   | _ => EmptyString
                   end
            end) as [|c r]; [discriminate|].
  destruct (existsb (String.eqb (normalizeMode toUpperCase (String c r))) GRAMMAR_MODE) eqn:H1;
    cbn [negb] in H; [|discriminate].
  destruct (existsb (String.eqb (normalizeMode toUpperCase (String c r))) parsersKeys) eqn:H2;
    cbn [negb] in H; [|discriminate].
  injection H as <-. split; now apply existsb_eqb_In.
Qed.

Lemma tokenizeFromOptions_events : forall (argv : Argv) (e : Event),
  In e (fst (tokenizeFromOptions argv)) -> exists source, e = Tokens source.
Proof.
  intros argv e H. unfold tokenizeFromOptions in H.
  destruct (negb (isSome (parse argv)) && negb (isSome (file argv)))%bool; [destruct H|].
  cbn [fst] in H. apply in_app_or in H as [H | H].
  - destruct (parse argv); [|destruct H]. destruct H as [<- | []]. eauto.
  - destruct (file argv); [|destruct H]. destruct H as [<- | []]. eauto.
Qed.

Lemma parseAndGenerate_generates :
  forall (generatorOf : string -> Completion string) (argv : Argv) (generator outputFile : string),
    In (Generate generator outputFile) (fst (parseAndGenerate generatorOf argv)) ->
    output argv = Some outputFile /\ outputFile <> EmptyString /\
    generatorOf (slice1 (extname outputFile)) = Returned generator.
Proof.
  intros generatorOf argv generator outputFile H. unfold Driver.parseAndGenerate in H.
  apply In_andThen in H as [H | H].
  - cbn [fst] in H. apply in_app_or in H as [H | H].
    + destruct (parse argv); [destruct H as [E | []]; discriminate | destruct H].
    + destruct (file argv); [destruct H as [E | []]; discriminate | destruct H].
  - apply In_andThen in H as [H | H].
    + destruct (tokenize argv) as [[|]|]; try destruct H.
      apply tokenizeFromOptions_events in H as [source E]. discriminate.
    + destruct (output argv) as [[|c r]|]; try destruct H.
      destruct (generatorOf (slice1 (extname (String c r)))) eqn:Hg;
        [|destruct H|destruct H].
      destruct H as [E | []]. injection E as <- <-. repeat split; [discriminate | exact Hg].
Qed.

Lemma runParser_generates :
  forall (mode : string) (argv : Argv) (generator outputFile : string),
    In (Generate generator outputFile) (fst (runParser mode argv)) ->
    given (grammar argv) = true /\
    output argv = Some outputFile /\ outputFile <> EmptyString /\
    ((mode = "LL1" /\ llGenerator (slice1 (extname outputFile)) = Returned generator) \/
     (mode <> "LL1" /\ lrGenerator (slice1 (extname outputFile)) = Returned generator)).
Proof.
  intros m argv generator outputFile H.
  assert (HLR : forall key,
             In (Generate generator outputFile) (fst (_genericLR extname inheritedName key argv)) ->
             given (grammar argv) = true /\
             output argv = Some outputFile /\ outputFile <> EmptyString /\
             lrGenerator (slice1 (extname outputFile)) = Returned generator).
  { intros key Hk. unfold _genericLR in Hk.
    destruct (given (grammar argv)); cbn [negb] in Hk; [|destruct Hk].
    split; [reflexivity|]. apply In_andThen in Hk as [Hk | Hk].
    - cbn [fst] in Hk. destruct Hk as [E | Hk]; [discriminate|]. cbn [app] in Hk.
      apply in_app_or in Hk as [Hk | Hk];
        [destruct (collection argv); [destruct Hk as [E | []]; discriminate | destruct Hk]|].
      apply in_app_or in Hk as [Hk | Hk];
        [destruct (validate argv); [destruct Hk as [E | []]; discriminate | destruct Hk]|].
      destruct (table argv); [destruct Hk as [E | []]; discriminate | destruct Hk].
    - now apply parseAndGenerate_generates in Hk. }
  unfold Driver.runParser in H.
  destruct (String.eqb m "LR0") eqn:E0;
    [apply String.eqb_eq in E0; subst; destruct (HLR _ H) as (A & B & C & D);
     repeat split; auto; right; split; [discriminate | exact D]|].
  destruct (String.eqb m "SLR1") eqn:E1;
    [apply String.eqb_eq in E1; subst; destruct (HLR _ H) as (A & B & C & D);
     repeat split; auto; right; split; [discriminate | exact D]|].
  destruct (String.eqb m "CLR1") eqn:E2;
    [apply String.eqb_eq in E2; subst; destruct (HLR _ H) as (A & B & C & D);
     repeat split; auto; right; split; [discriminate | exact D]|].
  destruct (String.eqb m "LALR1") eqn:E3;
    [apply String.eqb_eq in E3; subst; destruct (HLR _ H) as (A & B & C & D);
     repeat split; auto; right; split; [discriminate | exact D]|].
  destruct (String.eqb m "LALR1_BY_SLR1") eqn:E4;
    [apply String.eqb_eq in E4; subst; destruct (HLR _ H) as (A & B & C & D);
     repeat split; auto; right; split; [discriminate | exact D]|].
  destruct (String.eqb m "LALR1_BY_CLR1") eqn:E5;
    [apply String.eqb_eq in E5; subst; destruct (HLR _ H) as (A & B & C & D);
     repeat split; auto; right; split; [discriminate | exact D]|].
  destruct (String.eqb m "LL1") eqn:E6; [|destruct H].
  apply String.eqb_eq in E6. subst m. unfold Driver.LL1 in H.
  destruct (given (grammar argv)); cbn [negb] in H; [|destruct H].
  split; [reflexivity|]. apply In_andThen in H as [H | H].
  - cbn [fst] in H. destruct H as [E | H]; [discriminate|]. cbn [app] in H.
    destruct (table argv); [destruct H as [E | []]; discriminate | destruct H].
  - apply parseAndGenerate_generates in H as (A & B & C). repeat split; auto.
Qed.

Lemma handleStandaloneTokenizer_events : forall (argv : Argv) (e : Event),
  In e (fst (handleStandaloneTokenizer argv)) ->
  (exists fromData, e = BuildLexGrammar fromData) \/
  (tokenize argv = Some true /\ exists source, e = Tokens source).
Proof.
  intros argv e H. unfold Driver.handleStandaloneTokenizer in H.
  apply In_andThen in H as [H | H].
  - left. destruct (getLexGrammarData dataFromGrammarFile (lexOptions argv)).
    + destruct H as [<- | []]. eauto.
    + destruct (given (grammar argv)); [|destruct H]. destruct H as [<- | []]. eauto.
  - apply In_andThen in H as [H | H].
    + destruct (negb (isSome (tokenize argv)) && negb (isSome (output argv)))%bool; destruct H.
    + destruct (tokenize argv) as [[|]|]; try destruct H.
      right. split; [reflexivity|]. now apply tokenizeFromOptions_events in H.
Qed.

Lemma handleSets_events : forall (argv : Argv) (e : Event),
  In e (fst (handleSets argv)) -> exists name, e = PrintSet name.
Proof.
  intros argv e H. unfold handleSets in H. cbn [fst] in H.
  repeat (apply in_app_or in H as [H | H]);
    match type of H with
    | In _ (if ?b then _ else _) => destruct b; [destruct H as [<- | []]; eauto | destruct H]
    end.
Qed.

(** A parser module is generated only on a parser route.  When a run of
    [main] calls a generator, the run is not a tokenizer-only run, a grammar
    file is given, the output file is the one of [--output] and is not
    empty, [extractMode] answers a mode that is a key of [GRAMMAR_MODE] and
    of [parsers], and the generator is the one the table of that route has
    for the extension of the output file: the table of [LL1] for the mode
    [LL1], the table of [_genericLR] with its default for every other mode. *)
Theorem a_parser_module_is_generated_only_on_a_parser_route :
  forall (argv : Argv) (generator outputFile : string),
    In (Generate generator outputFile) (fst (main argv)) ->
    isTokenizerOnly argv = false /\
    given (grammar argv) = true /\
    output argv = Some outputFile /\
    outputFile <> EmptyString /\
    exists mode,
      extractMode argv = inl mode /\
      In mode GRAMMAR_MODE /\ In mode parsersKeys /\
      ((mode = "LL1" /\ llGenerator (slice1 (extname outputFile)) = Returned generator) \/
       (mode <> "LL1" /\ lrGenerator (slice1 (extname outputFile)) = Returned generator)).
Proof.
  intros argv generator outputFile H. unfold Driver.main in H.
  apply In_andThen in H as [H | H].
  - destruct (version argv); [destruct H as [E | []]; discriminate | destruct H].
  - destruct (negb (given (grammar argv)) && negb (given (lex (lexOptions argv))))%bool.
    + destruct (version argv); destruct H.
    + destruct (isTokenizerOnly argv) eqn:Honly.
      * apply handleStandaloneTokenizer_events in H as [[b E] | [_ [s E]]]; discriminate.
      * apply In_andThen in H as [H | H].
        -- destruct (given (sets argv)); [|destruct H].
           apply handleSets_events in H as [name E]. discriminate.
        -- destruct (extractMode argv) as [m|message] eqn:Hmode; [|destruct H].
           destruct (runParser_generates m argv generator outputFile H) as (A & B & C & D).
           destruct (extractMode_valid argv m Hmode) as [V1 V2].
           repeat split; auto. exists m. auto.
Qed.

(** A tokenizer-only run writes no file.  When [isTokenizerOnly] holds, that
    is with [--tokenizer-only] or with [--lex] and no grammar, [main] builds
    the lexical grammar and at most lists tokens; it calls no generator and
    no parser, whatever [--output] is; and without [--tokenize] it does
    nothing more than build the lexical grammar. *)
Theorem tokenizer_only_runs_write_no_file :
  forall (argv : Argv) (e : Event),
    isTokenizerOnly argv = true ->
    In e (fst (main argv)) ->
    e = PrintVersion \/
    (exists fromData, e = BuildLexGrammar fromData) \/
    (tokenize argv = Some true /\ exists source, e = Tokens source).
Proof.
  intros argv e Honly H. unfold Driver.main in H.
  apply In_andThen in H as [H | H].
  - left. destruct (version argv); [destruct H as [<- | []]; reflexivity | destruct H].
  - right. destruct (negb (given (grammar argv)) && negb (given (lex (lexOptions argv))))%bool.
    + destruct (version argv); destruct H.
    + rewrite Honly in H. now apply handleStandaloneTokenizer_events in H.
Qed.

(** An unknown extension falls back to JavaScript for the LR modes only.  For
    a language that [GENERATORS] of [_genericLR] does not have, the default
    generator is taken, while [LL1] has no default and the call raises a
    [TypeError]; every language [LL1] has a generator for, [_genericLR] has
    one for as well; and Lua is among the languages of [_genericLR] and not
    among those of [LL1]. *)
Theorem unknown_extension_falls_back_for_LR_only :
  (forall language,
     getProperty language lrGenerators = None ->
     inheritedName language = false ->
     lrGenerator language = Returned "lr/lr-parser-generator-default.js" /\
     llGenerator language = TypeError) /\
  (forall language generator,
     llGenerator language = Returned generator ->
     exists generator', lrGenerator language = Returned generator') /\
  lrGenerator "lua" = Returned "plugins/lua/lr/lr-parser-generator-lua.js" /\
  llGenerator "lua" = TypeError.
Proof.
  split; [|split; [|split; reflexivity]].
  - intros language Hnone Hinh. unfold Driver.lrGenerator, llGenerator.
    rewrite Hnone, Hinh. split; [reflexivity|].
    unfold lrGenerators, llGenerators in *. cbn [getProperty] in *.
    repeat match goal with
           | H : (if String.eqb ?k language then _ else _) = None |- _ =>
               destruct (String.eqb k language); [discriminate|]
           end.
    reflexivity.
  - intros language generator H. unfold llGenerator, Driver.lrGenerator in *.
    unfold lrGenerators, llGenerators in *. cbn [getProperty] in *.
    repeat match goal with
           | H : match (if String.eqb ?k language then _ else _) with _ => _ end = _ |- _ =>
               destruct (String.eqb k language); [eexists; reflexivity|]
           end.
    discriminate.
Qed.

End DriverFacts.

Lemma a_parser_module_witness :
  In (Driver.Generate "plugins/lua/lr/lr-parser-generator-lua.js" "calc.lua")
    (fst (DriverExample.main DriverExample.calcToLua)) /\
  Driver.isTokenizerOnly DriverExample.calcToLua = false /\
  given (Driver.grammar DriverExample.calcToLua) = true /\
  Driver.output DriverExample.calcToLua = Some "calc.lua" /\
  "calc.lua" <> EmptyString /\
  exists mode,
    Driver.extractMode DriverExample.toUpperCase DriverExample.extname
      DriverExample.GRAMMAR_MODE DriverExample.calcToLua = inl mode /\
    In mode DriverExample.GRAMMAR_MODE /\ In mode Driver.parsersKeys /\
    ((mode = "LL1" /\
      Driver.llGenerator (slice1 (DriverExample.extname "calc.lua")) =
      Returned "plugins/lua/lr/lr-parser-generator-lua.js") \/
     (mode <> "LL1" /\
      Driver.lrGenerator DriverExample.inheritedName (slice1 (DriverExample.extname "calc.lua")) =
      Returned "plugins/lua/lr/lr-parser-generator-lua.js")).
Proof.
  assert (H : In (Driver.Generate "plugins/lua/lr/lr-parser-generator-lua.js" "calc.lua")
                (fst (DriverExample.main DriverExample.calcToLua)))
    by (vm_compute; auto).
  split; [exact H|].
  exact (a_parser_module_is_generated_only_on_a_parser_route DriverExample.toUpperCase
           DriverExample.extname DriverExample.GRAMMAR_MODE DriverExample.inheritedName
           DriverExample.noLexData DriverExample.calcToLua _ _ H).
Defined.

Lemma tokenizer_only_witness :
  Driver.isTokenizerOnly DriverExample.tokenizerToLua = true /\
  fst (DriverExample.main DriverExample.tokenizerToLua) = [Driver.BuildLexGrammar false] /\
  forall e,
    In e (fst (DriverExample.main DriverExample.tokenizerToLua)) ->
    e = Driver.PrintVersion \/
    (exists fromData, e = Driver.BuildLexGrammar fromData) \/
    (Driver.tokenize DriverExample.tokenizerToLua = Some true /\
     exists source, e = Driver.Tokens source).
Proof.
  split; [reflexivity|]. split; [vm_compute; reflexivity|].
  intros e. apply (tokenizer_only_runs_write_no_file DriverExample.toUpperCase
                     DriverExample.extname DriverExample.GRAMMAR_MODE
                     DriverExample.inheritedName DriverExample.noLexData
                     DriverExample.tokenizerToLua e).
  reflexivity.
Defined.

Lemma unknown_extension_witness :
  getProperty "txt" Driver.lrGenerators = None /\
  DriverExample.inheritedName "txt" = false /\
  Driver.lrGenerator DriverExample.inheritedName "txt" =
  Returned "lr/lr-parser-generator-default.js" /\
  Driver.llGenerator "txt" = TypeError.
Proof.
  split; [reflexivity|]. split; [reflexivity|].
  apply (proj1 (unknown_extension_falls_back_for_LR_only DriverExample.inheritedName) "txt");
    reflexivity.
Defined.
